(** * csc-docs maintenance scripts: sync-changelog.js and update-database-stats.js

    A shallow embedding of the two scripts under [scripts/] and the
    properties of their text-extraction-and-regeneration pipeline.

    Modelling conventions.
    - A JavaScript string is a [list ascii]: a sequence of code units
      restricted to the Latin-1 range, on which [toLowerCase], [trim], the
      [\s] class and the [i] flag are modelled exactly.
    - A JavaScript number is a [jsnum]: [NaN] or an integer, with exact
      arithmetic.  The numbers of the program are IEEE doubles: the two
      agree as long as every value stays below 2^53, where [parseInt], the
      quotients under [Math.floor], the products and the printing in
      decimal digits are all exact.  The theorems that depend on the value
      of a number state this bound; the model says nothing of how larger
      numbers are rounded or printed ([Infinity], exponents).
    - [toLocaleString] of a number is a function of the platform, given by
      a [NumberFormat]: the script does not set the locale.  [en_US] is
      the en-US locale, whose number texts the anchor patterns read.
    - Regular expressions are values of [regex], run by [rmatch], a
      backtracking matcher with the priorities of the JavaScript one
      (greedy before lazy, left alternative first, first position first).
    - The file system is a [gmap string (list ascii)] threaded through the
      drivers. *)

From Stdlib Require Import Ascii String ZArith Lia List DecimalString DecimalN.
From stdpp Require Import gmap strings list sorting.

Open Scope Z_scope.

(** ** Strings *)

Definition lit (s : string) : list ascii := list_ascii_of_string s.

Definition code (c : ascii) : N := N_of_ascii c.

Definition in_range (lo hi : N) (c : ascii) : bool :=
  ((lo <=? code c) && (code c <=? hi))%N.

Definition chr_eqb (a b : ascii) : bool := Ascii.eqb a b.

(** [WhiteSpace] and [LineTerminator] code points below 256: TAB, LF, VT,
    FF, CR, SP and NBSP.  Used by [trim] and by the class [\s]. *)
Definition is_space (c : ascii) : bool :=
  in_range 9 13 c || (code c =? 32)%N || (code c =? 160)%N.

(** Line terminators below 256: LF and CR.  [.] excludes them and [$] under
    the [m] flag looks for them. *)
Definition is_line_terminator (c : ascii) : bool :=
  (code c =? 10)%N || (code c =? 13)%N.

Definition is_digit (c : ascii) : bool := in_range 48 57 c.

(** [String.prototype.toLowerCase] on one Latin-1 code unit.  On the
    Latin-1 range it identifies the same characters as the [i] flag of a
    pattern ([canon_char] below); beyond that range the two differ (the
    Kelvin sign is lower-cased to "k" and is not read as "K" by a
    pattern). *)
Definition lower_char (c : ascii) : ascii :=
  if in_range 65 90 c || (in_range 192 222 c && negb (code c =? 215)%N)
  then ascii_of_N (code c + 32) else c.

Definition toLowerCase (s : list ascii) : list ascii := map lower_char s.

(** [Canonicalize] of a non-unicode [i] regular expression on one Latin-1
    code unit: the upper-case mapping when it stays a single Latin-1 unit. *)
Definition canon_char (c : ascii) : ascii :=
  if in_range 97 122 c || (in_range 224 254 c && negb (code c =? 247)%N)
  then ascii_of_N (code c - 32) else c.

Fixpoint starts_with (p s : list ascii) : bool :=
  match p, s with
  | [], _ => true
  | _ :: _, [] => false
  | a :: p', b :: s' => chr_eqb a b && starts_with p' s'
  end.

(** [String.prototype.includes]. *)
Fixpoint includes (p s : list ascii) : bool :=
  starts_with p s ||
  match s with
  | [] => false
  | _ :: s' => includes p s'
  end.

Fixpoint trim_start (s : list ascii) : list ascii :=
  match s with
  | c :: s' => if is_space c then trim_start s' else s
  | [] => []
  end.

Definition trim_end (s : list ascii) : list ascii :=
  rev (trim_start (rev s)).

(** [String.prototype.trim]. *)
Definition trim (s : list ascii) : list ascii := trim_end (trim_start s).

(** [String.prototype.split] with a one-character separator. *)
Fixpoint split_on (sep : ascii) (s : list ascii) : list (list ascii) :=
  match s with
  | [] => [[]]
  | c :: s' =>
      if chr_eqb c sep then [] :: split_on sep s'
      else match split_on sep s' with
           | h :: t => (c :: h) :: t
           | [] => [[c]]
           end
  end.

(** [String.prototype.substring(n)]. *)
Definition substring_from (n : nat) (s : list ascii) : list ascii := drop n s.

(** Truthiness of a string: non-empty. *)
Definition truthy (s : list ascii) : bool :=
  match s with [] => false | _ => true end.

Definition NL : ascii := ascii_of_N 10.
Definition DQ : ascii := ascii_of_N 34.

(** ** sync-changelog.js: [parseReleaseBody] *)

Record Parsed := mkParsed {
  features : list (list ascii);
  improvements : list (list ascii);
  fixes : list (list ascii);
  breaking : bool
}.

(** [body.split('\n').map(line => line.trim()).filter(line => line)] *)
Definition body_lines (body : list ascii) : list (list ascii) :=
  filter (fun l => truthy l = true) (map trim (split_on NL body)).

Definition is_bullet (line : list ascii) : bool :=
  starts_with (lit "* ") line || starts_with (lit "- ") line.

Definition bullet_item (line : list ascii) : list ascii :=
  trim (substring_from 2 line).

Definition is_skipped (item : list ascii) : bool :=
  includes (lit "made their first contribution") item
  || includes (lit "@") item && includes (lit "in #") item
  || includes (lit "Full Changelog") item.

Definition detect_breaking (body : list ascii) : bool :=
  includes (lit "breaking change") (toLowerCase body)
  || includes (lit "!!breaking") (toLowerCase body).

(** One turn of the [for (const line of lines)] loop on the three arrays. *)
Definition parse_step (acc : Parsed) (line : list ascii) : Parsed :=
  if is_bullet line then
    let item := bullet_item line in
    if is_skipped item then acc
    else
      let lowerItem := toLowerCase item in
      if includes (lit "fix") lowerItem || includes (lit "resolve") lowerItem
         || includes (lit "solved") lowerItem
      then mkParsed (features acc) (improvements acc) (fixes acc ++ [item])
                    (breaking acc)
      else if includes (lit "add") lowerItem || includes (lit "new") lowerItem
              || includes (lit "support") lowerItem
                 && negb (includes (lit "fix") lowerItem)
      then mkParsed (features acc ++ [item]) (improvements acc) (fixes acc)
                    (breaking acc)
      else mkParsed (features acc) (improvements acc ++ [item]) (fixes acc)
                    (breaking acc)
  else acc.

(** [body] is [None] when the release has no body ([null]/[undefined]). *)
Definition parseReleaseBody (body : option (list ascii)) : Parsed :=
  match body with
  | None => mkParsed [] [] [] false
  | Some b =>
      if negb (truthy b) then mkParsed [] [] [] false
      else
        fold_left parse_step (body_lines b)
                  (mkParsed [] [] [] (detect_breaking b))
  end.

(** The three categories as predicates on an item, in the precedence of the
    [if ... else if ... else] chain. *)
Definition is_fix_item (item : list ascii) : bool :=
  let l := toLowerCase item in
  includes (lit "fix") l || includes (lit "resolve") l
  || includes (lit "solved") l.

Definition is_feature_item (item : list ascii) : bool :=
  let l := toLowerCase item in
  negb (is_fix_item item)
  && (includes (lit "add") l || includes (lit "new") l
      || includes (lit "support") l && negb (includes (lit "fix") l)).

Definition is_improvement_item (item : list ascii) : bool :=
  negb (is_fix_item item) && negb (is_feature_item item).

(** The bullets that survive the discard rules, in body order. *)
Definition kept_items (body : list ascii) : list (list ascii) :=
  filter (fun i => is_skipped i = false)
         (map bullet_item (filter (fun l => is_bullet l = true) (body_lines body))).

(** ** Regular expressions

    The fragment of the JavaScript pattern language the two scripts use.
    One capturing group at most occurs in a pattern, so the captures are a
    single optional string. *)

Inductive regex : Type :=
| Chr (c : ascii)                 (* a pattern character *)
| Cls (p : ascii -> bool)         (* a class: \d, \s, ., [^<], [:\s] *)
| Eps
| Seq (a b : regex)
| Opt (a : regex)                 (* a?   greedy *)
| Star (a : regex)                (* a*   greedy *)
| LazyStar (a : regex)            (* a*?  *)
| Group (a : regex)               (* ( a ), capture 1 *)
| Eol.                            (* $ under the m flag *)

Definition Plus (a : regex) : regex := Seq a (Star a).

Fixpoint Lit (s : list ascii) : regex :=
  match s with
  | [] => Eps
  | c :: s' => Seq (Chr c) (Lit s')
  end.

Fixpoint Seqs (rs : list regex) : regex :=
  match rs with
  | [] => Eps
  | r :: rs' => Seq r (Seqs rs')
  end.

(** Character comparison; [ic] is the [i] flag. *)
Definition pat_char_eqb (ic : bool) (p x : ascii) : bool :=
  if ic then chr_eqb (canon_char p) (canon_char x) else chr_eqb p x.

Definition kont (R : Type) : Type :=
  list ascii -> option (list ascii) -> option R.

Definition or_else {R} (a : option R) (b : option R) : option R :=
  match a with Some x => Some x | None => b end.

(** The loop of a greedy quantifier over a matcher [body] of its operand:
    one more iteration first, the continuation [k] when that fails.  An
    iteration that consumes nothing is given up, as the JavaScript matcher
    does; [n] is the fuel, the input length. *)
Fixpoint star_loop {R}
    (body : list ascii -> option (list ascii) -> kont R -> option R)
    (k : kont R) (n : nat) (s : list ascii) (cap : option (list ascii))
  : option R :=
  match n with
  | O => k s cap
  | S n' =>
      or_else
        (body s cap
           (fun s' cap' =>
              if (length s' <? length s)%nat
              then star_loop body k n' s' cap' else None))
        (k s cap)
  end.

(** The loop of a lazy quantifier: the continuation first. *)
Fixpoint lazy_loop {R}
    (body : list ascii -> option (list ascii) -> kont R -> option R)
    (k : kont R) (n : nat) (s : list ascii) (cap : option (list ascii))
  : option R :=
  match n with
  | O => k s cap
  | S n' =>
      or_else
        (k s cap)
        (body s cap
           (fun s' cap' =>
              if (length s' <? length s)%nat
              then lazy_loop body k n' s' cap' else None))
  end.

(** The backtracking matcher in continuation-passing style: [rmatch ic r s
    cap k] matches [r] at the head of [s] and hands the rest of the input
    and the capture to [k]; when [k] fails the next alternative of [r] is
    tried. *)
Fixpoint rmatch {R} (ic : bool) (r : regex) (s : list ascii)
    (cap : option (list ascii)) (k : kont R) {struct r} : option R :=
  match r with
  | Chr c =>
      match s with
      | x :: s' => if pat_char_eqb ic c x then k s' cap else None
      | [] => None
      end
  | Cls p =>
      match s with
      | x :: s' => if p x then k s' cap else None
      | [] => None
      end
  | Eps => k s cap
  | Seq a b => rmatch ic a s cap (fun s' cap' => rmatch ic b s' cap' k)
  | Opt a => or_else (rmatch ic a s cap k) (k s cap)
  | Star a => star_loop (rmatch ic a) k (length s) s cap
  | LazyStar a => lazy_loop (rmatch ic a) k (length s) s cap
  | Group a =>
      rmatch ic a s cap
        (fun s' _ => k s' (Some (take (length s - length s') s)))
  | Eol =>
      match s with
      | [] => k s cap
      | x :: _ => if is_line_terminator x then k s cap else None
      end
  end.

(** The matcher of an operand respects the continuation pointwise, and
    fails with the continuation that always fails. *)
Definition body_ext {R}
    (body : list ascii -> option (list ascii) -> kont R -> option R) : Prop :=
  forall s cap k k', (forall s' c', k s' c' = k' s' c') -> body s cap k = body s cap k'.

Definition body_fail {R}
    (body : list ascii -> option (list ascii) -> kont R -> option R) : Prop :=
  forall s cap, body s cap (fun _ _ => None) = None.

(** What the matcher explores, as a relation: [Matches ic r s cap s' cap']
    when [r] can match at the head of [s] and leave [s'], turning the
    capture [cap] into [cap'].  The matcher returns the first of these
    that its continuation accepts. *)
Inductive Matches (ic : bool)
  : regex -> list ascii -> option (list ascii)
    -> list ascii -> option (list ascii) -> Prop :=
| M_Chr c x s cap :
    pat_char_eqb ic c x = true -> Matches ic (Chr c) (x :: s) cap s cap
| M_Cls p x s cap :
    p x = true -> Matches ic (Cls p) (x :: s) cap s cap
| M_Eps s cap : Matches ic Eps s cap s cap
| M_Seq a b s cap s1 cap1 s2 cap2 :
    Matches ic a s cap s1 cap1 -> Matches ic b s1 cap1 s2 cap2 ->
    Matches ic (Seq a b) s cap s2 cap2
| M_Opt_some a s cap s1 cap1 :
    Matches ic a s cap s1 cap1 -> Matches ic (Opt a) s cap s1 cap1
| M_Opt_none a s cap : Matches ic (Opt a) s cap s cap
| M_Star_stop a s cap : Matches ic (Star a) s cap s cap
| M_Star_more a s cap s1 cap1 s2 cap2 :
    Matches ic a s cap s1 cap1 -> (length s1 < length s)%nat ->
    Matches ic (Star a) s1 cap1 s2 cap2 ->
    Matches ic (Star a) s cap s2 cap2
| M_Lazy_stop a s cap : Matches ic (LazyStar a) s cap s cap
| M_Lazy_more a s cap s1 cap1 s2 cap2 :
    Matches ic a s cap s1 cap1 -> (length s1 < length s)%nat ->
    Matches ic (LazyStar a) s1 cap1 s2 cap2 ->
    Matches ic (LazyStar a) s cap s2 cap2
| M_Group a s cap s1 cap1 :
    Matches ic a s cap s1 cap1 ->
    Matches ic (Group a) s cap s1 (Some (take (length s - length s1) s))
| M_Eol_end cap : Matches ic Eol [] cap [] cap
| M_Eol_line x s cap :
    is_line_terminator x = true -> Matches ic Eol (x :: s) cap (x :: s) cap.

(** A pattern text read at the head of [s], under the [i] flag or not. *)
Fixpoint lit_match (ic : bool) (l s : list ascii) : bool :=
  match l, s with
  | [], _ => true
  | _ :: _, [] => false
  | a :: l', b :: s' => pat_char_eqb ic a b && lit_match ic l' s'
  end.

(** The texts of [\d+(?:,\d+)*]: digits and commas, a digit first and
    last, no two commas in a row.  [after_digit] tells whether the
    character before was a digit. *)
Fixpoint number_from (after_digit : bool) (s : list ascii) : bool :=
  match s with
  | [] => after_digit
  | c :: s' =>
      if is_digit c then number_from true s'
      else if chr_eqb c "," then after_digit && number_from false s'
      else false
  end.

Definition is_number (s : list ascii) : bool := number_from false s.

(** Whether the text after a run of the class [p] ends the run. *)
Definition stops (p : ascii -> bool) (rest : list ascii) : bool :=
  match rest with
  | [] => true
  | c :: _ => negb (p c)
  end.

(** Whether the text after a number ends the number: no digit, and no
    comma with a digit behind it. *)
Definition ends_number (rest : list ascii) : bool :=
  match rest with
  | [] => true
  | c :: rest' =>
      negb (is_digit c)
      && negb (chr_eqb c "," && negb (stops is_digit rest'))
  end.

(** The result of [RegExp.prototype.exec]: index, matched text, capture 1. *)
Record MatchResult := mkMatch {
  m_index : nat;
  m_text : list ascii;
  m_group : option (list ascii)
}.

(** A match anchored at the head of [s]: the rest of the input and the
    capture. *)
Definition match_here (ic : bool) (r : regex) (s : list ascii)
  : option (list ascii * option (list ascii)) :=
  rmatch ic r s None (fun s' cap => Some (s', cap)).

(** The search of [exec]: every start position from [i] on, the last one
    being the end of the input. *)
Fixpoint search_from (ic : bool) (r : regex) (i : nat) (s : list ascii)
  : option MatchResult :=
  match match_here ic r s with
  | Some (s', cap) => Some (mkMatch i (take (length s - length s') s) cap)
  | None =>
      match s with
      | [] => None
      | _ :: s' => search_from ic r (S i) s'
      end
  end.

(** [String.prototype.match] with a non-global pattern. *)
Definition js_match (ic : bool) (r : regex) (s : list ascii)
  : option MatchResult := search_from ic r 0 s.

(** [String.prototype.replace] with a non-global pattern and a replacement
    text free of [$]: the first match is replaced, the rest is kept. *)
Definition js_replace (ic : bool) (r : regex) (repl s : list ascii)
  : list ascii :=
  match js_match ic r s with
  | None => s
  | Some m =>
      take (m_index m) s ++ repl ++ drop (m_index m + length (m_text m)) s
  end.

(** The pattern matches nowhere in [s]. *)
Definition no_match (ic : bool) (r : regex) (s : list ascii) : Prop :=
  forall a b, s = a ++ b -> match_here ic r b = None.

(** The first match of the pattern in [s] is the text [w], after [a] and
    before [rest]. *)
Definition first_match (ic : bool) (r : regex) (s a w rest : list ascii)
  : Prop :=
  s = a ++ w ++ rest
  /\ (exists cap, match_here ic r (w ++ rest) = Some (rest, cap))
  /\ forall a1 a2, a = a1 ++ a2 -> a2 <> [] ->
       match_here ic r (a2 ++ w ++ rest) = None.

Definition any_char (c : ascii) : bool := negb (is_line_terminator c).
Definition colon_or_space (c : ascii) : bool :=
  chr_eqb c ":" || is_space c.
Definition not_lt_sign (c : ascii) : bool := negb (chr_eqb c "<").

Definition re_digits : regex := Plus (Cls is_digit).            (* \d+ *)
Definition re_number : regex :=                          (* \d+(?:,\d+)* *)
  Seq re_digits (Star (Seq (Chr ",") re_digits)).
Definition re_spaces1 : regex := Plus (Cls is_space).           (* \s+ *)
Definition re_spaces0 : regex := Star (Cls is_space).           (* \s* *)

(** ** Numbers *)

Inductive jsnum : Type :=
| NaN
| Num (z : Z).

(** Decimal digits of a natural number, most significant first. *)
Definition show_N (n : N) : list ascii :=
  lit (NilZero.string_of_uint (N.to_uint n)).

Definition show_Z (z : Z) : list ascii :=
  if z <? 0 then lit "-" ++ show_N (Z.abs_N z) else show_N (Z.abs_N z).

(** [String(x)] of a number, as a template literal prints it: the decimal
    digits of an integer (below 10^21, from where a double prints with an
    exponent). *)
Definition js_to_string (x : jsnum) : list ascii :=
  match x with
  | NaN => lit "NaN"
  | Num z => show_Z z
  end.

(** [Math.floor(x / d)] for an integer [x] and a positive constant [d],
    and [x * d]: exact on doubles below 2^53. *)
Definition js_floor_div (x : jsnum) (d : Z) : jsnum :=
  match x with
  | NaN => NaN
  | Num z => Num (z / d)
  end.

Definition js_mul (x : jsnum) (d : Z) : jsnum :=
  match x with
  | NaN => NaN
  | Num z => Num (z * d)
  end.

(** ** sync-changelog.js: rendering *)

Record Release := mkRelease {
  tag_name : list ascii;
  published_at : list ascii;
  body : option (list ascii);
  prerelease : bool
}.

(** [/BREAKING CHANGE[:\s]*(.*?)$/im] *)
Definition re_breaking : regex :=
  Seqs [ Lit (lit "BREAKING CHANGE");
         Star (Cls colon_or_space);
         Group (LazyStar (Cls any_char));
         Eol ].

Definition generic_breaking_sentence : list ascii :=
  lit "This release contains breaking changes.".

(** [breakingMatch ? breakingMatch[1].trim() : '...'] *)
Definition breaking_description (body : option (list ascii)) : list ascii :=
  match body with
  | None => generic_breaking_sentence
  | Some b =>
      match js_match true re_breaking b with
      | Some m => trim (default [] (m_group m))
      | None => generic_breaking_sentence
      end
  end.

(** [Array.prototype.slice(0, n)]. *)
Definition slice0 {A} (n : nat) (l : list A) : list A := take n l.

(** One [if (xs.length > 0) { ... }] block of [generateUpdateComponent]:
    the heading, the first eight items, a blank line. *)
Definition emit_section (heading : list ascii) (items : list (list ascii))
    (content : list ascii) : list ascii :=
  if (0 <? length items)%nat then
    let content := content ++ lit "## " ++ heading ++ [NL] in
    let content :=
      fold_left (fun c item => c ++ lit "- " ++ item ++ [NL])
                (slice0 8 items) content in
    content ++ [NL]
  else content.

(** The text of a section that shows the items [shown]: nothing when there
    is no item, else the heading line, one line per item, a blank line. *)
Definition section_text (heading : list ascii) (shown : list (list ascii))
  : list ascii :=
  match shown with
  | [] => []
  | _ =>
      lit "## " ++ heading ++ [NL]
        ++ concat (map (fun item => lit "- " ++ item ++ [NL]) shown) ++ [NL]
  end.

Definition emit_warning (r : Release) (is_breaking : bool)
    (content : list ascii) : list ascii :=
  if is_breaking then
    content ++ lit "<Warning>" ++ [NL] ++ breaking_description (body r)
            ++ [NL] ++ lit "</Warning>" ++ [NL] ++ [NL]
  else content.

(** What a fetch ([fetchGitHubReleases], [fetchGitHubReadme]) resolves or
    rejects with. *)
Inductive fetched (A : Type) : Type :=
| Fetched (x : A)
| FetchFailed (message : list ascii).
Arguments Fetched {A} x.
Arguments FetchFailed {A} message.

Section Platform.

(** The [Date] built-ins, which depend on the time zone and the locale data
    of the platform: the time value of [new Date(s)] in milliseconds (the
    release timestamps are valid dates), the local calendar year of a time
    value, and its [en-US] long date. *)
Variable date_value : list ascii -> Z.
Variable getFullYear : Z -> Z.
Variable toLocaleDateString : Z -> list ascii.

Definition formatDate (dateString : list ascii) : list ascii :=
  toLocaleDateString (date_value dateString).

Definition generateUpdateComponent (release : Release) : list ascii :=
  let p := parseReleaseBody (body release) in
  let date := formatDate (published_at release) in
  let content :=
    lit "<Update label=" ++ [DQ] ++ tag_name release ++ [DQ]
        ++ lit " description=" ++ [DQ] ++ lit "Released " ++ date ++ [DQ]
        ++ lit ">" ++ [NL] in
  let content := emit_warning release (breaking p) content in
  let content := emit_section (lit "New Features") (features p) content in
  let content := emit_section (lit "Improvements") (improvements p) content in
  let content := emit_section (lit "Bug Fixes") (fixes p) content in
  content ++ lit "</Update>" ++ [NL].

Definition KW : list ascii := lit "BREAKING CHANGE".
Definition kw_lower : list ascii := lit "breaking change".

(** The text after the first place where [marker] is read in [line],
    letter case ignored. *)
Fixpoint after_marker (marker line : list ascii) : option (list ascii) :=
  if lit_match true marker line then Some (drop (length marker) line)
  else match line with
       | [] => None
       | _ :: line' => after_marker marker line'
       end.

(** Whether the pattern text [marker] is read, under the [i] flag, at one
    of the positions of [s] in the text [s ++ tail]. *)
Fixpoint read_in (marker s tail : list ascii) : bool :=
  match s with
  | [] => false
  | c :: s' =>
      lit_match true marker ((c :: s') ++ tail) || read_in marker s' tail
  end.

Fixpoint first_some {A B} (f : A -> option B) (l : list A) : option B :=
  match l with
  | [] => None
  | x :: l' => match f x with Some y => Some y | None => first_some f l' end
  end.

(** The description as the specification words it: the remainder of the
    first line with a "BREAKING CHANGE:" marker, trimmed; the generic
    sentence when no line has the marker. *)
Definition described_breaking_description (body : list ascii) : list ascii :=
  match first_some (after_marker (lit "BREAKING CHANGE:")) (split_on NL body) with
  | Some remainder => trim remainder
  | None => generic_breaking_sentence
  end.

(** The opening tag of an update block and its warning, when flagged. *)
Definition update_head (r : Release) : list ascii :=
  emit_warning r (breaking (parseReleaseBody (body r)))
    (lit "<Update label=" ++ [DQ] ++ tag_name r ++ [DQ]
       ++ lit " description=" ++ [DQ] ++ lit "Released "
       ++ formatDate (published_at r) ++ [DQ] ++ lit ">" ++ [NL]).

Definition release_year (r : Release) : Z :=
  getFullYear (date_value (published_at r)).

(** The [releases.forEach] that fills [releasesByYear]. *)
Definition group_step (m : gmap Z (list Release)) (r : Release)
  : gmap Z (list Release) :=
  let year := release_year r in
  let m := match m !! year with
           | None => <[year := []]> m
           | Some _ => m
           end in
  <[year := default [] (m !! year) ++ [r]]> m.

Definition group_by_year (releases : list Release) : gmap Z (list Release) :=
  fold_left group_step releases ∅.

(** [Array.prototype.sort] with a comparator: a stable sort, here by
    insertion.  [cmp a b > 0] puts [a] after [b]. *)
Fixpoint sort_insert {A} (cmp : A -> A -> Z) (x : A) (l : list A) : list A :=
  match l with
  | [] => [x]
  | y :: l' => if 0 <? cmp x y then y :: sort_insert cmp x l' else x :: l
  end.

Definition js_sort {A} (cmp : A -> A -> Z) (l : list A) : list A :=
  fold_right (sort_insert cmp) [] l.

(** [Object.keys]: the keys of [releasesByYear] are years, which an object
    lists in ascending numeric order. *)
Definition object_keys (m : gmap Z (list Release)) : list Z :=
  merge_sort Z.le (map fst (map_to_list m)).

(** [Object.keys(releasesByYear).sort((a, b) => b - a)] *)
Definition sorted_years (m : gmap Z (list Release)) : list Z :=
  js_sort (fun a b => b - a) (object_keys m).

(** [releasesByYear[year].sort((a, b) => new Date(b.published_at) - new
    Date(a.published_at))] *)
Definition year_releases (m : gmap Z (list Release)) (year : Z)
  : list Release :=
  js_sort (fun a b => date_value (published_at b) - date_value (published_at a))
          (default [] (m !! year)).

(** What one turn of [years.forEach] appends to [content]. *)
Definition year_section (m : gmap Z (list Release)) (year : Z) : list ascii :=
  let content := lit "## " ++ show_Z year ++ [NL] ++ [NL] in
  fold_left (fun c release => c ++ generateUpdateComponent release ++ [NL])
            (year_releases m year) content.

(** The fixed front matter and introduction of the changelog page. *)
Definition frontMatter : list ascii :=
  concat
    [ lit "---" ++ [NL];
      lit "title: " ++ [DQ] ++ lit "Changelog" ++ [DQ] ++ [NL];
      lit "description: " ++ [DQ] ++ lit "Track the latest updates, improvements, and changes to the Country State City ecosystem including API, database, and tools." ++ [DQ] ++ [NL];
      lit "icon: " ++ [DQ] ++ lit "clock" ++ [DQ] ++ [NL];
      lit "---" ++ [NL];
      [NL];
      lit "# Changelog" ++ [NL];
      [NL];
      lit "Stay up-to-date with the latest improvements, new features, and changes across the Country State City ecosystem." ++ [NL];
      [NL];
      lit "<Info>" ++ [NL];
      lit "This changelog is automatically synced from [GitHub releases](https://github.com/dr5hn/countries-states-cities-database/releases). For detailed technical information, visit the repository." ++ [NL];
      lit "</Info>" ++ [NL];
      [NL] ].

(** The fixed footer sections of the changelog page. *)
Definition footer : list ascii :=
  concat
    [ lit "## Release Information" ++ [NL];
      [NL];
      lit "<Tip>" ++ [NL];
      lit "Our releases follow semantic versioning (SemVer) with the following format:" ++ [NL];
      lit "- **Major.Minor.Patch** (e.g., 3.0.0)" ++ [NL];
      lit "- **Major**: Breaking changes requiring migration" ++ [NL];
      lit "- **Minor**: New features with backward compatibility  " ++ [NL];
      lit "- **Patch**: Bug fixes and minor improvements" ++ [NL];
      lit "</Tip>" ++ [NL];
      [NL];
      lit "## Stay Updated" ++ [NL];
      [NL];
      lit "<CardGroup cols={2}>" ++ [NL];
      lit "<Card title=" ++ [DQ] ++ lit "GitHub Releases" ++ [DQ] ++ lit " icon=" ++ [DQ] ++ lit "github" ++ [DQ] ++ lit " href=" ++ [DQ] ++ lit "https://github.com/dr5hn/countries-states-cities-database/releases" ++ [DQ] ++ lit ">" ++ [NL];
      lit "  Get notified about new releases and download assets directly from GitHub." ++ [NL];
      lit "</Card>" ++ [NL];
      [NL];
      lit "<Card title=" ++ [DQ] ++ lit "API Portal" ++ [DQ] ++ lit " icon=" ++ [DQ] ++ lit "globe" ++ [DQ] ++ lit " href=" ++ [DQ] ++ lit "https://countrystatecity.in" ++ [DQ] ++ lit ">" ++ [NL];
      lit "  Access the API and get your developer key for integration." ++ [NL];
      lit "</Card>" ++ [NL];
      lit "</CardGroup>" ++ [NL];
      [NL];
      lit "## Contributing to Updates" ++ [NL];
      [NL];
      lit "We welcome community contributions to keep our geographical data accurate and up-to-date." ++ [NL];
      [NL];
      lit "<Steps>" ++ [NL];
      lit "<Step title=" ++ [DQ] ++ lit "Identify Changes" ++ [DQ] ++ lit ">" ++ [NL];
      lit "  Notice outdated or incorrect geographical information? Check our data against official government sources." ++ [NL];
      lit "</Step>" ++ [NL];
      [NL];
      lit "<Step title=" ++ [DQ] ++ lit "Use Update Tool" ++ [DQ] ++ lit ">" ++ [NL];
      lit "  Submit changes through our [Update Tool](/tools/update-tool) with proper documentation and sources." ++ [NL];
      lit "</Step>" ++ [NL];
      [NL];
      lit "<Step title=" ++ [DQ] ++ lit "Review Process" ++ [DQ] ++ lit ">" ++ [NL];
      lit "  Our team reviews all submissions for accuracy and integrates approved changes into the next release." ++ [NL];
      lit "</Step>" ++ [NL];
      lit "</Steps>" ++ [NL];
      [NL];
      lit "<Info>" ++ [NL];
      lit "All major data updates are tested extensively before release to ensure accuracy and maintain API compatibility." ++ [NL];
      lit "</Info>" ++ [NL] ].

Definition generateChangelogContent (releases : list Release) : list ascii :=
  let content := frontMatter in
  let releasesByYear := group_by_year releases in
  let years := sorted_years releasesByYear in
  let content :=
    fold_left (fun c year => c ++ year_section releasesByYear year)
              years content in
  content ++ footer.

(** ** sync-changelog.js: the driver *)

Definition CHANGELOG_PATH : string := "changelog.mdx".

Definition BACKUP_PATH : string := (CHANGELOG_PATH +:+ ".backup")%string.

(** [syncChangelog]: the file system after the run and the exit code. *)
Definition syncChangelog (response : fetched (list Release))
    (fs : gmap string (list ascii)) : gmap string (list ascii) * Z :=
  match response with
  | FetchFailed _ => (fs, 1)
  | Fetched releases =>
      let fs :=
        match fs !! CHANGELOG_PATH with
        | Some old => <[(CHANGELOG_PATH +:+ ".backup")%string := old]> fs
        | None => fs
        end in
      let changelogContent := generateChangelogContent releases in
      (<[CHANGELOG_PATH := changelogContent]> fs, 0)
  end.

End Platform.

(** ** update-database-stats.js: [parseStatistics] *)

Record StatRecord := mkStats {
  regions : option jsnum;
  subregions : option jsnum;
  countries : option jsnum;
  states : option jsnum;
  cities : option jsnum
}.

Definition opt_s : regex := Opt (Chr "s").

(** [\s*:\s*(N)], the common tail of the five patterns; [N] stands for
    the number [\d+(?:,\d+)*] in the comments below. *)
Definition re_value_tail : regex :=
  Seqs [ re_spaces0; Chr ":"; re_spaces0; Group re_number ].

(** [/Total\s+Regions?\s*:\s*(N)/i] *)
Definition pat_regions : regex :=
  Seqs [ Lit (lit "Total"); re_spaces1; Lit (lit "Region"); opt_s;
         re_value_tail ].

(** [/Total\s+Sub\s+Regions?\s*:\s*(N)/i] *)
Definition pat_subregions : regex :=
  Seqs [ Lit (lit "Total"); re_spaces1; Lit (lit "Sub"); re_spaces1;
         Lit (lit "Region"); opt_s; re_value_tail ].

(** [/Total\s+Countries?\s*:\s*(N)/i] *)
Definition pat_countries : regex :=
  Seqs [ Lit (lit "Total"); re_spaces1; Lit (lit "Countrie"); opt_s;
         re_value_tail ].

(** [/Total\s+States?(?:\/Regions?\/Municipalities?)?\s*:\s*(N)/i] *)
Definition pat_states : regex :=
  Seqs [ Lit (lit "Total"); re_spaces1; Lit (lit "State"); opt_s;
         Opt (Seqs [ Chr "/"; Lit (lit "Region"); opt_s; Chr "/";
                     Lit (lit "Municipalitie"); opt_s ]);
         re_value_tail ].

(** [/Total\s+Cities?(?:\/Towns?\/Districts?)?\s*:\s*(N)/i] *)
Definition pat_cities : regex :=
  Seqs [ Lit (lit "Total"); re_spaces1; Lit (lit "Citie"); opt_s;
         Opt (Seqs [ Chr "/"; Lit (lit "Town"); opt_s; Chr "/";
                     Lit (lit "District"); opt_s ]);
         re_value_tail ].

(** The record [parseStatistics] starts from: every field [null]. *)
Definition no_stats : StatRecord := mkStats None None None None None.

(** [s.replace(/,/g, '')] *)
Definition remove_commas (s : list ascii) : list ascii :=
  filter (fun c => chr_eqb c "," = false) s.

(** The value of a digit in a radix, when it is one. *)
Definition digit_value (radix : Z) (c : ascii) : option Z :=
  let v :=
    if is_digit c then Z.of_N (code c) - 48
    else if in_range 97 122 c then Z.of_N (code c) - 87
    else if in_range 65 90 c then Z.of_N (code c) - 55
    else radix in
  if v <? radix then Some v else None.

Fixpoint radix_digits (radix : Z) (s : list ascii) : list Z :=
  match s with
  | [] => []
  | c :: s' =>
      match digit_value radix c with
      | Some v => v :: radix_digits radix s'
      | None => []
      end
  end.

(** [parseInt(s)] without a radix argument: leading white space, a sign, a
    [0x] prefix, then the longest run of digits; [NaN] when that is empty.
    The value is the integer that the digits denote, which is what the
    double of the program holds when it is below 2^53. *)
Definition parseInt (s : list ascii) : jsnum :=
  let s := trim_start s in
  let '(sign, s) :=
    match s with
    | c :: s' =>
        if chr_eqb c "-" then (-1, s')
        else if chr_eqb c "+" then (1, s') else (1, s)
    | [] => (1, s)
    end in
  let '(radix, s) :=
    if starts_with (lit "0x") s || starts_with (lit "0X") s
    then (16, drop 2 s) else (10, s) in
  match radix_digits radix s with
  | [] => NaN
  | ds => Num (sign * fold_left (fun acc d => acc * radix + d) ds 0)
  end.

(** [if (m) stats.x = parseInt(m[1].replace(/,/g, ''))] *)
Definition stat_of (pat : regex) (readmeContent : list ascii) : option jsnum :=
  match js_match true pat readmeContent with
  | Some m => Some (parseInt (remove_commas (default [] (m_group m))))
  | None => None
  end.

Definition parseStatistics (readmeContent : list ascii) : StatRecord :=
  mkStats (stat_of pat_regions readmeContent)
          (stat_of pat_subregions readmeContent)
          (stat_of pat_countries readmeContent)
          (stat_of pat_states readmeContent)
          (stat_of pat_cities readmeContent).

(** A pattern whose every match captures a number text. *)
Definition captures_number (pat : regex) : Prop :=
  forall s rest cap, match_here true pat s = Some (rest, cap) ->
                     exists num, cap = Some num /\ is_number num = true.

(** A statistics line of the README: [Total <label> : <number>]. *)
Definition stat_line (label num : list ascii) : list ascii :=
  lit "Total " ++ label ++ lit " : " ++ num.

(** The integer a number text with optional separators denotes. *)
Definition number_value (num : list ascii) : Z :=
  fold_left (fun acc c => if is_digit c then acc * 10 + (Z.of_N (code c) - 48)
                          else acc) num 0.

(** The pattern does not match at any of the first [n] positions of [s]. *)
Fixpoint no_match_before (ic : bool) (r : regex) (n : nat) (s : list ascii)
  : bool :=
  match n with
  | O => true
  | S n' =>
      match match_here ic r s with
      | Some _ => false
      | None =>
          match s with
          | [] => true
          | _ :: s' => no_match_before ic r n' s'
          end
      end
  end.

(** What the README holds for one label: either its line, as the first
    match of the label's pattern, the number ending where the text [post]
    begins and being one that a double holds exactly (below 2^53, so that
    [parseInt] returns it as it is written); or no match of the pattern at
    all. *)
Definition line_found (pat : regex) (label readme : list ascii)
    (found : option (list ascii * list ascii * list ascii)) : Prop :=
  match found with
  | Some (pre, num, post) =>
      readme = pre ++ stat_line label num ++ post
      /\ is_number num = true
      /\ number_value num < 2 ^ 53
      /\ ends_number post = true
      /\ no_match_before true pat (length pre) readme = true
  | None => js_match true pat readme = None
  end.

Definition found_value
    (found : option (list ascii * list ascii * list ascii)) : option jsnum :=
  match found with
  | Some (_, num, _) => Some (Num (number_value num))
  | None => None
  end.

(** ** update-database-stats.js: [updateOverviewFile] *)

(** Grouping of a digit string by threes: a separator follows a digit when
    the digits still to come are a positive multiple of three. *)
Fixpoint group3 (ds : list ascii) : list ascii :=
  match ds with
  | [] => []
  | d :: ds' =>
      if ((length ds' mod 3 =? 0) && (0 <? length ds'))%nat
      then d :: ","%char :: group3 ds'
      else d :: group3 ds'
  end.

(** [Number.prototype.toLocaleString], called by [formatNumber] without a
    locale: the text is the one of the locale of the process that runs the
    script, which the script does not set. *)
Class NumberFormat := { toLocaleString : jsnum -> list ascii }.

(** [formatNumber]: [return num.toLocaleString();] *)
Definition formatNumber {L : NumberFormat} (num : jsnum) : list ascii :=
  toLocaleString num.

(** What [toLocaleString] prints in the [en-US] locale: the digits in
    groups of three with commas. *)
Definition en_US_number (num : jsnum) : list ascii :=
  match num with
  | NaN => lit "NaN"
  | Num z =>
      if z <? 0 then lit "-" ++ group3 (show_N (Z.abs_N z))
      else group3 (show_N (Z.abs_N z))
  end.

Definition en_US : NumberFormat := {| toLocaleString := en_US_number |}.

(** What it prints in the [de-DE] locale: the groups with full stops. *)
Definition de_DE_number (num : jsnum) : list ascii :=
  map (fun c => if chr_eqb c "," then "."%char else c) (en_US_number num).

Definition de_DE : NumberFormat := {| toLocaleString := de_DE_number |}.

Inductive Month : Type :=
| January | February | March | April | May | June
| July | August | September | October | November | December.

Definition month_name (m : Month) : list ascii :=
  match m with
  | January => lit "January" | February => lit "February"
  | March => lit "March" | April => lit "April" | May => lit "May"
  | June => lit "June" | July => lit "July" | August => lit "August"
  | September => lit "September" | October => lit "October"
  | November => lit "November" | December => lit "December"
  end.

(** What [new Date()] shows of the clock: [getDate()], the month and
    [getFullYear()]. *)
Record Today := mkToday {
  today_day : N;
  today_month : Month;
  today_year : N
}.

Definition getCurrentDate (now : Today) : list ascii :=
  let day := today_day now in
  let suffix :=
    nth (N.to_nat (if (3 <? day mod 10)%N || (day / 10 =? 1)%N
                   then 0%N else (day mod 10)%N))
        [lit "th"; lit "st"; lit "nd"; lit "rd"] [] in
  show_N day ++ suffix ++ lit " " ++ month_name (today_month now)
         ++ lit " " ++ show_N (today_year now).

(** The opening tag of the statistic of a colour. *)
Definition anchor_open (colour : list ascii) : list ascii :=
  lit "<div className=" ++ [DQ] ++ lit "text-2xl font-bold text-" ++ colour
      ++ lit "-600" ++ [DQ] ++ lit ">".

(** [/<div className="text-2xl font-bold text-C-600">\d+(?:,\d+)*<\/div>/] *)
Definition re_anchor (colour : list ascii) : regex :=
  Seqs [ Lit (anchor_open colour); re_number; Lit (lit "</div>") ].

Section Locale.
Context {L : NumberFormat}.

Definition anchor_text (colour : list ascii) (num : jsnum) : list ascii :=
  anchor_open colour ++ formatNumber num ++ lit "</div>".

(** One [if (stats.x !== null) { content = content.replace(...); updated =
    true; }] block. *)
Definition update_stat (colour : list ascii) (v : option jsnum)
    (st : list ascii * bool) : list ascii * bool :=
  match v with
  | Some num =>
      (js_replace false (re_anchor colour) (anchor_text colour num) st.1, true)
  | None => st
  end.

(** [/Last Updated: [^<]+/] *)
Definition re_last_updated : regex :=
  Seq (Lit (lit "Last Updated: ")) (Plus (Cls not_lt_sign)).

Definition desc_head : list ascii :=
  lit "description: " ++ [DQ] ++ lit "Complete geographical database with ".
Definition desc_tail : list ascii :=
  lit " cities in multiple formats" ++ [DQ].

(** [/description: "Complete geographical database with \d+\+ countries,
    \d+\+ states, and \d+\+ cities in multiple formats"/] *)
Definition re_description : regex :=
  Seqs [ Lit desc_head; re_digits; Lit (lit "+ countries, ");
         re_digits; Lit (lit "+ states, and ");
         re_digits; Lit (lit "+" ++ desc_tail) ].

Definition description_text (c s t : jsnum) : list ascii :=
  let countriesK := js_mul (js_floor_div c 50) 50 in
  let statesK := js_mul (js_floor_div s 500) 500 in
  let citiesK := js_mul (js_floor_div t 1000) 1000 in
  desc_head ++ js_to_string countriesK ++ lit "+ countries, "
    ++ js_to_string (js_floor_div statesK 1000) ++ lit "k+ states, and "
    ++ js_to_string (js_floor_div citiesK 1000) ++ lit "k+" ++ desc_tail.

Definition update_description (stats : StatRecord) (content : list ascii)
  : list ascii :=
  match countries stats, states stats, cities stats with
  | Some c, Some s, Some t =>
      js_replace false re_description (description_text c s t) content
  | _, _, _ => content
  end.

(** The texts the pattern of a colour matches: the opening tag, a number,
    the closing tag. *)
Definition is_anchor_text (colour w : list ascii) : Prop :=
  exists n, w = anchor_open colour ++ n ++ lit "</div>" /\ is_number n = true.

(** The five colours of the statistics. *)
Definition is_colour (c : list ascii) : Prop :=
  c = lit "blue" \/ c = lit "green" \/ c = lit "purple" \/ c = lit "orange"
  \/ c = lit "red".

Definition LAST_UPDATED : list ascii := lit "Last Updated: ".

(** The texts the description pattern matches. *)
Definition is_description_line (w : list ascii) : Prop :=
  exists d1 d2 d3,
    w = desc_head ++ d1 ++ lit "+ countries, " ++ d2 ++ lit "+ states, and "
          ++ d3 ++ lit "+" ++ desc_tail
    /\ forallb is_digit d1 = true /\ d1 <> []
    /\ forallb is_digit d2 = true /\ d2 <> []
    /\ forallb is_digit d3 = true /\ d3 <> [].

(** How the texts that the rewriter puts in or takes out begin: an anchor
    with "<d", the date line with "L", the description with its head. *)
Definition block_start (z : list ascii) : bool :=
  starts_with (lit "<d") z || starts_with (lit "L") z
  || starts_with desc_head z.

(** Neither "L" nor "h": the letters that no anchor text holds. *)
Definition no_Lh (c : ascii) : bool :=
  negb (chr_eqb c "L") && negb (chr_eqb c "h").

(** Neither "<" nor "L". *)
Definition no_lt_L (c : ascii) : bool :=
  negb (chr_eqb c "<") && negb (chr_eqb c "L").

(** Neither "<" nor a double quote. *)
Definition no_lt_DQ (c : ascii) : bool :=
  negb (chr_eqb c "<") && negb (chr_eqb c DQ).

(** Whether the date pattern matches at the head of [z]: the label, then a
    character that is not "<". *)
Definition date_starts (z : list ascii) : bool :=
  starts_with LAST_UPDATED z && negb (stops not_lt_sign (drop 14 z)).

(** Whether a text holds a "<". *)
Definition has_lt (s : list ascii) : bool := negb (forallb not_lt_sign s).

(** Whether a match of the date pattern that begins in [s] also ends in
    [s], when [s] is followed by a text that does not begin with "<".  The
    first label "Last Updated: " with a character other than "<" behind it
    decides: it needs a "<" behind it in [s].  A label right before a "<"
    is not matched; a label that ends [s] would be matched together with
    what follows [s]. *)
Fixpoint date_closed (s : list ascii) : bool :=
  match s with
  | [] => true
  | c :: s' =>
      if starts_with LAST_UPDATED (c :: s')
      then match drop 14 (c :: s') with
           | [] => false
           | x :: _ =>
               if not_lt_sign x then has_lt (drop 14 (c :: s'))
               else date_closed s'
           end
      else date_closed s'
  end.

(** A statistic that the locale of the process prints as a number text of
    the anchor patterns, [\d+(?:,\d+)*]: as [en-US] prints every
    non-negative integer. *)
Definition prints_number (v : option jsnum) : Prop :=
  match v with
  | None => True
  | Some num => is_number (formatNumber num) = true
  end.

Definition prints_numbers (stats : StatRecord) : Prop :=
  prints_number (regions stats) /\ prints_number (subregions stats)
  /\ prints_number (countries stats) /\ prints_number (states stats)
  /\ prints_number (cities stats).

(** A statistic of the data model: unset, or a non-negative integer. *)
Definition stat_ok (v : option jsnum) : Prop :=
  match v with
  | None => True
  | Some NaN => False
  | Some (Num z) => 0 <= z
  end.

Definition set_b {A} (v : option A) : bool :=
  match v with Some _ => true | None => false end.

(** The steps of [updateOverviewFile] on the text alone. *)
Definition anchor_step (colour : list ascii) (v : option jsnum)
    (s : list ascii) : list ascii :=
  match v with
  | Some num => js_replace false (re_anchor colour) (anchor_text colour num) s
  | None => s
  end.

Definition anchors_step (stats : StatRecord) (s : list ascii) : list ascii :=
  anchor_step (lit "red") (cities stats)
    (anchor_step (lit "orange") (states stats)
       (anchor_step (lit "purple") (countries stats)
          (anchor_step (lit "green") (subregions stats)
             (anchor_step (lit "blue") (regions stats) s)))).

Definition date_step (now : Today) (s : list ascii) : list ascii :=
  js_replace false re_last_updated (LAST_UPDATED ++ getCurrentDate now) s.

Definition any_stat (stats : StatRecord) : bool :=
  set_b (regions stats) || set_b (subregions stats)
  || set_b (countries stats) || set_b (states stats)
  || set_b (cities stats).

(** The body of [updateOverviewFile] between the read and the write: the
    new text and the [updated] flag.  When the flag is false nothing is
    written and the text is the one that was read. *)
Definition rewriteOverview (stats : StatRecord) (now : Today)
    (content : list ascii) : list ascii * bool :=
  let st := (content, false) in
  let st := update_stat (lit "blue") (regions stats) st in
  let st := update_stat (lit "green") (subregions stats) st in
  let st := update_stat (lit "purple") (countries stats) st in
  let st := update_stat (lit "orange") (states stats) st in
  let st := update_stat (lit "red") (cities stats) st in
  if st.2 then
    let currentDate := getCurrentDate now in
    let content :=
      js_replace false re_last_updated (lit "Last Updated: " ++ currentDate)
                 st.1 in
    (update_description stats content, true)
  else (st.1, false).

Definition OVERVIEW_FILE : string := "database/overview.mdx".

(** [updateOverviewFile]: [None] when the read throws; else the file system
    after the call and the [updated] flag. *)
Definition updateOverviewFile (stats : StatRecord) (now : Today)
    (fs : gmap string (list ascii))
  : option (gmap string (list ascii) * bool) :=
  match fs !! OVERVIEW_FILE with
  | None => None
  | Some content =>
      let '(content', updated) := rewriteOverview stats now content in
      if updated then Some (<[OVERVIEW_FILE := content']> fs, true)
      else Some (fs, false)
  end.

(** [Object.values(stats).filter(v => v !== null).length] *)
Definition foundStats (stats : StatRecord) : nat :=
  length (filter (fun v : option jsnum => v <> None)
                 [regions stats; subregions stats; countries stats;
                  states stats; cities stats]).

(** [main] of update-database-stats.js: the file system after the run and
    the exit code. *)
Definition main (response : fetched (list ascii)) (now : Today)
    (fs : gmap string (list ascii)) : gmap string (list ascii) * Z :=
  match response with
  | FetchFailed _ => (fs, 1)
  | Fetched readmeContent =>
      let stats := parseStatistics readmeContent in
      if (foundStats stats =? 0)%nat then (fs, 0)
      else
        match updateOverviewFile stats now fs with
        | None => (fs, 1)
        | Some (fs', _) => (fs', 0)
        end
  end.

End Locale.

(** ** Sample inputs *)

(** The release body of the specification's example. *)
Definition example_body : list ascii :=
  lit "* Added new endpoint" ++ [NL] ++ lit "* Fixed null pointer bug" ++ [NL]
    ++ lit "* @bob made their first contribution in #42".

Definition stats_readme_regions : list ascii := lit "Total Regions : 6 <br>".
Definition overview_before : list ascii :=
  anchor_open (lit "blue") ++ lit "5</div>".
Definition overview_after : list ascii :=
  anchor_open (lit "blue") ++ lit "6</div>".

Definition breaking_body_two_lines : list ascii :=
  lit "BREAKING CHANGE:" ++ [NL] ++ lit "schema changed".

Definition breaking_body_marker_line : list ascii :=
  lit "Release notes" ++ [NL] ++ lit "breaking change:  schema changed  "
    ++ [NL] ++ lit "* Added new endpoint".

(** An overview page with the description line, the five anchors and the
    date line. *)
Definition description_line (c s t : list ascii) : list ascii :=
  desc_head ++ c ++ lit "+ countries, " ++ s ++ lit "+ states, and "
    ++ t ++ lit "+" ++ desc_tail.

Definition page_front : list ascii := lit "---" ++ [NL].

Definition page_description : list ascii :=
  description_line (lit "250") (lit "5000") (lit "150000").

Definition page_body : list ascii :=
  [NL] ++ lit "---" ++ [NL]
    ++ anchor_open (lit "blue") ++ lit "6</div>" ++ [NL]
    ++ anchor_open (lit "green") ++ lit "22</div>" ++ [NL]
    ++ anchor_open (lit "purple") ++ lit "250</div>" ++ [NL]
    ++ anchor_open (lit "orange") ++ lit "5,038</div>" ++ [NL]
    ++ anchor_open (lit "red") ++ lit "151,024</div>" ++ [NL]
    ++ lit "<p>Last Updated: 1st May 2020</p>" ++ [NL].

Definition overview_page : list ascii :=
  page_front ++ page_description ++ page_body.

(** The same page quoting its description line once more in the body. *)
Definition overview_two_descriptions : list ascii :=
  overview_page ++ page_description ++ [NL].

(** A page whose front matter holds the words of the date line, in its
    title, before the description line. *)
Definition overview_date_first : list ascii :=
  lit "---" ++ [NL]
    ++ lit "title: Last Updated: 1st May 2020" ++ [NL]
    ++ page_description ++ [NL]
    ++ lit "---" ++ [NL]
    ++ anchor_open (lit "blue") ++ lit "6</div>" ++ [NL].

Definition stats_insights : StatRecord :=
  mkStats (Some (Num 6)) (Some (Num 22)) (Some (Num 250)) (Some (Num 5099))
          (Some (Num 151300)).

Definition stats_regions_only : StatRecord :=
  mkStats (Some (Num 7)) None None None None.

Definition stats_states_only : StatRecord :=
  mkStats None None None (Some (Num 5099)) None.

(** A page with two anchors of the states. *)
Definition overview_two_orange : list ascii :=
  anchor_open (lit "orange") ++ lit "5,038</div>" ++ [NL]
    ++ anchor_open (lit "orange") ++ lit "7</div>" ++ [NL].

(** The beginning of a page that shows its date above the description. *)
Definition page_front_dated : list ascii :=
  lit "<p>Last Updated: 1st May 2020</p>" ++ [NL].

Definition stats_no_states : StatRecord :=
  mkStats (Some (Num 6)) (Some (Num 22)) (Some (Num 250)) None
          (Some (Num 151300)).

(** The statistics lines of the README, as the comment of [parseStatistics]
    quotes them. *)
Definition readme_insights : list ascii :=
  lit "Total Regions : 6 <br>" ++ [NL]
    ++ lit "Total Sub Regions : 22 <br>" ++ [NL]
    ++ lit "Total Countries : 250 <br>" ++ [NL]
    ++ lit "Total States/Regions/Municipalities : 5,038 <br>" ++ [NL]
    ++ lit "Total Cities/Towns/Districts : 151,024 <br>" ++ [NL].

(** The same lines below a sentence that the pattern of the regions
    matches as well. *)
Definition readme_two_regions : list ascii :=
  lit "Of the total regions: 9 are continents or parts of them." ++ [NL]
    ++ readme_insights.

(** The same without the line of the states. *)
Definition readme_no_states : list ascii :=
  lit "Total Regions : 6 <br>" ++ [NL]
    ++ lit "Total Sub Regions : 22 <br>" ++ [NL]
    ++ lit "Total Countries : 250 <br>" ++ [NL]
    ++ lit "Total Cities/Towns/Districts : 151,024 <br>" ++ [NL].

(** ** Notions used to state further properties *)

Definition CR : ascii := ascii_of_N 13.

(** A text with every line feed turned into the pair carriage return, line
    feed: the line ends the release notes have when they come from a form
    or a Windows editor. *)
Fixpoint crlf (s : list ascii) : list ascii :=
  match s with
  | [] => []
  | c :: s' => if chr_eqb c NL then CR :: NL :: crlf s' else c :: crlf s'
  end.

(** A character that is neither a carriage return nor a line feed. *)
Definition not_line_end (c : ascii) : bool :=
  negb (chr_eqb c CR) && negb (chr_eqb c NL).

(** A platform to run the changelog script on in examples: the digits of a
    timestamp read as one number, its first four digits as the year. *)
Definition sample_date_value (s : list ascii) : Z := number_value s.
Definition sample_getFullYear (v : Z) : Z := v / 10000.
Definition sample_toLocaleDateString (v : Z) : list ascii := show_Z v.

Definition release_a : Release :=
  mkRelease (lit "v2.1") (lit "2024-03-05") (Some example_body) false.
Definition release_b : Release :=
  mkRelease (lit "v3.0") (lit "2025-01-20")
            (Some (lit "Maintenance release, see the repository.")) false.

(** ** A page of the expected shape

    The overview page as the statistics script expects it: the description
    line, the five anchors and the date line, in this order, with other
    text between them. *)

(** The beginning that the five opening tags share. *)
Definition STAT_OPEN : list ascii :=
  lit "<div className=" ++ [DQ] ++ lit "text-2xl font-bold text-".

(** A text between the anchors: it holds the beginning of none of them. *)
Definition quiet (s : list ascii) : bool :=
  negb (includes STAT_OPEN s) && negb (includes LAST_UPDATED s)
  && negb (includes desc_head s).

Definition stat_anchor (colour n : list ascii) : list ascii :=
  anchor_open colour ++ n ++ lit "</div>".

(** Separators and blocks in turn, a separator first and last. *)
Inductive chain (sep_ok blk_ok : list ascii -> Prop) : list ascii -> Prop :=
| chain_last s : sep_ok s -> chain sep_ok blk_ok s
| chain_cons s b x :
    sep_ok s -> blk_ok b -> chain sep_ok blk_ok x ->
    chain sep_ok blk_ok (s ++ b ++ x).

(** The blocks of a page: an anchor of one of the colours, or a text that
    begins as the description line does and holds neither "<" nor "L". *)
Definition page_block (b : list ascii) : Prop :=
  (exists c, is_colour c /\ is_anchor_text c b)
  \/ ((exists b', b = desc_head ++ b') /\ forallb no_lt_L b = true).

(** The blocks that the pattern of the colour [c] must pass over. *)
Definition other_block (c b : list ascii) : Prop :=
  (exists c', is_colour c' /\ c' <> c /\ is_anchor_text c' b)
  \/ ((exists b', b = desc_head ++ b') /\ forallb no_lt_L b = true).

(** ** Letter case

    A pattern whose classes do not tell a letter from its lower-case
    form. *)
Fixpoint case_blind (r : regex) : Prop :=
  match r with
  | Chr _ | Eps | Eol => True
  | Cls p => forall c, p (lower_char c) = p c
  | Seq a b => case_blind a /\ case_blind b
  | Opt a | Star a | LazyStar a | Group a => case_blind a
  end.

(** The continuation [k'] does on lower-cased texts what [k] does on the
    texts themselves. *)
Definition lower_kont {R} (k k' : kont R) : Prop :=
  forall s c, k' (toLowerCase s) (option_map toLowerCase c) = k s c.

(** ** Failed requests of the changelog script *)

(** The message of the error that [fetchGitHubReleases] rejects with on a
    status other than 200: [`GitHub API error: ${res.statusCode} - ${data}`]. *)
Definition releases_error (status : Z) (data : list ascii) : list ascii :=
  lit "GitHub API error: " ++ show_Z status ++ lit " - " ++ data.

(** [error.message.includes('401')]: whether [syncChangelog] prints its
    hint about the permissions of the token. *)
Definition shows_token_hint (message : list ascii) : bool :=
  includes (lit "401") message.

(** * String primitives *)

Lemma chr_eqb_eq (a b : ascii) : chr_eqb a b = true ↔ a = b.
Proof. apply Ascii.eqb_eq. Qed.

Lemma chr_eqb_refl (a : ascii) : chr_eqb a a = true.
Proof. by apply chr_eqb_eq. Qed.

Lemma chr_eqb_neq (a b : ascii) : chr_eqb a b = false ↔ a ≠ b.
Proof. apply Ascii.eqb_neq. Qed.

Lemma starts_with_spec (p s : list ascii) :
  starts_with p s = true ↔ ∃ b, s = p ++ b.
Proof.
  revert s. induction p as [|a p IH]; intros s; cbn.
  - split; eauto.
  - destruct s as [|c s]; [split; [done|by intros [? ?]]|].
    rewrite andb_true_iff, chr_eqb_eq, IH. split.
    + intros [-> [b ->]]. eauto.
    + intros [b [= -> ->]]. eauto.
Qed.

Lemma starts_with_app (p b : list ascii) : starts_with p (p ++ b) = true.
Proof. apply starts_with_spec. eauto. Qed.

Lemma includes_spec (p s : list ascii) :
  includes p s = true ↔ ∃ a b, s = a ++ p ++ b.
Proof.
  induction s as [|c s IH]; cbn [includes].
  - rewrite orb_false_r, starts_with_spec. split.
    + intros [b ->]. by exists [], b.
    + intros (a & b & H). destruct a; [eauto|done].
  - rewrite orb_true_iff, starts_with_spec, IH. split.
    + intros [[b ->]|(a & b & ->)]; [by exists [], b|by exists (c :: a), b].
    + intros (a & b & H). destruct a as [|c' a].
      * left. eauto.
      * injection H as -> ->. right. eauto.
Qed.

Lemma includes_false (p s : list ascii) :
  includes p s = false ↔ ¬ ∃ a b, s = a ++ p ++ b.
Proof. rewrite <- includes_spec. by destruct (includes p s). Qed.

Lemma trim_start_suffix (s : list ascii) :
  ∃ w, s = w ++ trim_start s ∧ forallb is_space w = true.
Proof.
  induction s as [|c s (w & IH & Hw)]; [by exists []|]. cbn.
  destruct (is_space c) eqn:Hc.
  - exists (c :: w). cbn. rewrite Hc, Hw. by rewrite IH at 1.
  - by exists [].
Qed.

Lemma trim_start_keeps (a p b : list ascii) (c : ascii) :
  head p = Some c → is_space c = false →
  ∃ a', trim_start (a ++ p ++ b) = a' ++ p ++ b.
Proof.
  intros Hp Hc. induction a as [|x a [a' IH]]; cbn.
  - destruct p as [|c' p]; [done|]. injection Hp as ->. cbn. rewrite Hc.
    by exists [].
  - destruct (is_space x); [by exists a'|by exists (x :: a)].
Qed.

Lemma trim_infix (s : list ascii) : ∃ w1 w2, s = w1 ++ trim s ++ w2.
Proof.
  unfold trim, trim_end.
  destruct (trim_start_suffix s) as (w1 & H1 & _).
  destruct (trim_start_suffix (rev (trim_start s))) as (w2 & H2 & _).
  exists w1, (rev w2). rewrite H1 at 1. f_equal.
  rewrite <- rev_app_distr, <- H2. by rewrite rev_involutive.
Qed.

(** Trimming does not cut into an occurrence of a text that has no white
    space at either end. *)
Lemma includes_trim (p s : list ascii) :
  from_option (fun c => negb (is_space c)) false (head p) = true →
  from_option (fun c => negb (is_space c)) false (head (rev p)) = true →
  includes p (trim s) = includes p s.
Proof.
  intros Hc Hd.
  destruct (head p) as [c|] eqn:Hhc; [|done].
  destruct (head (rev p)) as [d|] eqn:Hhd; [|done].
  cbn in Hc, Hd. apply negb_true_iff in Hc, Hd.
  apply eq_true_iff_eq. rewrite !includes_spec. split.
  - intros (a & b & H). destruct (trim_infix s) as (w1 & w2 & Hs).
    exists (w1 ++ a), (b ++ w2). rewrite Hs, H. by rewrite <- !app_assoc.
  - intros (a & b & ->). unfold trim, trim_end.
    destruct (trim_start_keeps a p b c Hhc Hc) as [a' ->].
    rewrite !rev_app_distr, <- app_assoc.
    destruct (trim_start_keeps (rev b) (rev p) (rev a') d Hhd Hd) as [b' ->].
    exists a', (rev b'). by rewrite !rev_app_distr, !rev_involutive, <- app_assoc.
Qed.

(** * Properties of [parseReleaseBody] *)

Section ParseLoop.

Implicit Types (acc : Parsed) (line item : list ascii).

(** The loop only appends: its result is the three filters of the kept
    items, appended to the arrays it started from. *)
Lemma parse_step_spec acc line :
  parse_step acc line =
  let its := filter (fun i => is_skipped i = false)
                    (map bullet_item (filter (fun l => is_bullet l = true) [line])) in
  mkParsed (features acc ++ filter (fun i => is_feature_item i = true) its)
           (improvements acc ++ filter (fun i => is_improvement_item i = true) its)
           (fixes acc ++ filter (fun i => is_fix_item i = true) its)
           (breaking acc).
Proof.
  unfold parse_step, is_improvement_item, is_feature_item, is_fix_item.
  cbv zeta. rewrite filter_cons, filter_nil.
  destruct (is_bullet line) eqn:Hb; case_decide; try congruence;
    cbn [map]; rewrite ?filter_nil, ?app_nil_r; [|by destruct acc].
  rewrite filter_cons, filter_nil.
  destruct (is_skipped (bullet_item line)) eqn:Hs; case_decide; try congruence;
    rewrite ?filter_nil, ?app_nil_r; [by destruct acc|].
  rewrite !filter_cons, !filter_nil.
  destruct (includes (lit "fix") _ || includes (lit "resolve") _
            || includes (lit "solved") _) eqn:Hfix; cbn [negb andb].
  - repeat case_decide; try congruence. by rewrite !app_nil_r.
  - destruct (includes (lit "add") _ || includes (lit "new") _
              || includes (lit "support") _ && negb (includes (lit "fix") _))
      eqn:Hfeat; cbn [negb andb];
      repeat case_decide; try congruence; by rewrite !app_nil_r.
Qed.

Lemma parse_loop_spec (lines : list (list ascii)) acc :
  fold_left parse_step lines acc =
  let its := filter (fun i => is_skipped i = false)
                    (map bullet_item (filter (fun l => is_bullet l = true) lines)) in
  mkParsed (features acc ++ filter (fun i => is_feature_item i = true) its)
           (improvements acc ++ filter (fun i => is_improvement_item i = true) its)
           (fixes acc ++ filter (fun i => is_fix_item i = true) its)
           (breaking acc).
Proof.
  revert acc. induction lines as [|l lines IH]; intros acc.
  - cbn. rewrite !app_nil_r. by destruct acc.
  - cbn [fold_left]. rewrite IH, parse_step_spec. cbv zeta. cbn [features improvements fixes breaking].
    change (l :: lines) with ([l] ++ lines).
    rewrite (filter_app _ [l] lines), map_app, !filter_app, !app_assoc.
    reflexivity.
Qed.

End ParseLoop.

Lemma body_lines_nil : body_lines [] = [].
Proof. reflexivity. Qed.

Lemma parseReleaseBody_spec (b : list ascii) :
  parseReleaseBody (Some b) =
  mkParsed (filter (fun i => is_feature_item i = true) (kept_items b))
           (filter (fun i => is_improvement_item i = true) (kept_items b))
           (filter (fun i => is_fix_item i = true) (kept_items b))
           (detect_breaking b).
Proof.
  unfold parseReleaseBody. destruct b as [|c b].
  - reflexivity.
  - cbn [truthy negb]. rewrite parse_loop_spec. reflexivity.
Qed.

Lemma kept_items_elem (b line : list ascii) :
  line ∈ body_lines b → is_bullet line = true →
  is_skipped (bullet_item line) = false →
  bullet_item line ∈ kept_items b.
Proof.
  intros Hin Hb Hs. unfold kept_items.
  apply list_elem_of_filter. split; [done|].
  apply list_elem_of_fmap. exists line. split; [done|].
  apply list_elem_of_filter. done.
Qed.

Lemma three_way_partition {A} (P Q R : A → bool) (l : list A) :
  (∀ x, x ∈ l →
        (P x = true ∧ Q x = false ∧ R x = false)
        ∨ (P x = false ∧ Q x = true ∧ R x = false)
        ∨ (P x = false ∧ Q x = false ∧ R x = true)) →
  filter (fun x => P x = true) l ++ filter (fun x => Q x = true) l
    ++ filter (fun x => R x = true) l ≡ₚ l.
Proof.
  induction l as [|a l IH]; intros H; [done|].
  rewrite !filter_cons.
  assert (Ha := H a (list_elem_of_here _ _)).
  assert (IH' := IH (fun x Hx => H x (list_elem_of_further _ _ _ Hx))).
  destruct Ha as [(HP & HQ & HR)|[(HP & HQ & HR)|(HP & HQ & HR)]];
    repeat case_decide; try congruence.
  - cbn. by rewrite IH'.
  - cbn [app]. rewrite <- Permutation_middle. by rewrite IH'.
  - rewrite app_assoc, <- Permutation_middle, <- app_assoc. by rewrite IH'.
Qed.

Lemma category_exclusive (i : list ascii) :
  (is_feature_item i = true ∧ is_improvement_item i = false ∧ is_fix_item i = false)
  ∨ (is_feature_item i = false ∧ is_improvement_item i = true ∧ is_fix_item i = false)
  ∨ (is_feature_item i = false ∧ is_improvement_item i = false ∧ is_fix_item i = true).
Proof.
  unfold is_improvement_item, is_feature_item.
  destruct (is_fix_item i); cbn [negb andb]; [tauto|].
  match goal with |- context [?b = true ∧ negb ?b = false ∧ _] => destruct b end;
    cbn; tauto.
Qed.

(** The discard test reads the item, which holds the same occurrences as
    the whole bullet line. *)
Lemma is_skipped_line (line : list ascii) :
  is_bullet line = true →
  is_skipped (bullet_item line) =
  (includes (lit "made their first contribution") line
   || includes (lit "@") line && includes (lit "in #") line
   || includes (lit "Full Changelog") line).
Proof.
  intros Hb. unfold is_skipped, bullet_item, substring_from.
  assert (∃ c1 c2 rest, line = c1 :: c2 :: rest
                        ∧ (c1 = "*"%char ∨ c1 = "-"%char) ∧ c2 = " "%char)
    as (c1 & c2 & rest & -> & Hc1 & ->).
  { unfold is_bullet in Hb. apply orb_true_iff in Hb.
    destruct Hb as [Hb|Hb]; apply starts_with_spec in Hb as [b ->];
      eexists _, _, _; (split; [reflexivity|]); tauto. }
  cbn [drop].
  rewrite !(includes_trim _ rest) by reflexivity.
  destruct Hc1 as [-> | ->]; reflexivity.
Qed.

(** ** The kept bullets, read off the body text *)

Lemma filter_map_comm {A B} (f : A → B) (P : B → Prop)
    `{!∀ y, Decision (P y)} (l : list A) :
  filter P (map f l) = map f (filter (fun x => P (f x)) l).
Proof.
  induction l as [|x l IH]; [done|]. cbn [map].
  rewrite !filter_cons. destruct (decide (P (f x))); cbn [map]; by rewrite IH.
Qed.

Lemma filter_ext_elem {A} (P Q : A → Prop) `{!∀ x, Decision (P x)}
    `{!∀ x, Decision (Q x)} (l : list A) :
  (∀ x, x ∈ l → (P x ↔ Q x)) → filter P l = filter Q l.
Proof.
  induction l as [|x l IH]; intros Hext; [done|].
  rewrite !filter_cons.
  assert (Hx : P x ↔ Q x) by (apply Hext; left).
  assert (Hl : filter P l = filter Q l).
  { apply IH. intros y Hy. apply Hext. by right. }
  destruct (decide (P x)), (decide (Q x)); rewrite ?Hl; tauto.
Qed.

(** The kept bullets are what the text of the body shows: its lines cut
    at the line feeds and trimmed, the non-empty ones that begin with
    "* " or "- ", without those that the discard rules name, each without
    its two first characters and trimmed again. *)
Lemma kept_items_text (b : list ascii) :
  kept_items b =
  map (fun l => trim (drop 2 l))
    (filter (fun l =>
               (includes (lit "made their first contribution") l
                || includes (lit "@") l && includes (lit "in #") l
                || includes (lit "Full Changelog") l) = false)
       (filter (fun l => (starts_with (lit "* ") l
                          || starts_with (lit "- ") l) = true)
          (filter (fun l => l ≠ []) (map trim (split_on NL b))))).
Proof.
  unfold kept_items, body_lines. rewrite filter_map_comm.
  change (fun l : list ascii => trim (drop 2 l)) with bullet_item. f_equal.
  assert (Hl : filter (fun l => truthy l = true) (map trim (split_on NL b))
               = filter (fun l => l ≠ []) (map trim (split_on NL b))).
  { apply filter_ext_elem. intros l _. by destruct l. }
  rewrite Hl.
  apply filter_ext_elem. intros l Hl'.
  apply list_elem_of_filter in Hl' as [Hb _].
  by rewrite (is_skipped_line l Hb).
Qed.

(** C8.  The parser's output partitions the kept bullets of the body: the
    lines of the body text (cut at the line feeds, trimmed, the empty ones
    dropped) that begin with "* " or "- " and are not named by the discard
    rules, each without its bullet mark and trimmed.  The three sequences
    together are a rearrangement of these items, each sequence keeps the
    order of the body, and no item sits in two sequences. *)
Theorem C8_parse_partition (body : option (list ascii)) :
  let p := parseReleaseBody body in
  let lines :=
    filter (fun l => l ≠ []) (map trim (split_on NL (default [] body))) in
  let bullets :=
    filter (fun l => (starts_with (lit "* ") l
                      || starts_with (lit "- ") l) = true) lines in
  let discarded (l : list ascii) :=
    includes (lit "made their first contribution") l
    || includes (lit "@") l && includes (lit "in #") l
    || includes (lit "Full Changelog") l in
  let kept :=
    map (fun l => trim (drop 2 l))
        (filter (fun l => discarded l = false) bullets) in
  features p ++ improvements p ++ fixes p ≡ₚ kept
  ∧ (features p `sublist_of` kept)
  ∧ (improvements p `sublist_of` kept)
  ∧ (fixes p `sublist_of` kept)
  ∧ (∀ x, x ∈ features p → x ∉ improvements p ++ fixes p)
  ∧ (∀ x, x ∈ improvements p → x ∉ features p ++ fixes p)
  ∧ (∀ x, x ∈ fixes p → x ∉ features p ++ improvements p).
Proof.
  cbv zeta. rewrite <- kept_items_text.
  assert (parseReleaseBody body = parseReleaseBody (Some (default [] body))) as ->
    by (by destruct body).
  rewrite parseReleaseBody_spec. cbn [features improvements fixes].
  set (kept := kept_items _).
  split; [apply three_way_partition; intros x _; apply category_exclusive|].
  repeat split; try apply sublist_filter;
    intros x Hx; apply list_elem_of_filter in Hx as [Hx _];
    rewrite elem_of_app, !list_elem_of_filter;
    destruct (category_exclusive x) as [(?&?&?)|[(?&?&?)|(?&?&?)]];
    intros [[? _]|[? _]]; congruence.
Qed.

(** On the release body of the specification: the two kept bullets, the
    first a feature and the second a fix. *)
Lemma C8_witness :
  let p := parseReleaseBody (Some example_body) in
  features p ++ improvements p ++ fixes p
    ≡ₚ [lit "Added new endpoint"; lit "Fixed null pointer bug"]
  ∧ (features p `sublist_of`
       [lit "Added new endpoint"; lit "Fixed null pointer bug"])
  ∧ features p = [lit "Added new endpoint"]
  ∧ fixes p = [lit "Fixed null pointer bug"].
Proof.
  cbv zeta.
  destruct (C8_parse_partition (Some example_body)) as (H1 & H2 & _).
  split; [exact H1|]. split; [exact H2|]. split; reflexivity.
Defined.

(** C1.  Every bullet line of a release body is sorted by the first rule
    that matches its lower-cased item: "fix", "resolve" or "solved" make it
    a fix; otherwise "add", "new", or "support" without "fix" make it a
    feature; otherwise it is an improvement.  A bullet with both "fix" and
    "add" is a fix.  A bullet line that contains "made their first
    contribution", both "@" and "in #", or "Full Changelog" is in no
    category. *)
Theorem C1_bullet_classification (body line : list ascii) :
  line ∈ body_lines body →
  is_bullet line = true →
  let item := bullet_item line in
  let low := toLowerCase item in
  let p := parseReleaseBody (Some body) in
  let discarded :=
    includes (lit "made their first contribution") line
    || includes (lit "@") line && includes (lit "in #") line
    || includes (lit "Full Changelog") line in
  let fix_rule :=
    includes (lit "fix") low || includes (lit "resolve") low
    || includes (lit "solved") low in
  let feature_rule :=
    includes (lit "add") low || includes (lit "new") low
    || includes (lit "support") low && negb (includes (lit "fix") low) in
  (discarded = true → item ∉ features p ++ improvements p ++ fixes p)
  ∧ (discarded = false → fix_rule = true →
     item ∈ fixes p ∧ item ∉ features p ++ improvements p)
  ∧ (discarded = false → fix_rule = false → feature_rule = true →
     item ∈ features p ∧ item ∉ improvements p ++ fixes p)
  ∧ (discarded = false → fix_rule = false → feature_rule = false →
     item ∈ improvements p ∧ item ∉ features p ++ fixes p)
  ∧ (discarded = false → includes (lit "fix") low = true →
     includes (lit "add") low = true → item ∈ fixes p).
Proof.
  intros Hin Hb. cbv zeta. rewrite <- (is_skipped_line line Hb).
  rewrite parseReleaseBody_spec. cbn [features improvements fixes].
  pose proof (kept_items_elem body line Hin Hb) as Hkept.
  set (item := bullet_item line) in *.
  assert (Hcat : is_fix_item item =
                 (includes (lit "fix") (toLowerCase item)
                  || includes (lit "resolve") (toLowerCase item)
                  || includes (lit "solved") (toLowerCase item))) by reflexivity.
  rewrite <- Hcat.
  rewrite !elem_of_app, !list_elem_of_filter.
  assert (Hk2 : item ∈ kept_items body → is_skipped item = false).
  { unfold kept_items. rewrite list_elem_of_filter. tauto. }
  unfold is_improvement_item, is_feature_item. cbv zeta.
  rewrite <- ?Hcat.
  assert (Hfixw : includes (lit "fix") (toLowerCase item) = true →
                  is_fix_item item = true).
  { rewrite Hcat. intros ->. reflexivity. }
  clear Hcat. revert Hkept Hk2 Hfixw.
  generalize (includes (lit "add") (toLowerCase item)
              || includes (lit "new") (toLowerCase item)
              || includes (lit "support") (toLowerCase item)
                 && negb (includes (lit "fix") (toLowerCase item))).
  generalize (includes (lit "fix") (toLowerCase item)).
  generalize (includes (lit "add") (toLowerCase item)).
  generalize (is_fix_item item) (is_skipped item) (item ∈ kept_items body).
  intros f sk K a fx g Hkept Hk2 Hfixw.
  destruct f, sk, g; cbn [negb andb]; intuition congruence.
Qed.

(** The release body of the specification: one feature, one fix, no
    improvement, the contributor line dropped. *)
Example parse_example_body :
  parseReleaseBody (Some example_body) =
  mkParsed [lit "Added new endpoint"] [] [lit "Fixed null pointer bug"] false.
Proof. vm_compute. reflexivity. Qed.

Lemma C1_witness :
  let body := example_body in
  let line := lit "* Fixed null pointer bug" in
  line ∈ body_lines body ∧ is_bullet line = true
  ∧ bullet_item line ∈ fixes (parseReleaseBody (Some body)).
Proof.
  cbv zeta.
  assert (Hin : lit "* Fixed null pointer bug" ∈ body_lines example_body).
  { vm_compute. apply list_elem_of_further, list_elem_of_here. }
  split; [exact Hin|]. split; [reflexivity|].
  destruct (C1_bullet_classification example_body
              (lit "* Fixed null pointer bug") Hin eq_refl)
    as (_ & H & _).
  apply H; reflexivity.
Defined.

(** * Properties of the changelog renderer *)

Lemma fold_left_append {A} (f : A → list ascii) (l : list A) (c : list ascii) :
  fold_left (fun c x => c ++ f x) l c = c ++ concat (map f l).
Proof.
  revert c. induction l as [|x l IH]; intros c; cbn.
  - by rewrite app_nil_r.
  - by rewrite IH, app_assoc.
Qed.

Lemma emit_section_spec (heading : list ascii) (items : list (list ascii))
    (content : list ascii) :
  emit_section heading items content =
  content ++ section_text heading (slice0 8 items).
Proof.
  unfold emit_section, section_text, slice0.
  destruct items as [|i items]; cbn [length Nat.ltb Nat.leb take].
  - by rewrite app_nil_r.
  - rewrite fold_left_append.
    rewrite <- !app_assoc. reflexivity.
Qed.

Section Rendering.

Variable date_value : list ascii → Z.
Variable getFullYear : Z → Z.
Variable toLocaleDateString : Z → list ascii.

(** C6.  An update block shows, under each of its three headings, the
    first eight items of the category at most (exactly eight of twelve),
    and a section without items has no text at all, heading included. *)
Theorem C6_section_cap (r : Release) :
  let p := parseReleaseBody (body r) in
  let shown (items : list (list ascii)) := take 8 items in
  generateUpdateComponent date_value toLocaleDateString r =
    update_head date_value toLocaleDateString r
      ++ section_text (lit "New Features") (shown (features p))
      ++ section_text (lit "Improvements") (shown (improvements p))
      ++ section_text (lit "Bug Fixes") (shown (fixes p))
      ++ lit "</Update>" ++ [NL]
  ∧ (∀ items, length (shown items) = Nat.min 8 (length items))
  ∧ (∀ i1 i2 i3 i4 i5 i6 i7 i8 more,
       shown (i1 :: i2 :: i3 :: i4 :: i5 :: i6 :: i7 :: i8 :: more)
       = [i1; i2; i3; i4; i5; i6; i7; i8])
  ∧ (∀ heading item items,
       section_text heading (shown (item :: items)) =
       lit "## " ++ heading ++ [NL]
         ++ concat (map (fun i => lit "- " ++ i ++ [NL]) (shown (item :: items)))
         ++ [NL])
  ∧ (∀ heading, section_text heading (shown []) = []).
Proof.
  cbv zeta. split; [|split; [|split; [|split]]].
  - unfold generateUpdateComponent, update_head. cbv zeta.
    rewrite !emit_section_spec. unfold slice0.
    by rewrite <- !app_assoc.
  - intros items. apply length_take.
  - reflexivity.
  - reflexivity.
  - reflexivity.
Qed.

(** A release with twelve feature bullets shows eight of them. *)
Example twelve_features_show_eight (items : list (list ascii)) :
  length items = 12%nat → length (slice0 8 items) = 8%nat.
Proof. intros H. unfold slice0. rewrite length_take. lia. Qed.

End Rendering.

(** ** Grouping by year *)

Section Grouping.

Variable date_value : list ascii → Z.
Variable getFullYear : Z → Z.

Lemma group_step_lookup (m : gmap Z (list Release)) (r : Release) (y : Z) :
  group_step date_value getFullYear m r !! y =
  if decide (release_year date_value getFullYear r = y)
  then Some (default [] (m !! y) ++ [r]) else m !! y.
Proof.
  unfold group_step. cbv zeta.
  set (yr := release_year date_value getFullYear r).
  destruct (decide (yr = y)) as [->|Hne].
  - rewrite lookup_insert_eq. destruct (m !! y) eqn:E; [by rewrite E|].
    by rewrite lookup_insert_eq.
  - rewrite lookup_insert_ne by done.
    destruct (m !! yr); [done|]. by rewrite lookup_insert_ne.
Qed.

Lemma group_fold_lookup (rs : list Release) (m : gmap Z (list Release)) (y : Z) :
  fold_left (group_step date_value getFullYear) rs m !! y =
  match filter (fun r => release_year date_value getFullYear r = y) rs with
  | [] => m !! y
  | l => Some (default [] (m !! y) ++ l)
  end.
Proof.
  revert m. induction rs as [|r rs IH]; intros m; [done|].
  cbn [fold_left]. rewrite IH, filter_cons, !group_step_lookup.
  destruct (decide (release_year date_value getFullYear r = y)) as [E|E].
  - destruct (filter _ rs); cbn [default]; [done|].
    unfold id. by rewrite <- app_assoc.
  - reflexivity.
Qed.

Lemma group_by_year_lookup (rs : list Release) (y : Z) :
  default [] (group_by_year date_value getFullYear rs !! y) =
  filter (fun r => release_year date_value getFullYear r = y) rs.
Proof.
  unfold group_by_year. rewrite group_fold_lookup, lookup_empty.
  by destruct (filter _ rs).
Qed.

Lemma group_by_year_is_Some (rs : list Release) (y : Z) :
  is_Some (group_by_year date_value getFullYear rs !! y)
  ↔ ∃ r, r ∈ rs ∧ release_year date_value getFullYear r = y.
Proof.
  unfold group_by_year. rewrite group_fold_lookup, lookup_empty.
  destruct (filter _ rs) as [|r l] eqn:E.
  - split; [by intros [? ?]|]. intros (r & Hr & Hy).
    assert (r ∈ filter (fun r => release_year date_value getFullYear r = y) rs)
      as Hin by (by apply list_elem_of_filter).
    rewrite E in Hin. by apply elem_of_nil in Hin.
  - split; [|by eauto]. intros _. exists r.
    assert (r ∈ filter (fun r => release_year date_value getFullYear r = y) rs)
      as Hin by (rewrite E; left).
    apply list_elem_of_filter in Hin. tauto.
Qed.

End Grouping.

(** ** The stable sort *)

Section Sorting.

Context {A : Type} (key : A → Z).

(** The comparator [(a, b) => key(b) - key(a)]: descending keys. *)
Let cmp (a b : A) : Z := key b - key a.
Let desc (a b : A) : Prop := key b ≤ key a.

Lemma sort_insert_perm (c : A → A → Z) (x : A) (l : list A) :
  sort_insert c x l ≡ₚ x :: l.
Proof.
  induction l as [|y l IH]; cbn; [done|].
  destruct (0 <? c x y); [|done]. rewrite IH. apply perm_swap.
Qed.

Lemma js_sort_perm (c : A → A → Z) (l : list A) : js_sort c l ≡ₚ l.
Proof.
  induction l as [|x l IH]; cbn; [done|].
  fold (js_sort c l). by rewrite sort_insert_perm, IH.
Qed.

Lemma sort_insert_sorted (x : A) (l : list A) :
  StronglySorted desc l → StronglySorted desc (sort_insert cmp x l).
Proof.
  induction 1 as [|y l Hl IH Hy]; cbn.
  - repeat constructor.
  - unfold cmp at 1. destruct (0 <? key y - key x) eqn:E.
    + constructor; [done|].
      apply Forall_forall. intros z Hz.
      rewrite sort_insert_perm in Hz.
      apply elem_of_cons in Hz as [->|Hz].
      * unfold desc. lia.
      * rewrite Forall_forall in Hy. by apply Hy.
    + constructor; [by constructor|].
      constructor; [unfold desc; lia|].
      eapply Forall_impl; [exact Hy|]. unfold desc. intros z Hz. lia.
Qed.

Lemma js_sort_sorted (l : list A) : StronglySorted desc (js_sort cmp l).
Proof.
  induction l as [|x l IH]; cbn; [constructor|].
  by apply sort_insert_sorted.
Qed.

End Sorting.

Lemma sorted_distinct_strict (l : list Z) :
  NoDup l → StronglySorted (fun a b => b ≤ a) l →
  StronglySorted (fun a b => b < a) l.
Proof.
  intros Hnd Hs. induction Hs as [|y l Hl IH Hy]; [constructor|].
  apply NoDup_cons in Hnd as [Hny Hnd].
  constructor; [by apply IH|].
  rewrite Forall_forall in Hy |- *. intros z Hz.
  assert (z ≠ y) by (intros ->; done).
  specialize (Hy z Hz). lia.
Qed.

Section Changelog.

Variable date_value : list ascii → Z.
Variable getFullYear : Z → Z.
Variable toLocaleDateString : Z → list ascii.

Lemma object_keys_perm (m : gmap Z (list Release)) :
  object_keys m ≡ₚ map fst (map_to_list m).
Proof. unfold object_keys. apply merge_sort_Permutation. Qed.

Lemma sorted_years_elem (m : gmap Z (list Release)) (y : Z) :
  y ∈ sorted_years m ↔ is_Some (m !! y).
Proof.
  unfold sorted_years. rewrite js_sort_perm, object_keys_perm.
  rewrite list_elem_of_fmap. split.
  - intros ([y' l] & -> & Hin). apply elem_of_map_to_list in Hin. by exists l.
  - intros [l Hl]. exists (y, l). split; [done|]. by apply elem_of_map_to_list.
Qed.

Lemma sorted_years_strict (m : gmap Z (list Release)) :
  StronglySorted (fun a b => b < a) (sorted_years m).
Proof.
  apply sorted_distinct_strict.
  - unfold sorted_years. rewrite js_sort_perm, object_keys_perm.
    apply NoDup_fst_map_to_list.
  - apply (js_sort_sorted (fun y : Z => y)).
Qed.

(** C5.  The changelog is the front matter, one section per year and the
    footer.  The years of the sections are exactly the calendar years of
    the releases, each once, in descending order; the section of a year
    holds its heading and then the releases of that year, by descending
    publish time. *)
Theorem C5_years_and_order (releases : list Release) :
  let year (r : Release) := getFullYear (date_value (published_at r)) in
  let time (r : Release) := date_value (published_at r) in
  let m := group_by_year date_value getFullYear releases in
  let years := sorted_years m in
  let shown := year_releases date_value m in
  generateChangelogContent date_value getFullYear toLocaleDateString releases =
    frontMatter
      ++ concat (map (fun y =>
                        lit "## " ++ show_Z y ++ [NL] ++ [NL]
                          ++ concat (map (fun r =>
                               generateUpdateComponent date_value
                                 toLocaleDateString r ++ [NL])
                               (shown y)))
                     years)
      ++ footer
  ∧ StronglySorted (fun a b => b < a) years
  ∧ (∀ y, y ∈ years ↔ ∃ r, r ∈ releases ∧ year r = y)
  ∧ (∀ y, shown y ≡ₚ filter (fun r => year r = y) releases)
  ∧ (∀ y, StronglySorted (fun a b => time b ≤ time a) (shown y)).
Proof.
  cbv zeta. split; [|split; [|split; [|split]]].
  - unfold generateChangelogContent. cbv zeta.
    rewrite fold_left_append, <- app_assoc. do 3 f_equal.
    apply map_ext. intros y. unfold year_section. cbv zeta.
    rewrite fold_left_append. by rewrite <- ?app_assoc.
  - apply sorted_years_strict.
  - intros y. rewrite sorted_years_elem.
    exact (group_by_year_is_Some date_value getFullYear releases y).
  - intros y. unfold year_releases.
    rewrite js_sort_perm.
    by rewrite (group_by_year_lookup date_value getFullYear).
  - intros y. unfold year_releases.
    apply (js_sort_sorted (fun r => date_value (published_at r))).
Qed.

End Changelog.

(** Two releases of two years: the year of the later one comes first, and
    each year shows its own release. *)
Lemma C5_witness :
  let year (r : Release) := sample_getFullYear
                              (sample_date_value (published_at r)) in
  let m := group_by_year sample_date_value sample_getFullYear
             [release_a; release_b] in
  sorted_years m = [2025; 2024]
  ∧ year_releases sample_date_value m 2025 = [release_b]
  ∧ year_releases sample_date_value m 2024 = [release_a]
  ∧ (∀ y, y ∈ sorted_years m
          ↔ ∃ r, r ∈ [release_a; release_b] ∧ year r = y)
  ∧ generateChangelogContent sample_date_value sample_getFullYear
      sample_toLocaleDateString [release_a; release_b]
    = frontMatter
        ++ (lit "## 2025" ++ [NL] ++ [NL]
              ++ generateUpdateComponent sample_date_value
                   sample_toLocaleDateString release_b ++ [NL])
        ++ (lit "## 2024" ++ [NL] ++ [NL]
              ++ generateUpdateComponent sample_date_value
                   sample_toLocaleDateString release_a ++ [NL])
        ++ footer.
Proof.
  cbv zeta.
  destruct (C5_years_and_order sample_date_value sample_getFullYear
              sample_toLocaleDateString [release_a; release_b])
    as (Hdoc & _ & Hyears & _).
  assert (Hy : sorted_years (group_by_year sample_date_value
                               sample_getFullYear [release_a; release_b])
               = [2025; 2024]) by (vm_compute; reflexivity).
  assert (Hb : year_releases sample_date_value
                 (group_by_year sample_date_value sample_getFullYear
                    [release_a; release_b]) 2025 = [release_b])
    by (vm_compute; reflexivity).
  assert (Ha : year_releases sample_date_value
                 (group_by_year sample_date_value sample_getFullYear
                    [release_a; release_b]) 2024 = [release_a])
    by (vm_compute; reflexivity).
  split; [exact Hy|]. split; [exact Hb|]. split; [exact Ha|].
  split; [exact Hyears|].
  rewrite Hdoc, Hy. cbn [map concat]. rewrite Hb, Ha. cbn [map concat].
  change (show_Z 2025) with (lit "2025"). change (show_Z 2024) with (lit "2024").
  by rewrite <- ?app_assoc, ?app_nil_r.
Defined.

(** * The drivers and the file system *)

(** C4.  With a StatRecord whose five fields are unset the rewriter returns
    the document it was given and reports no update, nothing is written,
    and a run whose README matched no label leaves every file as it was. *)
Theorem C4_no_stats_no_change {L : NumberFormat} (readme content : list ascii)
    (now : Today) (fs : gmap string (list ascii)) :
  parseStatistics readme = no_stats →
  fs !! OVERVIEW_FILE = Some content →
  rewriteOverview no_stats now content = (content, false)
  ∧ updateOverviewFile no_stats now fs = Some (fs, false)
  ∧ main (Fetched readme) now fs = (fs, 0).
Proof.
  intros Hstats Hfile. split; [reflexivity|]. split.
  - unfold updateOverviewFile. rewrite Hfile. reflexivity.
  - unfold main. rewrite Hstats. reflexivity.
Qed.

Lemma C4_witness :
  let readme := lit "A database of countries, states and cities." in
  let content := lit "Last Updated: 1st May 2020<" in
  let fs : gmap string (list ascii) := {[ OVERVIEW_FILE := content ]} in
  let now := mkToday 21 September 2025 in
  rewriteOverview (L := en_US) no_stats now content = (content, false)
  ∧ updateOverviewFile (L := en_US) no_stats now fs = Some (fs, false)
  ∧ main (L := en_US) (Fetched readme) now fs = (fs, 0).
Proof.
  cbv zeta. apply C4_no_stats_no_change.
  - vm_compute. reflexivity.
  - apply lookup_singleton_eq.
Defined.

(** ** Backups *)

Section Backup.

Variable date_value : list ascii → Z.
Variable getFullYear : Z → Z.
Variable toLocaleDateString : Z → list ascii.
Context {L : NumberFormat}.

(** C9, as the code has it.  A run of the changelog pipeline that
    overwrites an existing changelog first copies it: after the run the
    backup path holds the previous content, the changelog holds the new
    one, and no other file has changed.  The overview pipeline writes its
    one file in place: whatever it does, every other path is as before. *)
Theorem C9_changelog_backup (releases : list Release) (old : list ascii)
    (fs : gmap string (list ascii)) :
  fs !! CHANGELOG_PATH = Some old →
  let fs' := (syncChangelog date_value getFullYear toLocaleDateString
                (Fetched releases) fs).1 in
  fs' !! BACKUP_PATH = Some old
  ∧ fs' !! CHANGELOG_PATH =
      Some (generateChangelogContent date_value getFullYear
              toLocaleDateString releases)
  ∧ (∀ path, path ≠ CHANGELOG_PATH → path ≠ BACKUP_PATH →
       fs' !! path = fs !! path)
  ∧ (∀ response now path, path ≠ OVERVIEW_FILE →
       (main response now fs).1 !! path = fs !! path).
Proof.
  intros Hold. cbv zeta. unfold syncChangelog. rewrite Hold. cbn [fst].
  fold BACKUP_PATH.
  assert (Hne : CHANGELOG_PATH ≠ BACKUP_PATH) by done.
  split; [|split; [|split]].
  - rewrite lookup_insert_ne by done. apply lookup_insert_eq.
  - apply lookup_insert_eq.
  - intros path H1 H2. by rewrite !lookup_insert_ne.
  - intros response now path Hp. unfold main.
    destruct response as [readme|msg]; [|done].
    destruct (foundStats _ =? 0)%nat; [done|].
    unfold updateOverviewFile.
    destruct (fs !! OVERVIEW_FILE) as [content|]; [|done].
    destruct (rewriteOverview _ now content) as [content' [|]]; cbn [fst].
    + by rewrite lookup_insert_ne.
    + done.
Qed.

End Backup.

Lemma C9_witness :
  let fs : gmap string (list ascii) := {[ CHANGELOG_PATH := lit "old text" ]} in
  let fs' := (syncChangelog (fun _ => 0) (fun _ => 1970) (fun _ => lit "January 1, 1970")
                (Fetched []) fs).1 in
  fs !! CHANGELOG_PATH = Some (lit "old text")
  ∧ fs' !! BACKUP_PATH = Some (lit "old text").
Proof.
  cbv zeta. split; [apply lookup_singleton_eq|].
  apply (C9_changelog_backup (L := en_US) (fun _ => 0) (fun _ => 1970)
           (fun _ => lit "January 1, 1970") [] (lit "old text")
           {[ CHANGELOG_PATH := lit "old text" ]}).
  apply lookup_singleton_eq.
Defined.

(** The overview pipeline overwrites its file and leaves no copy of what
    the file held: the claim of a backup in either pipeline fails there. *)
Lemma C9_counterexample :
  let fs : gmap string (list ascii) := {[ OVERVIEW_FILE := overview_before ]} in
  let fs' := (main (L := en_US) (Fetched stats_readme_regions)
                (mkToday 21 September 2025) fs).1 in
  fs !! OVERVIEW_FILE = Some overview_before
  ∧ fs' !! OVERVIEW_FILE = Some overview_after
  ∧ overview_after ≠ overview_before
  ∧ ¬ ∃ path, fs' !! path = Some overview_before.
Proof.
  cbv zeta.
  assert (Hs : parseStatistics stats_readme_regions
               = mkStats (Some (Num 6)) None None None None)
    by (vm_compute; reflexivity).
  assert (Hr : rewriteOverview (L := en_US) (mkStats (Some (Num 6)) None None None None)
                 (mkToday 21 September 2025) overview_before
               = (overview_after, true))
    by (vm_compute; reflexivity).
  assert (Hne : overview_after ≠ overview_before) by (vm_compute; discriminate).
  unfold main. rewrite Hs.
  change (foundStats _ =? 0)%nat with false. cbv iota.
  unfold updateOverviewFile. rewrite lookup_singleton_eq, Hr. cbn [fst].
  split; [done|]. split; [apply lookup_insert_eq|].
  split; [exact Hne|].
  intros [path Hpath].
  destruct (decide (path = OVERVIEW_FILE)) as [->|Hp].
  - rewrite lookup_insert_eq in Hpath. by injection Hpath.
  - rewrite lookup_insert_ne, lookup_singleton_ne in Hpath by done. done.
Qed.

(** * The matcher *)

Lemma or_else_Some {R} (a b : option R) (x : R) :
  or_else a b = Some x → a = Some x ∨ (a = None ∧ b = Some x).
Proof. destruct a; cbn; intros; [left|right]; auto. Qed.

Section Engine.

Context {R : Type}.
Implicit Types (k : kont R) (s : list ascii) (cap : option (list ascii)).
Implicit Types (body : list ascii → option (list ascii) → kont R → option R).

Lemma star_loop_ext body k k' n s cap :
  body_ext body → (∀ s' c', k s' c' = k' s' c') →
  star_loop body k n s cap = star_loop body k' n s cap.
Proof.
  intros Hb Hk. revert s cap. induction n as [|n IH]; intros s cap; cbn [star_loop lazy_loop rmatch].
  - apply Hk.
  - rewrite Hk. f_equal. apply Hb. intros s' c'.
    destruct (length s' <? length s)%nat; [apply IH|done].
Qed.

Lemma lazy_loop_ext body k k' n s cap :
  body_ext body → (∀ s' c', k s' c' = k' s' c') →
  lazy_loop body k n s cap = lazy_loop body k' n s cap.
Proof.
  intros Hb Hk. revert s cap. induction n as [|n IH]; intros s cap; cbn [star_loop lazy_loop rmatch].
  - apply Hk.
  - rewrite Hk. f_equal. apply Hb. intros s' c'.
    destruct (length s' <? length s)%nat; [apply IH|done].
Qed.

Lemma rmatch_ext ic r s cap k k' :
  (∀ s' c', k s' c' = k' s' c') → rmatch ic r s cap k = rmatch ic r s cap k'.
Proof.
  revert s cap k k'.
  induction r as [c|p| |a IHa b IHb|a IHa|a IHa|a IHa|a IHa| ];
    intros s cap k k' Hk; cbn [rmatch].
  - destruct s; [done|]. destruct (pat_char_eqb ic c a); [apply Hk|done].
  - destruct s; [done|]. destruct (p a); [apply Hk|done].
  - apply Hk.
  - apply IHa. intros s' c'. by apply IHb.
  - rewrite (IHa s cap k k' Hk), Hk. done.
  - apply star_loop_ext; [|done]. intros ? ? ? ? ?. by apply IHa.
  - apply lazy_loop_ext; [|done]. intros ? ? ? ? ?. by apply IHa.
  - apply IHa. intros s' c'. apply Hk.
  - destruct s; [apply Hk|]. destruct (is_line_terminator a); [apply Hk|done].
Qed.

Lemma star_loop_fail body n s cap :
  body_ext body → body_fail body →
  star_loop body (fun _ _ => None) n s cap = None.
Proof.
  intros He Hf. revert s cap. induction n as [|n IH]; intros s cap; cbn [star_loop lazy_loop]; [done|].
  rewrite (He s cap _ (fun _ _ => None)); [by rewrite Hf|].
  intros s' c'. destruct (length s' <? length s)%nat; [apply IH|done].
Qed.

Lemma lazy_loop_fail body n s cap :
  body_ext body → body_fail body →
  lazy_loop body (fun _ _ => None) n s cap = None.
Proof.
  intros He Hf. revert s cap. induction n as [|n IH]; intros s cap; cbn [star_loop lazy_loop]; [done|].
  rewrite (He s cap _ (fun _ _ => None)); [by rewrite Hf|].
  intros s' c'. destruct (length s' <? length s)%nat; [apply IH|done].
Qed.

Lemma rmatch_fail ic r s cap :
  rmatch (R:=R) ic r s cap (fun _ _ => None) = None.
Proof.
  revert s cap.
  induction r as [c|p| |a IHa b IHb|a IHa|a IHa|a IHa|a IHa| ];
    intros s cap; cbn [star_loop lazy_loop rmatch].
  - destruct s; [done|]. by destruct (pat_char_eqb ic c a).
  - destruct s; [done|]. by destruct (p a).
  - done.
  - etrans; [|apply (IHa s cap)]. apply rmatch_ext. intros. apply IHb.
  - by rewrite IHa.
  - apply star_loop_fail; [intros ? ? ? ? ?; by apply rmatch_ext|intros ? ?; apply IHa].
  - apply lazy_loop_fail; [intros ? ? ? ? ?; by apply rmatch_ext|intros ? ?; apply IHa].
  - etrans; [|apply (IHa s cap)]. by apply rmatch_ext.
  - destruct s; [done|]. by destruct (is_line_terminator a).
Qed.

(** More fuel than the input length changes nothing. *)
Lemma star_loop_fuel body k n m s cap :
  body_ext body → body_fail body →
  (length s ≤ n)%nat → (length s ≤ m)%nat →
  star_loop body k n s cap = star_loop body k m s cap.
Proof.
  intros He Hf. revert m s cap.
  induction n as [|n IH]; intros m s cap Hn Hm.
  - destruct s; [|cbn in Hn; lia]. destruct m; cbn [star_loop lazy_loop]; [done|].
    rewrite (He [] cap _ (fun _ _ => None)); [by rewrite Hf|done].
  - destruct m as [|m].
    + destruct s; [|cbn in Hm; lia]. cbn [star_loop lazy_loop].
      rewrite (He [] cap _ (fun _ _ => None)); [by rewrite Hf|done].
    + cbn [star_loop lazy_loop]. f_equal. apply He. intros s' c'.
      destruct (length s' <? length s)%nat eqn:E; [|done].
      apply Nat.ltb_lt in E. apply IH; lia.
Qed.

Lemma lazy_loop_fuel body k n m s cap :
  body_ext body → body_fail body →
  (length s ≤ n)%nat → (length s ≤ m)%nat →
  lazy_loop body k n s cap = lazy_loop body k m s cap.
Proof.
  intros He Hf. revert m s cap.
  induction n as [|n IH]; intros m s cap Hn Hm.
  - destruct s; [|cbn in Hn; lia]. destruct m; cbn [star_loop lazy_loop]; [done|].
    rewrite (He [] cap _ (fun _ _ => None)); [|done].
    rewrite Hf. by destruct (k [] cap).
  - destruct m as [|m].
    + destruct s; [|cbn in Hm; lia]. cbn [star_loop lazy_loop].
      rewrite (He [] cap _ (fun _ _ => None)); [|done].
      rewrite Hf. by destruct (k [] cap).
    + cbn [star_loop lazy_loop]. f_equal. apply He. intros s' c'.
      destruct (length s' <? length s)%nat eqn:E; [|done].
      apply Nat.ltb_lt in E. apply IH; lia.
Qed.

Lemma rmatch_Chr ic c x s cap k :
  rmatch ic (Chr c) (x :: s) cap k =
  if pat_char_eqb ic c x then k s cap else None.
Proof. reflexivity. Qed.

Lemma rmatch_Cls ic p x s cap k :
  rmatch ic (Cls p) (x :: s) cap k = if p x then k s cap else None.
Proof. reflexivity. Qed.

Lemma rmatch_Cls_nil ic p cap k : rmatch ic (Cls p) [] cap k = None.
Proof. reflexivity. Qed.

Lemma rmatch_Seq ic a b s cap k :
  rmatch ic (Seq a b) s cap k =
  rmatch ic a s cap (fun s' cap' => rmatch ic b s' cap' k).
Proof. reflexivity. Qed.

Lemma rmatch_Opt ic a s cap k :
  rmatch ic (Opt a) s cap k = or_else (rmatch ic a s cap k) (k s cap).
Proof. reflexivity. Qed.

Lemma rmatch_Group ic a s cap k :
  rmatch ic (Group a) s cap k =
  rmatch ic a s cap (fun s' _ => k s' (Some (take (length s - length s') s))).
Proof. reflexivity. Qed.

Lemma rmatch_Eps ic s cap k : rmatch ic Eps s cap k = k s cap.
Proof. reflexivity. Qed.

(** The equations of the two quantifiers. *)
Lemma rmatch_Star ic a s cap k :
  rmatch ic (Star a) s cap k =
  or_else
    (rmatch ic a s cap
       (fun s' cap' =>
          if (length s' <? length s)%nat then rmatch ic (Star a) s' cap' k
          else None))
    (k s cap).
Proof.
  assert (He : body_ext (rmatch (R:=R) ic a))
    by (intros ? ? ? ? ?; by apply rmatch_ext).
  assert (Hf : body_fail (rmatch (R:=R) ic a))
    by (intros ? ?; apply rmatch_fail).
  cbn [rmatch].
  rewrite (star_loop_fuel _ k (length s) (S (length s))) by (done || lia).
  cbn [star_loop]. f_equal. apply rmatch_ext. intros s' c'.
  destruct (length s' <? length s)%nat eqn:E; [|done].
  apply Nat.ltb_lt in E. apply star_loop_fuel; (done || lia).
Qed.

Lemma rmatch_LazyStar ic a s cap k :
  rmatch ic (LazyStar a) s cap k =
  or_else
    (k s cap)
    (rmatch ic a s cap
       (fun s' cap' =>
          if (length s' <? length s)%nat then rmatch ic (LazyStar a) s' cap' k
          else None)).
Proof.
  assert (He : body_ext (rmatch (R:=R) ic a))
    by (intros ? ? ? ? ?; by apply rmatch_ext).
  assert (Hf : body_fail (rmatch (R:=R) ic a))
    by (intros ? ?; apply rmatch_fail).
  cbn [rmatch].
  rewrite (lazy_loop_fuel _ k (length s) (S (length s))) by (done || lia).
  cbn [lazy_loop]. f_equal. apply rmatch_ext. intros s' c'.
  destruct (length s' <? length s)%nat eqn:E; [|done].
  apply Nat.ltb_lt in E. apply lazy_loop_fuel; (done || lia).
Qed.

Lemma rmatch_Lit ic l s cap k :
  rmatch ic (Lit l) s cap k =
  if lit_match ic l s then k (drop (length l) s) cap else None.
Proof.
  revert s. induction l as [|a l IH]; intros s; cbn; [done|].
  destruct s as [|x s]; [done|].
  destruct (pat_char_eqb ic a x); cbn; [apply IH|done].
Qed.

(** A greedy run of a class goes to its end first. *)
Lemma star_cls_first ic p run rest cap k x :
  forallb p run = true → stops p rest = true →
  k rest cap = Some x →
  rmatch ic (Star (Cls p)) (run ++ rest) cap k = Some x.
Proof.
  intros Hrun Hstop Hk. induction run as [|c run IH].
  - rewrite rmatch_Star. cbn [app].
    destruct rest as [|c rest].
    + by rewrite rmatch_Cls_nil.
    + cbn in Hstop. apply negb_true_iff in Hstop.
      by rewrite rmatch_Cls, Hstop.
  - cbn in Hrun. apply andb_true_iff in Hrun as [Hc Hrun].
    rewrite rmatch_Star. cbn [app]. rewrite rmatch_Cls, Hc.
    rewrite (proj2 (Nat.ltb_lt _ _)) by (cbn; lia).
    by rewrite (IH Hrun).
Qed.

Lemma plus_cls_first ic p c run rest cap k x :
  p c = true → forallb p run = true → stops p rest = true →
  k rest cap = Some x →
  rmatch ic (Plus (Cls p)) (c :: run ++ rest) cap k = Some x.
Proof.
  intros Hc Hrun Hstop Hk. unfold Plus.
  rewrite rmatch_Seq, rmatch_Cls, Hc. by apply star_cls_first.
Qed.

End Engine.

(** ** What a match tells about the input *)

Section Soundness.

Context {R : Type}.

Lemma star_loop_sound ic a
    (body : list ascii → option (list ascii) → kont R → option R) :
  (∀ s cap k x, body s cap k = Some x →
     ∃ s' cap', Matches ic a s cap s' cap' ∧ k s' cap' = Some x) →
  ∀ n s cap k x, star_loop body k n s cap = Some x →
     ∃ s' cap', Matches ic (Star a) s cap s' cap' ∧ k s' cap' = Some x.
Proof.
  intros Hb n. induction n as [|n IH]; intros s cap k x H;
    cbn [star_loop] in H.
  - eauto using M_Star_stop.
  - apply or_else_Some in H as [H|[_ H]]; [|eauto using M_Star_stop].
    apply Hb in H as (s1 & c1 & HM & H).
    destruct (length s1 <? length s)%nat eqn:E; [|done].
    apply Nat.ltb_lt in E.
    apply IH in H as (s2 & c2 & HM2 & H). eauto using M_Star_more.
Qed.

Lemma lazy_loop_sound ic a
    (body : list ascii → option (list ascii) → kont R → option R) :
  (∀ s cap k x, body s cap k = Some x →
     ∃ s' cap', Matches ic a s cap s' cap' ∧ k s' cap' = Some x) →
  ∀ n s cap k x, lazy_loop body k n s cap = Some x →
     ∃ s' cap', Matches ic (LazyStar a) s cap s' cap' ∧ k s' cap' = Some x.
Proof.
  intros Hb n. induction n as [|n IH]; intros s cap k x H;
    cbn [lazy_loop] in H.
  - eauto using M_Lazy_stop.
  - apply or_else_Some in H as [H|[_ H]]; [eauto using M_Lazy_stop|].
    apply Hb in H as (s1 & c1 & HM & H).
    destruct (length s1 <? length s)%nat eqn:E; [|done].
    apply Nat.ltb_lt in E.
    apply IH in H as (s2 & c2 & HM2 & H). eauto using M_Lazy_more.
Qed.

(** Whatever the matcher returns comes from a match of the pattern that
    the continuation accepted. *)
Lemma rmatch_sound ic r s cap (k : kont R) x :
  rmatch ic r s cap k = Some x →
  ∃ s' cap', Matches ic r s cap s' cap' ∧ k s' cap' = Some x.
Proof.
  revert s cap k x.
  induction r as [c|p| |a IHa b IHb|a IHa|a IHa|a IHa|a IHa| ];
    intros s cap k x H; cbn [rmatch] in H.
  - destruct s as [|y s]; [done|].
    destruct (pat_char_eqb ic c y) eqn:E; [|done]. eauto using M_Chr.
  - destruct s as [|y s]; [done|].
    destruct (p y) eqn:E; [|done]. eauto using M_Cls.
  - eauto using M_Eps.
  - apply IHa in H as (s1 & c1 & H1 & H).
    apply IHb in H as (s2 & c2 & H2 & H). eauto using M_Seq.
  - apply or_else_Some in H as [H|[_ H]]; [|eauto using M_Opt_none].
    apply IHa in H as (s1 & c1 & H1 & H). eauto using M_Opt_some.
  - eapply star_loop_sound; eauto.
  - eapply lazy_loop_sound; eauto.
  - apply IHa in H as (s1 & c1 & H1 & H). eauto using M_Group.
  - destruct s as [|y s]; [eauto using M_Eol_end|].
    destruct (is_line_terminator y) eqn:E; [|done]. eauto using M_Eol_line.
Qed.

End Soundness.

Lemma Matches_suffix ic r s cap s' cap' :
  Matches ic r s cap s' cap' → ∃ w, s = w ++ s'.
Proof.
  induction 1;
    repeat match goal with H : ∃ _, _ |- _ => destruct H as [? ->] end;
    try (by exists []); try (by eexists [_]); eauto.
  all: by eexists (_ ++ _); rewrite <- app_assoc.
Qed.

Lemma Matches_Lit ic l s cap s' cap' :
  Matches ic (Lit l) s cap s' cap' →
  lit_match ic l s = true ∧ s' = drop (length l) s ∧ cap' = cap.
Proof.
  revert s cap. induction l as [|a l IH]; intros s cap H; cbn [Lit] in H.
  - by inversion H.
  - inversion H as [| | |? ? ? ? s1 c1 ? ? H1 H2| | | | | | | | |]; subst.
    inversion H1; subst. apply IH in H2 as (? & ? & ?).
    cbn. by rewrite andb_true_iff.
Qed.

Lemma Matches_star_cls ic p s cap s' cap' :
  Matches ic (Star (Cls p)) s cap s' cap' →
  ∃ w, s = w ++ s' ∧ forallb p w = true ∧ cap' = cap.
Proof.
  intros H. remember (Star (Cls p)) as r eqn:Er.
  induction H as [| | | | | | |a s cap s1 c1 s2 c2 H1 _ Hlt H2 IH| | | | |];
    try discriminate.
  - by exists [].
  - injection Er as ->. inversion H1; subst.
    destruct (IH eq_refl) as (w & -> & Hw & ->).
    exists (x :: w). cbn. by rewrite andb_true_iff.
Qed.

Lemma Matches_plus_cls ic p s cap s' cap' :
  Matches ic (Plus (Cls p)) s cap s' cap' →
  ∃ c w, s = c :: w ++ s' ∧ p c = true ∧ forallb p w = true ∧ cap' = cap.
Proof.
  intros H. unfold Plus in H.
  inversion H as [| | |? ? ? ? s1 c1 ? ? H1 H2| | | | | | | | |]; subst.
  inversion H1; subst.
  apply Matches_star_cls in H2 as (w & -> & Hw & ->). eauto 10.
Qed.

(** ** Runs and numbers *)

Lemma span_class (p : ascii → bool) (s : list ascii) :
  ∃ run rest, s = run ++ rest ∧ forallb p run = true ∧ stops p rest = true.
Proof.
  induction s as [|c s (run & rest & -> & Hr & Hs)]; [by exists [], []|].
  destruct (p c) eqn:E.
  - exists (c :: run), rest. cbn. by rewrite E.
  - exists [], (c :: run ++ rest). cbn. by rewrite E.
Qed.

Lemma number_from_digits (b : bool) (run s : list ascii) :
  forallb is_digit run = true → run ≠ [] →
  number_from b (run ++ s) = number_from true s.
Proof.
  revert b. induction run as [|c run IH]; intros b Hrun Hne; [done|].
  cbn in Hrun. apply andb_true_iff in Hrun as [Hc Hrun].
  cbn. rewrite Hc. destruct run as [|c' run]; [done|]. by apply IH.
Qed.

Lemma number_from_true_digits (run s : list ascii) :
  forallb is_digit run = true →
  number_from true (run ++ s) = number_from true s.
Proof.
  intros Hrun. destruct run as [|c run]; [done|]. by apply number_from_digits.
Qed.

Lemma comma_not_digit : is_digit "," = false.
Proof. reflexivity. Qed.

Lemma number_from_false_inv (s : list ascii) :
  number_from false s = true →
  ∃ d s', s = d :: s' ∧ is_digit d = true ∧ number_from true s' = true.
Proof.
  destruct s as [|d s]; cbn; [done|].
  destruct (is_digit d) eqn:E; [eauto|].
  by destruct (chr_eqb d ",").
Qed.

Lemma number_from_true_inv (s : list ascii) :
  number_from true s = true → stops is_digit s = true →
  s = [] ∨ ∃ s', s = ","%char :: s' ∧ number_from false s' = true.
Proof.
  destruct s as [|c s]; cbn; [by left|].
  intros H Hs. apply negb_true_iff in Hs. rewrite Hs in H.
  destruct (chr_eqb c ",") eqn:E; [|done].
  apply chr_eqb_eq in E as ->. right. eauto.
Qed.

Lemma number_chars (b : bool) (s : list ascii) :
  number_from b s = true →
  forallb (fun c => is_digit c || chr_eqb c ",") s = true.
Proof.
  revert b. induction s as [|c s IH]; intros b; cbn; [done|].
  destruct (is_digit c); cbn; [apply IH|].
  destruct (chr_eqb c ","); cbn; [|done].
  rewrite andb_true_iff. intros [_ H]. by apply IH in H.
Qed.

Lemma pat_comma (ic : bool) (x : ascii) :
  pat_char_eqb ic "," x = chr_eqb "," x.
Proof.
  destruct ic; [|done].
  destruct x as [[] [] [] [] [] [] [] []]; reflexivity.
Qed.

Lemma Matches_number_tail ic s cap s' cap' :
  Matches ic (Star (Seq (Chr ",") re_digits)) s cap s' cap' →
  ∃ w, s = w ++ s' ∧ number_from true w = true ∧ cap' = cap.
Proof.
  intros H. remember (Star (Seq (Chr ",") re_digits)) as r eqn:Er.
  induction H as [| | | | | | |a s cap s1 c1 s2 c2 H1 _ Hlt H2 IH| | | | |];
    try discriminate.
  - by exists [].
  - injection Er as ->.
    inversion H1 as [| | |? ? ? ? s3 c3 ? ? H3 H4| | | | | | | | |]; subst.
    inversion H3 as [? x ? ? Hx| | | | | | | | | | | |]; subst.
    rewrite pat_comma in Hx. apply chr_eqb_eq in Hx as <-.
    apply Matches_plus_cls in H4 as (d & w & -> & Hd & Hw & ->).
    destruct (IH eq_refl) as (w' & -> & Hw' & ->).
    exists (","%char :: d :: w ++ w'). split; [cbn [app]; by rewrite <- ?app_assoc|].
    split; [|done]. cbn -[number_from].
    change (number_from true (","%char :: d :: w ++ w'))
      with (number_from false ((d :: w) ++ w')).
    rewrite number_from_digits; [done| |done].
    cbn. by rewrite Hd.
Qed.

Lemma Matches_number ic s cap s' cap' :
  Matches ic re_number s cap s' cap' →
  ∃ w, s = w ++ s' ∧ is_number w = true ∧ cap' = cap.
Proof.
  intros H. unfold re_number in H.
  inversion H as [| | |? ? ? ? s1 c1 ? ? H1 H2| | | | | | | | |]; subst.
  apply Matches_plus_cls in H1 as (d & w & -> & Hd & Hw & ->).
  apply Matches_number_tail in H2 as (w' & -> & Hw' & ->).
  exists (d :: w ++ w'). split; [cbn [app]; by rewrite <- ?app_assoc|]. split; [|done].
  unfold is_number.
  change (d :: w ++ w') with ((d :: w) ++ w').
  rewrite number_from_digits; [done| |done]. cbn. by rewrite Hd.
Qed.

Section NumberFirst.

Context {R : Type}.

Lemma digits_fail_at_stop ic rest cap (k : kont R) :
  stops is_digit rest = true → rmatch ic re_digits rest cap k = None.
Proof.
  intros Hs. unfold re_digits, Plus. rewrite rmatch_Seq.
  destruct rest as [|c rest]; [done|].
  cbn in Hs. apply negb_true_iff in Hs. by rewrite rmatch_Cls, Hs.
Qed.

Lemma number_group_fail ic rest cap (k : kont R) :
  ends_number rest = true →
  rmatch ic (Seq (Chr ",") re_digits) rest cap k = None.
Proof.
  intros He. rewrite rmatch_Seq. destruct rest as [|c rest]; [done|].
  rewrite rmatch_Chr, pat_comma. destruct (chr_eqb "," c) eqn:E; [|done].
  apply chr_eqb_eq in E as <-. apply digits_fail_at_stop.
  cbn in He. by destruct (stops is_digit rest).
Qed.

Lemma ends_number_stops (rest : list ascii) :
  ends_number rest = true → stops is_digit rest = true.
Proof.
  destruct rest as [|c rest]; cbn; [done|]. by destruct (is_digit c).
Qed.

Lemma stops_app (p : ascii → bool) (w rest : list ascii) :
  stops p w = true → stops p rest = true → stops p (w ++ rest) = true.
Proof. by destruct w. Qed.

(** The greedy groups [(?:,\d+)*] go to the end of the number first. *)
Lemma number_tail_first ic (n : nat) :
  ∀ w rest cap (k : kont R) x,
    (length w ≤ n)%nat →
    number_from true w = true → stops is_digit w = true →
    ends_number rest = true → k rest cap = Some x →
    rmatch ic (Star (Seq (Chr ",") re_digits)) (w ++ rest) cap k = Some x.
Proof.
  induction n as [|n IH]; intros w rest cap k x Hlen Hw Hstop Hrest Hk;
    (destruct (number_from_true_inv w Hw Hstop) as [->|(w1 & -> & Hw1)];
     [rewrite rmatch_Star; cbn [app];
      by rewrite number_group_fail|]).
  - cbn in Hlen. lia.
  - apply number_from_false_inv in Hw1 as (d & w2 & -> & Hd & Hw2).
    destruct (span_class is_digit w2) as (run & w3 & -> & Hrun & Hw3).
    rewrite number_from_true_digits in Hw2 by done.
    rewrite rmatch_Star. cbn [app]. rewrite rmatch_Seq, rmatch_Chr, pat_comma.
    rewrite (chr_eqb_refl ",").
    rewrite <- app_assoc.
    erewrite (plus_cls_first ic is_digit d run (w3 ++ rest)); [done|done|done| |].
    + apply stops_app; [done|]. by apply ends_number_stops.
    + rewrite (proj2 (Nat.ltb_lt _ _)) by (cbn; rewrite !length_app; lia).
      apply IH; try done. cbn in Hlen. rewrite length_app in Hlen. lia.
Qed.

(** The greedy number [\d+(?:,\d+)*] takes the whole number first. *)
Lemma number_first ic w rest cap (k : kont R) x :
  is_number w = true → ends_number rest = true → k rest cap = Some x →
  rmatch ic re_number (w ++ rest) cap k = Some x.
Proof.
  intros Hw Hrest Hk. unfold is_number in Hw.
  apply number_from_false_inv in Hw as (d & w2 & -> & Hd & Hw2).
  destruct (span_class is_digit w2) as (run & w3 & -> & Hrun & Hw3).
  rewrite number_from_true_digits in Hw2 by done.
  unfold re_number. rewrite rmatch_Seq. cbn [app]. rewrite <- app_assoc.
  fold re_digits.
  apply (plus_cls_first ic is_digit d run (w3 ++ rest)); try done.
  - apply stops_app; [done|]. by apply ends_number_stops.
  - by eapply number_tail_first.
Qed.

Lemma digits_first ic w rest cap (k : kont R) x :
  forallb is_digit w = true → w ≠ [] → stops is_digit rest = true →
  k rest cap = Some x →
  rmatch ic re_digits (w ++ rest) cap k = Some x.
Proof.
  intros Hw Hne Hrest Hk. destruct w as [|d w]; [done|].
  cbn in Hw. apply andb_true_iff in Hw as [Hd Hw].
  by apply plus_cls_first.
Qed.

End NumberFirst.

(** ** Searching and replacing *)

Lemma match_here_suffix ic r s rest cap :
  match_here ic r s = Some (rest, cap) → ∃ w, s = w ++ rest.
Proof.
  intros H. apply rmatch_sound in H as (s' & c' & HM & [= -> ->]).
  by eapply Matches_suffix.
Qed.

Lemma match_here_Matches ic r s rest cap :
  match_here ic r s = Some (rest, cap) → Matches ic r s None rest cap.
Proof.
  intros H. by apply rmatch_sound in H as (s' & c' & HM & [= -> ->]).
Qed.

Lemma search_from_found ic r i a b rest cap :
  (∀ a1 a2, a = a1 ++ a2 → a2 ≠ [] → match_here ic r (a2 ++ b) = None) →
  match_here ic r b = Some (rest, cap) →
  search_from ic r i (a ++ b)
  = Some (mkMatch (i + length a) (take (length b - length rest) b) cap).
Proof.
  revert i. induction a as [|c a IH]; intros i Hno Hb.
  - cbn [app length]. rewrite Nat.add_0_r.
    destruct b; cbn [search_from]; by rewrite Hb.
  - cbn [app search_from].
    assert (H0 : match_here ic r (c :: a ++ b) = None)
      by (by apply (Hno [] (c :: a))).
    rewrite H0.
    rewrite IH; [|intros a1 a2 -> Ha2; by apply (Hno (c :: a1) a2)|done].
    cbn [length]. do 2 f_equal. lia.
Qed.

Lemma search_from_none ic r i s :
  no_match ic r s → search_from ic r i s = None.
Proof.
  revert i. induction s as [|c s IH]; intros i Hno.
  - cbn. by rewrite (Hno [] [] eq_refl).
  - cbn [search_from]. rewrite (Hno [] (c :: s) eq_refl).
    apply IH. intros a b ->. by apply (Hno (c :: a) b).
Qed.

Lemma search_from_cases ic r i s :
  (no_match ic r s ∧ search_from ic r i s = None)
  ∨ (∃ a w rest cap,
       first_match ic r s a w rest
       ∧ match_here ic r (w ++ rest) = Some (rest, cap)
       ∧ search_from ic r i s = Some (mkMatch (i + length a) w cap)).
Proof.
  revert i. induction s as [|c s IH]; intros i.
  - destruct (match_here ic r []) as [[rest cap]|] eqn:E.
    + right. destruct (match_here_suffix _ _ _ _ _ E) as [w Hw].
      symmetry in Hw. apply app_eq_nil in Hw as [-> ->].
      exists [], [], [], cap. split; [|split; [done|]].
      * split; [done|]. split; [by eauto|]. intros a1 a2 H.
        symmetry in H. apply app_eq_nil in H as [_ ->]. done.
      * cbn [search_from]. rewrite E. cbn [length]. by rewrite Nat.add_0_r.
    + left. split; [|by cbn [search_from]; rewrite E].
      intros a b H. symmetry in H. apply app_eq_nil in H as [-> ->]. done.
  - destruct (match_here ic r (c :: s)) as [[rest cap]|] eqn:E.
    + right. destruct (match_here_suffix _ _ _ _ _ E) as [w Hw].
      exists [], w, rest, cap. rewrite <- Hw. split; [|split; [done|]].
      * split; [done|]. rewrite <- Hw. split; [by eauto|]. intros a1 a2 H.
        symmetry in H. apply app_eq_nil in H as [_ ->]. done.
      * cbn [search_from]. rewrite E, Nat.add_0_r. do 2 f_equal.
        rewrite Hw, length_app.
        replace (length w + length rest - length rest)%nat with (length w) by lia.
        apply take_app_length.
    + destruct (IH (S i)) as [[Hno Hs]|(a & w & rest & cap & Hf & Hm & Hs)].
      * left. split; [|by cbn [search_from]; rewrite E].
        intros a b H. destruct a as [|c' a]; cbn in H.
        -- by subst b.
        -- injection H as -> ->. by apply (Hno a b).
      * right. exists (c :: a), w, rest, cap.
        destruct Hf as (-> & Hex & Hearlier).
        split; [|split; [done|]].
        -- split; [done|]. split; [done|]. intros a1 a2 H Ha2.
           destruct a1 as [|c' a1]; cbn in H.
           ++ by subst a2.
           ++ injection H as -> ->. by apply (Hearlier a1 a2).
        -- cbn [search_from]. rewrite E, Hs. cbn [length]. do 2 f_equal. lia.
Qed.

(** The two outcomes of a replacement. *)
Lemma js_replace_cases ic r repl s :
  (no_match ic r s ∧ js_replace ic r repl s = s)
  ∨ (∃ a w rest, first_match ic r s a w rest
                 ∧ js_replace ic r repl s = a ++ repl ++ rest).
Proof.
  unfold js_replace, js_match.
  destruct (search_from_cases ic r 0 s)
    as [[Hno ->]|(a & w & rest & cap & Hf & Hm & ->)]; [by left|].
  right. exists a, w, rest. split; [done|].
  destruct Hf as (-> & _ & _). cbn [m_index m_text Nat.add].
  rewrite take_app_length. do 2 f_equal.
  rewrite drop_app_ge by lia.
  replace (length a + length w - length a)%nat with (length w) by lia.
  apply drop_app_length.
Qed.

Lemma first_match_unique ic r s a w rest a' w' rest' :
  first_match ic r s a w rest → first_match ic r s a' w' rest' →
  a = a' ∧ w = w' ∧ rest = rest'.
Proof.
  intros (Hs & [cap Hm] & He) (Hs' & [cap' Hm'] & He').
  assert (Hlen : length a = length a').
  { destruct (Nat.lt_trichotomy (length a) (length a')) as [Hlt|[Heq|Hlt]];
      [exfalso|done|exfalso].
    - assert (a' = take (length a) a' ++ drop (length a) a') as Hsplit
        by (by rewrite take_drop).
      specialize (He' _ _ Hsplit).
      assert (drop (length a) a' ≠ []) as Hne.
      { intros H0. apply (f_equal length) in H0. rewrite length_drop in H0.
        cbn in H0. lia. }
      specialize (He' Hne).
      assert (drop (length a) a' ++ w' ++ rest' = w ++ rest) as Heq.
      { apply (f_equal (drop (length a))) in Hs'. rewrite Hs in Hs'.
        rewrite drop_app_length in Hs'. rewrite Hs'.
        rewrite drop_app_le by lia. done. }
      rewrite Heq in He'. congruence.
    - assert (a = take (length a') a ++ drop (length a') a) as Hsplit
        by (by rewrite take_drop).
      specialize (He _ _ Hsplit).
      assert (drop (length a') a ≠ []) as Hne.
      { intros H0. apply (f_equal length) in H0. rewrite length_drop in H0.
        cbn in H0. lia. }
      specialize (He Hne).
      assert (drop (length a') a ++ w ++ rest = w' ++ rest') as Heq.
      { apply (f_equal (drop (length a'))) in Hs. rewrite Hs' in Hs.
        rewrite drop_app_length in Hs. rewrite Hs.
        rewrite drop_app_le by lia. done. }
      rewrite Heq in He. congruence. }
  rewrite Hs in Hs'.
  apply app_inj_1 in Hs' as [-> Hrest]; [|done].
  rewrite Hrest in Hm. rewrite Hm in Hm'. injection Hm' as -> _.
  apply app_inv_tail in Hrest. done.
Qed.

Lemma js_replace_first ic r repl s a w rest :
  first_match ic r s a w rest → js_replace ic r repl s = a ++ repl ++ rest.
Proof.
  intros Hf. destruct (js_replace_cases ic r repl s)
    as [[Hno _]|(a' & w' & rest' & Hf' & ->)].
  - destruct Hf as (-> & [cap Hm] & _).
    rewrite (Hno a (w ++ rest) eq_refl) in Hm. done.
  - by destruct (first_match_unique _ _ _ _ _ _ _ _ _ Hf Hf') as (-> & -> & ->).
Qed.

Lemma js_replace_no_match ic r repl s :
  no_match ic r s → js_replace ic r repl s = s.
Proof.
  intros Hno. unfold js_replace, js_match. by rewrite search_from_none.
Qed.

(** * Breaking changes *)

(** ** Letter case *)

Lemma lower_canon (a : ascii) : lower_char (canon_char a) = lower_char a.
Proof. destruct a as [[] [] [] [] [] [] [] []]; reflexivity. Qed.

Lemma canon_lower (a : ascii) : canon_char (lower_char a) = canon_char a.
Proof. destruct a as [[] [] [] [] [] [] [] []]; reflexivity. Qed.

(** The [i] flag and [toLowerCase] identify the same characters. *)
Lemma pat_char_eqb_lower (a b : ascii) :
  pat_char_eqb true a b = chr_eqb (lower_char a) (lower_char b).
Proof.
  unfold pat_char_eqb. apply eq_true_iff_eq. rewrite !chr_eqb_eq. split.
  - intros H. by rewrite <- (lower_canon a), H, lower_canon.
  - intros H. by rewrite <- (canon_lower a), H, canon_lower.
Qed.

Lemma lit_match_lower (l s : list ascii) :
  lit_match true l s = starts_with (toLowerCase l) (toLowerCase s).
Proof.
  revert s. induction l as [|a l IH]; intros s; [done|].
  destruct s as [|b s]; [done|].
  cbn [lit_match toLowerCase map starts_with].
  rewrite pat_char_eqb_lower. f_equal. apply IH.
Qed.

Lemma lit_match_false (l s : list ascii) : lit_match false l s = starts_with l s.
Proof.
  revert s. induction l as [|a l IH]; intros s; [done|].
  destruct s as [|b s]; [done|]. cbn [lit_match starts_with].
  by rewrite IH.
Qed.

Lemma toLowerCase_app (a b : list ascii) :
  toLowerCase (a ++ b) = toLowerCase a ++ toLowerCase b.
Proof. apply map_app. Qed.

Lemma toLowerCase_length (a : list ascii) : length (toLowerCase a) = length a.
Proof. apply length_map. Qed.

(** ** The lazy capture up to the end of the line *)

Lemma lazy_cls_until {R} ic p text rest cap (k : kont R) x :
  forallb p text = true →
  (∀ t1 t2, text = t1 ++ t2 → t2 ≠ [] → k (t2 ++ rest) cap = None) →
  k rest cap = Some x →
  rmatch ic (LazyStar (Cls p)) (text ++ rest) cap k = Some x.
Proof.
  intros Hp Hno Hk. induction text as [|c text IH].
  - rewrite rmatch_LazyStar. cbn [app]. by rewrite Hk.
  - cbn in Hp. apply andb_true_iff in Hp as [Hc Hp].
    rewrite rmatch_LazyStar.
    rewrite (Hno [] (c :: text) eq_refl) by done.
    cbn [app or_else]. rewrite rmatch_Cls, Hc.
    rewrite (proj2 (Nat.ltb_lt _ _)) by (cbn; lia).
    apply IH; [done|]. intros t1 t2 -> Ht2. by apply (Hno (c :: t1) t2).
Qed.

Lemma rmatch_Eol_stops {R} ic s cap (k : kont R) :
  rmatch ic Eol s cap k = if stops any_char s then k s cap else None.
Proof.
  destruct s as [|c s]; [done|]. cbn [rmatch stops]. unfold any_char.
  rewrite negb_involutive. done.
Qed.

Lemma starts_with_shorten (p s t : list ascii) :
  starts_with p (s ++ t) = true → (length p ≤ length s)%nat →
  starts_with p s = true.
Proof.
  revert s. induction p as [|a p IH]; intros s H Hlen; [done|].
  destruct s as [|b s]; [cbn in Hlen; lia|].
  cbn in H |- *. apply andb_true_iff in H as [-> H]. cbn.
  apply IH; [done|]. cbn in Hlen. lia.
Qed.

Lemma match_here_breaking_inv (b : list ascii) :
  match_here true re_breaking b ≠ None →
  starts_with kw_lower (toLowerCase b) = true.
Proof.
  unfold match_here, re_breaking. cbn [Seqs].
  rewrite rmatch_Seq, rmatch_Lit, lit_match_lower.
  change (toLowerCase (lit "BREAKING CHANGE")) with kw_lower.
  by destruct (starts_with kw_lower (toLowerCase b)).
Qed.

(** Without the words "breaking change" the pattern matches nowhere. *)
Lemma breaking_no_keyword (body : list ascii) :
  includes kw_lower (toLowerCase body) = false →
  js_match true re_breaking body = None.
Proof.
  intros Hno. apply search_from_none. intros a b ->.
  destruct (match_here true re_breaking b) eqn:E; [exfalso|done].
  assert (Hs : starts_with kw_lower (toLowerCase b) = true)
    by (apply match_here_breaking_inv; congruence).
  apply starts_with_spec in Hs as [b' Hb'].
  apply includes_false in Hno. apply Hno.
  exists (toLowerCase a), b'. by rewrite toLowerCase_app, Hb'.
Qed.

Lemma match_here_breaking_read (b : list ascii) :
  match_here true re_breaking b ≠ None → lit_match true KW b = true.
Proof.
  unfold match_here, re_breaking. cbn [Seqs].
  rewrite rmatch_Seq, rmatch_Lit. fold KW.
  by destruct (lit_match true KW b).
Qed.

Lemma read_in_false (marker s tail : list ascii) :
  read_in marker s tail = false →
  ∀ a1 a2, s = a1 ++ a2 → a2 ≠ [] → lit_match true marker (a2 ++ tail) = false.
Proof.
  induction s as [|c s IH]; intros H a1 a2 Hs Ha2.
  { symmetry in Hs. apply app_eq_nil in Hs as [_ ->]. done. }
  cbn [read_in] in H. apply orb_false_iff in H as [Hhere Hlater].
  destruct a1 as [|c1 a1].
  - cbn [app] in Hs. by subst a2.
  - cbn [app] in Hs. injection Hs as _ Hs. by apply (IH Hlater a1 a2).
Qed.

(** Where the words are read nowhere the pattern matches nowhere. *)
Lemma breaking_not_read (body : list ascii) :
  read_in KW body [] = false → js_match true re_breaking body = None.
Proof.
  intros Hno. apply search_from_none. intros a b ->.
  destruct (match_here true re_breaking b) eqn:E; [exfalso|done].
  assert (Hr : lit_match true KW b = true)
    by (apply match_here_breaking_read; congruence).
  destruct b as [|c b]; [done|].
  rewrite <- (app_nil_r (c :: b)) in Hr.
  by rewrite (read_in_false KW _ [] Hno a (c :: b)) in Hr.
Qed.

Lemma lit_match_shorten (p s t : list ascii) :
  lit_match true p (s ++ t) = true → (length p ≤ length s)%nat →
  lit_match true p s = true.
Proof.
  rewrite !lit_match_lower, toLowerCase_app. intros H Hlen.
  apply (starts_with_shorten _ _ _ H). by rewrite !toLowerCase_length.
Qed.

(** The match at the first place where the words are read: the run of
    colons and white space is skipped, the capture runs to the end of the
    line. *)
Lemma breaking_match (pre kw ws text rest : list ascii) :
  length kw = 15%nat → lit_match true KW kw = true →
  read_in KW pre kw = false →
  forallb colon_or_space ws = true →
  stops colon_or_space (text ++ rest) = true →
  forallb any_char text = true →
  stops any_char rest = true →
  js_match true re_breaking (pre ++ kw ++ ws ++ text ++ rest)
  = Some (mkMatch (length pre) (kw ++ ws ++ text) (Some text)).
Proof.
  intros Hlen Hkw Hfirst Hws Hstop Htext Hrest.
  assert (Hhere :
    match_here true re_breaking (kw ++ ws ++ text ++ rest)
    = Some (rest, Some text)).
  { unfold match_here, re_breaking. cbn [Seqs].
    rewrite rmatch_Seq, rmatch_Lit. fold KW.
    assert (lit_match true KW (kw ++ ws ++ text ++ rest) = true) as ->.
    { rewrite lit_match_lower in Hkw |- *. rewrite toLowerCase_app.
      apply starts_with_spec in Hkw as [b ->].
      rewrite <- app_assoc. apply starts_with_app. }
    change (length KW) with 15%nat.
    rewrite <- Hlen, drop_app_length.
    rewrite rmatch_Seq.
    apply star_cls_first; [done|done|].
    rewrite rmatch_Seq, rmatch_Group.
    apply lazy_cls_until; [done| |].
    - intros t1 t2 -> Ht2. cbv beta. rewrite rmatch_Seq, rmatch_Eol_stops.
      destruct t2 as [|c t2]; [done|].
      rewrite forallb_app in Htext. apply andb_true_iff in Htext as [_ Ht].
      cbn in Ht. apply andb_true_iff in Ht as [Hc _].
      cbn [app stops]. by rewrite Hc.
    - cbv beta. rewrite rmatch_Seq, rmatch_Eol_stops, Hrest, rmatch_Eps.
      do 3 f_equal. rewrite length_app.
      replace (length text + length rest - length rest)%nat
        with (length text) by lia.
      apply take_app_length. }
  unfold js_match.
  rewrite (search_from_found true re_breaking 0 pre _ rest (Some text)); [| |done].
  - cbn [Nat.add]. do 2 f_equal.
    rewrite !length_app.
    replace (length kw + (length ws + (length text + length rest)) - length rest)%nat
      with (length (kw ++ ws ++ text)) by (rewrite !length_app; lia).
    rewrite !app_assoc. rewrite <- !app_assoc.
    replace (kw ++ ws ++ text ++ rest) with ((kw ++ ws ++ text) ++ rest)
      by (by rewrite <- !app_assoc).
    apply take_app_length.
  - intros a1 a2 -> Ha2.
    destruct (match_here true re_breaking (a2 ++ kw ++ ws ++ text ++ rest))
      eqn:E; [exfalso|done].
    assert (Hr : lit_match true KW (a2 ++ kw ++ ws ++ text ++ rest) = true)
      by (apply match_here_breaking_read; congruence).
    rewrite (app_assoc a2 kw) in Hr. apply lit_match_shorten in Hr.
    + by rewrite (read_in_false KW _ kw Hfirst a1 a2) in Hr.
    + change (length KW) with 15%nat. rewrite length_app. lia.
Qed.

(** Where "breaking change" does not occur in the lower-cased body, the
    words are read nowhere. *)
Lemma read_in_includes (body : list ascii) :
  includes kw_lower (toLowerCase body) = false → read_in KW body [] = false.
Proof.
  intros Hno. destruct (read_in KW body []) eqn:E; [exfalso|done].
  apply includes_false in Hno. apply Hno. clear Hno.
  induction body as [|c body IH]; [done|].
  cbn [read_in] in E. apply orb_true_iff in E as [E|E].
  - rewrite app_nil_r, lit_match_lower in E.
    apply starts_with_spec in E as [b Hb]. exists [], b. by rewrite Hb.
  - destruct (IH E) as (a & b & Hab). exists (lower_char c :: a), b.
    cbn [toLowerCase map app]. by rewrite <- Hab.
Qed.

Section Warning.

Variable date_value : list ascii → Z.
Variable toLocaleDateString : Z → list ascii.

(** C7, as the code has it.  The flag is set exactly when the lower-cased
    body contains "breaking change" or "!!breaking".  A flagged release is
    rendered with a warning right after its opening tag, the line
    <Warning>, the description on a line of its own, the line </Warning>
    and an empty line; a release that is not flagged has no warning.  The
    description is the generic sentence when the pattern reads the words
    BREAKING CHANGE nowhere in the body under its [i] flag, as when
    "breaking change" does not occur in the lower-cased body; else it is
    what follows the first place where the words are read and the run of
    colons and white space after it, line breaks included, up to the next
    line end, trimmed. *)
Theorem C7_breaking_description (body : list ascii) :
  let low := toLowerCase body in
  let p := parseReleaseBody (Some body) in
  let shown (items : list (list ascii)) := take 8 items in
  breaking p
    = (includes (lit "breaking change") low || includes (lit "!!breaking") low)
  ∧ (∀ tag published pre,
       generateUpdateComponent date_value toLocaleDateString
         (mkRelease tag published (Some body) pre)
       = lit "<Update label=" ++ [DQ] ++ tag ++ [DQ]
           ++ lit " description=" ++ [DQ] ++ lit "Released "
           ++ toLocaleDateString (date_value published) ++ [DQ]
           ++ lit ">" ++ [NL]
           ++ (if breaking p
               then lit "<Warning>" ++ [NL]
                      ++ breaking_description (Some body) ++ [NL]
                      ++ lit "</Warning>" ++ [NL] ++ [NL]
               else [])
           ++ section_text (lit "New Features") (shown (features p))
           ++ section_text (lit "Improvements") (shown (improvements p))
           ++ section_text (lit "Bug Fixes") (shown (fixes p))
           ++ lit "</Update>" ++ [NL])
  ∧ (includes (lit "breaking change") low = false →
     breaking_description (Some body) = generic_breaking_sentence)
  ∧ (read_in (lit "BREAKING CHANGE") body [] = false →
     breaking_description (Some body) = generic_breaking_sentence)
  ∧ (∀ pre kw ws text rest,
       body = pre ++ kw ++ ws ++ text ++ rest →
       length kw = 15%nat →
       lit_match true (lit "BREAKING CHANGE") kw = true →
       read_in (lit "BREAKING CHANGE") pre kw = false →
       forallb colon_or_space ws = true →
       stops colon_or_space (text ++ rest) = true →
       forallb any_char text = true →
       stops any_char rest = true →
       breaking_description (Some body) = trim text).
Proof.
  cbv zeta. split; [|split; [|split; [|split]]].
  - unfold parseReleaseBody. destruct body as [|c body]; [done|].
    cbn [truthy negb]. rewrite parse_loop_spec. done.
  - intros tag published pre. rename body into b.
    unfold generateUpdateComponent, formatDate, emit_warning. cbv zeta.
    rewrite !emit_section_spec. unfold slice0.
    cbn [body tag_name published_at].
    destruct (breaking (parseReleaseBody (Some b)));
      by rewrite <- ?app_assoc.
  - intros Hno. unfold breaking_description.
    by rewrite (breaking_not_read body (read_in_includes body Hno)).
  - intros Hno. unfold breaking_description.
    by rewrite (breaking_not_read body Hno).
  - intros pre kw ws text rest -> Hlen Hkw Hfirst Hws Hstop Htext Hrest.
    unfold breaking_description.
    by rewrite (breaking_match pre kw ws text rest).
Qed.

End Warning.

Lemma C7_witness :
  let body := breaking_body_marker_line in
  let pre := lit "Release notes" ++ [NL] in
  let kw := lit "breaking change" in
  (length kw = 15%nat ∧ lit_match true (lit "BREAKING CHANGE") kw = true
   ∧ read_in (lit "BREAKING CHANGE") pre kw = false)
  ∧ breaking_description (Some body) = lit "schema changed".
Proof.
  cbv zeta. split; [repeat split|].
  destruct (C7_breaking_description (fun _ => 0) (fun _ => [])
              breaking_body_marker_line) as (_ & _ & _ & _ & H).
  apply (H (lit "Release notes" ++ [NL]) (lit "breaking change") (lit ":  ")
           (lit "schema changed  ") ([NL] ++ lit "* Added new endpoint"));
    reflexivity.
Defined.

(** The body with the line "!!breaking: schema changed" is flagged, and its
    description is the generic sentence. *)
Example breaking_bang_example :
  breaking (parseReleaseBody (Some (lit "!!breaking: schema changed"))) = true
  ∧ breaking_description (Some (lit "!!breaking: schema changed"))
    = generic_breaking_sentence.
Proof. split; vm_compute; reflexivity. Qed.

(** A marker line with nothing behind the colon: the remainder of that
    line is empty, and the code shows the next line instead. *)
Lemma C7_counterexample :
  breaking (parseReleaseBody (Some breaking_body_two_lines)) = true
  ∧ described_breaking_description breaking_body_two_lines = []
  ∧ breaking_description (Some breaking_body_two_lines) = lit "schema changed".
Proof. repeat split; vm_compute; reflexivity. Qed.

(** * The statistics extractor *)

Lemma or_else_first {R} (a b : option R) (x : R) :
  a = Some x → or_else a b = Some x.
Proof. by intros ->. Qed.

Lemma pat_char_eqb_refl (ic : bool) (a : ascii) : pat_char_eqb ic a a = true.
Proof. destruct ic; apply chr_eqb_refl. Qed.

Lemma lit_match_app (ic : bool) (l s : list ascii) : lit_match ic l (l ++ s) = true.
Proof.
  induction l as [|a l IH]; [done|]. cbn [lit_match app].
  by rewrite pat_char_eqb_refl, IH.
Qed.

Lemma rmatch_Lit_app {R} ic l s cap (k : kont R) :
  rmatch ic (Lit l) (l ++ s) cap k = k s cap.
Proof. by rewrite rmatch_Lit, lit_match_app, drop_app_length. Qed.

Lemma rmatch_Chr_same {R} ic c s cap (k : kont R) :
  rmatch ic (Chr c) (c :: s) cap k = k s cap.
Proof. by rewrite rmatch_Chr, pat_char_eqb_refl. Qed.

Section StatPatterns.

Context {R : Type}.
Implicit Types (k : kont R).

Lemma spaces1_one ic rest cap k x :
  stops is_space rest = true → k rest cap = Some x →
  rmatch ic re_spaces1 (" "%char :: rest) cap k = Some x.
Proof.
  intros Hs Hk. by apply (plus_cls_first ic is_space " " [] rest).
Qed.

Lemma spaces0_one ic rest cap k x :
  stops is_space rest = true → k rest cap = Some x →
  rmatch ic re_spaces0 (" "%char :: rest) cap k = Some x.
Proof.
  intros Hs Hk. by apply (star_cls_first ic is_space [" "%char] rest).
Qed.

Lemma opt_s_first ic rest cap k x :
  k rest cap = Some x → rmatch ic opt_s ("s"%char :: rest) cap k = Some x.
Proof.
  intros Hk. unfold opt_s. rewrite rmatch_Opt, rmatch_Chr_same.
  by apply or_else_first.
Qed.

End StatPatterns.

Lemma is_number_head (num rest : list ascii) :
  is_number num = true → stops is_space (num ++ rest) = true.
Proof.
  intros H. apply number_from_false_inv in H as (d & s & -> & Hd & _).
  cbn. destruct d as [[] [] [] [] [] [] [] []]; try done.
Qed.

(** The common tail [\s*:\s*(N)] on [" : " ++ num ++ post]. *)
Lemma value_tail_first (num post : list ascii) (cap : option (list ascii)) :
  is_number num = true → ends_number post = true →
  rmatch true re_value_tail (lit " : " ++ num ++ post) cap
    (fun s' cap' => Some (s', cap'))
  = Some (post, Some num).
Proof.
  intros Hn He. unfold re_value_tail. cbn [Seqs].
  change (lit " : " ++ num ++ post)
    with (" "%char :: ":"%char :: " "%char :: num ++ post).
  rewrite rmatch_Seq. apply spaces0_one; [done|].
  rewrite rmatch_Seq, rmatch_Chr_same, rmatch_Seq.
  apply spaces0_one; [by apply is_number_head|].
  rewrite rmatch_Seq, rmatch_Group.
  apply number_first; [done|done|]. rewrite rmatch_Eps.
  do 3 f_equal. rewrite length_app.
  replace (length num + length post - length post)%nat with (length num) by lia.
  apply take_app_length.
Qed.

Ltac tail_done Hn He :=
  rewrite rmatch_Seq;
  erewrite rmatch_ext; [apply (value_tail_first _ _ _ Hn He)|];
  intros; apply rmatch_Eps.

Section Lines.

Variables (num post : list ascii).
Hypothesis Hn : is_number num = true.
Hypothesis He : ends_number post = true.

Lemma regions_line :
  match_here true pat_regions (stat_line (lit "Regions") num ++ post)
  = Some (post, Some num).
Proof.
  unfold match_here, pat_regions. cbn [Seqs].
  change (stat_line (lit "Regions") num ++ post)
    with (lit "Total" ++ " "%char :: lit "Region" ++ "s"%char
            :: (lit " : " ++ num ++ post)).
  rewrite rmatch_Seq, rmatch_Lit_app, rmatch_Seq.
  apply spaces1_one; [reflexivity|].
  rewrite rmatch_Seq, rmatch_Lit_app, rmatch_Seq. apply opt_s_first.
  tail_done Hn He.
Qed.

Lemma subregions_line :
  match_here true pat_subregions (stat_line (lit "Sub Regions") num ++ post)
  = Some (post, Some num).
Proof.
  unfold match_here, pat_subregions. cbn [Seqs].
  change (stat_line (lit "Sub Regions") num ++ post)
    with (lit "Total" ++ " "%char :: lit "Sub" ++ " "%char :: lit "Region"
            ++ "s"%char :: (lit " : " ++ num ++ post)).
  rewrite rmatch_Seq, rmatch_Lit_app, rmatch_Seq.
  apply spaces1_one; [reflexivity|].
  rewrite rmatch_Seq, rmatch_Lit_app, rmatch_Seq.
  apply spaces1_one; [reflexivity|].
  rewrite rmatch_Seq, rmatch_Lit_app, rmatch_Seq. apply opt_s_first.
  tail_done Hn He.
Qed.

Lemma countries_line :
  match_here true pat_countries (stat_line (lit "Countries") num ++ post)
  = Some (post, Some num).
Proof.
  unfold match_here, pat_countries. cbn [Seqs].
  change (stat_line (lit "Countries") num ++ post)
    with (lit "Total" ++ " "%char :: lit "Countrie" ++ "s"%char
            :: (lit " : " ++ num ++ post)).
  rewrite rmatch_Seq, rmatch_Lit_app, rmatch_Seq.
  apply spaces1_one; [reflexivity|].
  rewrite rmatch_Seq, rmatch_Lit_app, rmatch_Seq. apply opt_s_first.
  tail_done Hn He.
Qed.

Lemma states_line :
  match_here true pat_states
    (stat_line (lit "States/Regions/Municipalities") num ++ post)
  = Some (post, Some num).
Proof.
  unfold match_here, pat_states. cbn [Seqs].
  change (stat_line (lit "States/Regions/Municipalities") num ++ post)
    with (lit "Total" ++ " "%char :: lit "State" ++ "s"%char :: "/"%char
            :: lit "Region" ++ "s"%char :: "/"%char :: lit "Municipalitie"
            ++ "s"%char :: (lit " : " ++ num ++ post)).
  rewrite rmatch_Seq, rmatch_Lit_app, rmatch_Seq.
  apply spaces1_one; [reflexivity|].
  rewrite rmatch_Seq, rmatch_Lit_app, rmatch_Seq. apply opt_s_first.
  rewrite rmatch_Seq, rmatch_Opt. apply or_else_first.
  rewrite rmatch_Seq, rmatch_Chr_same, rmatch_Seq, rmatch_Lit_app, rmatch_Seq.
  apply opt_s_first.
  rewrite rmatch_Seq, rmatch_Chr_same, rmatch_Seq, rmatch_Lit_app, rmatch_Seq.
  apply opt_s_first. rewrite rmatch_Eps.
  tail_done Hn He.
Qed.

Lemma cities_line :
  match_here true pat_cities
    (stat_line (lit "Cities/Towns/Districts") num ++ post)
  = Some (post, Some num).
Proof.
  unfold match_here, pat_cities. cbn [Seqs].
  change (stat_line (lit "Cities/Towns/Districts") num ++ post)
    with (lit "Total" ++ " "%char :: lit "Citie" ++ "s"%char :: "/"%char
            :: lit "Town" ++ "s"%char :: "/"%char :: lit "District"
            ++ "s"%char :: (lit " : " ++ num ++ post)).
  rewrite rmatch_Seq, rmatch_Lit_app, rmatch_Seq.
  apply spaces1_one; [reflexivity|].
  rewrite rmatch_Seq, rmatch_Lit_app, rmatch_Seq. apply opt_s_first.
  rewrite rmatch_Seq, rmatch_Opt. apply or_else_first.
  rewrite rmatch_Seq, rmatch_Chr_same, rmatch_Seq, rmatch_Lit_app, rmatch_Seq.
  apply opt_s_first.
  rewrite rmatch_Seq, rmatch_Chr_same, rmatch_Seq, rmatch_Lit_app, rmatch_Seq.
  apply opt_s_first. rewrite rmatch_Eps.
  tail_done Hn He.
Qed.

End Lines.

Lemma no_match_before_spec ic r (pre b : list ascii) :
  no_match_before ic r (length pre) (pre ++ b) = true →
  ∀ a1 a2, pre = a1 ++ a2 → a2 ≠ [] → match_here ic r (a2 ++ b) = None.
Proof.
  induction pre as [|c pre IH]; intros H a1 a2 Hs Hne.
  - symmetry in Hs. apply app_eq_nil in Hs as [_ ->]. done.
  - cbn [length app no_match_before] in H.
    destruct (match_here ic r (c :: pre ++ b)) eqn:E; [done|].
    destruct a1 as [|c' a1]; cbn in Hs.
    + by subst a2.
    + injection Hs as -> ->. by apply (IH H a1 a2).
Qed.

(** ** [parseInt] on a number text *)

Lemma digit_facts (d : ascii) :
  is_digit d = true →
  is_space d = false ∧ chr_eqb d "-" = false ∧ chr_eqb d "+" = false
  ∧ chr_eqb "x" d = false ∧ chr_eqb "X" d = false ∧ chr_eqb d "," = false
  ∧ digit_value 10 d = Some (Z.of_N (code d) - 48).
Proof. destruct d as [[] [] [] [] [] [] [] []]; intros H; try done. Qed.

Lemma radix_digits_10 (ds : list ascii) :
  forallb is_digit ds = true →
  radix_digits 10 ds = map (fun c => Z.of_N (code c) - 48) ds.
Proof.
  induction ds as [|d ds IH]; intros H; [done|].
  cbn in H. apply andb_true_iff in H as [Hd H].
  cbn [radix_digits map].
  destruct (digit_facts d Hd) as (_ & _ & _ & _ & _ & _ & ->). by rewrite IH.
Qed.

Lemma parseInt_digits (ds : list ascii) :
  ds ≠ [] → forallb is_digit ds = true →
  parseInt ds
  = Num (fold_left (fun acc c => acc * 10 + (Z.of_N (code c) - 48)) ds 0).
Proof.
  intros Hne Hds. destruct ds as [|d ds]; [done|].
  pose proof Hds as Hall.
  cbn in Hds. apply andb_true_iff in Hds as [Hd Hds].
  destruct (digit_facts d Hd) as (Hsp & Hm & Hp & _ & _ & _ & Hv).
  unfold parseInt. cbn [trim_start]. rewrite Hsp, Hm, Hp.
  assert (Hx : starts_with (lit "0x") (d :: ds) || starts_with (lit "0X") (d :: ds)
               = false).
  { destruct ds as [|d2 ds];
      [cbn [starts_with lit list_ascii_of_string]; by rewrite !andb_false_r|].
    cbn in Hds. apply andb_true_iff in Hds as [Hd2 _].
    destruct (digit_facts d2 Hd2) as (_ & _ & _ & Hx1 & Hx2 & _).
    cbn [starts_with lit list_ascii_of_string].
    by rewrite Hx1, Hx2, !andb_false_r. }
  rewrite Hx. rewrite (radix_digits_10 (d :: ds) Hall).
  cbn [map]. f_equal. rewrite Z.mul_1_l.
  change (Z.of_N (code d) - 48 :: map (fun c => Z.of_N (code c) - 48) ds)
    with (map (fun c => Z.of_N (code c) - 48) (d :: ds)).
  generalize (d :: ds) 0. clear. intros l. induction l as [|c l IH]; intros z.
  - done.
  - cbn. apply IH.
Qed.

Lemma remove_commas_digits (b : bool) (num : list ascii) :
  number_from b num = true → forallb is_digit (remove_commas num) = true.
Proof.
  revert b. induction num as [|c num IH]; intros b H; [done|].
  unfold remove_commas in *. rewrite filter_cons. cbn in H.
  destruct (is_digit c) eqn:Hc.
  - destruct (digit_facts c Hc) as (_ & _ & _ & _ & _ & Hcomma & _).
    rewrite decide_True by done. cbn. rewrite Hc. by eapply IH.
  - destruct (chr_eqb c ",") eqn:Hcomma; [|done].
    rewrite decide_False by done.
    apply andb_true_iff in H as [_ H]. by eapply IH.
Qed.

Lemma number_value_spec (b : bool) (num : list ascii) (z : Z) :
  number_from b num = true →
  fold_left (fun acc c => if is_digit c then acc * 10 + (Z.of_N (code c) - 48)
                          else acc) num z
  = fold_left (fun acc c => acc * 10 + (Z.of_N (code c) - 48))
              (remove_commas num) z.
Proof.
  revert b z. induction num as [|c num IH]; intros b z H; [done|].
  unfold remove_commas in *. rewrite filter_cons. cbn in H. cbn [fold_left].
  destruct (is_digit c) eqn:Hc.
  - destruct (digit_facts c Hc) as (_ & _ & _ & _ & _ & Hcomma & _).
    rewrite decide_True by done. cbn [fold_left]. by eapply IH.
  - destruct (chr_eqb c ",") eqn:Hcomma; [|done].
    rewrite decide_False by done.
    apply andb_true_iff in H as [_ H]. by eapply IH.
Qed.

(** The captured number parses to its value, separators stripped. *)
Lemma parseInt_number (num : list ascii) :
  is_number num = true →
  parseInt (remove_commas num) = Num (number_value num).
Proof.
  intros H. rewrite parseInt_digits.
  - unfold number_value. by erewrite number_value_spec.
  - apply number_from_false_inv in H as (d & s & -> & Hd & _).
    unfold remove_commas. rewrite filter_cons.
    destruct (digit_facts d Hd) as (_ & _ & _ & _ & _ & Hcomma & _).
    by rewrite decide_True.
  - by eapply remove_commas_digits.
Qed.

Lemma stat_of_found (pat : regex) (label readme : list ascii)
    (found : option (list ascii * list ascii * list ascii)) :
  (∀ num post, is_number num = true → ends_number post = true →
     match_here true pat (stat_line label num ++ post) = Some (post, Some num)) →
  line_found pat label readme found →
  stat_of pat readme = found_value found.
Proof.
  intros Hline Hfound. unfold stat_of.
  destruct found as [[[pre num] post]|]; cbn in Hfound |- *; [|by rewrite Hfound].
  destruct Hfound as (-> & Hn & _ & He & Hb).
  unfold js_match.
  rewrite (search_from_found true pat 0 pre _ post (Some num)).
  - cbn [m_group default]. by rewrite parseInt_number.
  - by apply no_match_before_spec.
  - by apply Hline.
Qed.

(** C3, amended.  For each of the five labels the README either holds its
    line "Total <Label> : <number>" as the first match of the label's
    pattern, with a number below 2^53, or the pattern matches nowhere.
    The extractor returns the value of the number, separators stripped,
    in the first case and leaves the field unset in the second, whatever
    the other labels do. *)
Theorem C3_statistics (readme : list ascii)
    (f1 f2 f3 f4 f5 : option (list ascii * list ascii * list ascii)) :
  line_found pat_regions (lit "Regions") readme f1 →
  line_found pat_subregions (lit "Sub Regions") readme f2 →
  line_found pat_countries (lit "Countries") readme f3 →
  line_found pat_states (lit "States/Regions/Municipalities") readme f4 →
  line_found pat_cities (lit "Cities/Towns/Districts") readme f5 →
  parseStatistics readme
  = mkStats (found_value f1) (found_value f2) (found_value f3)
            (found_value f4) (found_value f5).
Proof.
  intros H1 H2 H3 H4 H5. unfold parseStatistics.
  rewrite (stat_of_found _ _ _ f1 regions_line H1).
  rewrite (stat_of_found _ _ _ f2 subregions_line H2).
  rewrite (stat_of_found _ _ _ f3 countries_line H3).
  rewrite (stat_of_found _ _ _ f4 states_line H4).
  rewrite (stat_of_found _ _ _ f5 cities_line H5).
  reflexivity.
Qed.

Example number_value_5038 : number_value (lit "5,038") = 5038.
Proof. reflexivity. Qed.

Ltac found_line := cbn [line_found]; repeat split; vm_compute; reflexivity.

Lemma C3_witness :
  parseStatistics readme_insights
  = mkStats (Some (Num 6)) (Some (Num 22)) (Some (Num 250))
            (Some (Num 5038)) (Some (Num 151024)).
Proof.
  apply (C3_statistics readme_insights
    (Some ([], lit "6",
           drop (length (lit "Total Regions : 6")) readme_insights))
    (Some (take 23 readme_insights, lit "22",
           drop (23 + length (lit "Total Sub Regions : 22")) readme_insights))
    (Some (take 51 readme_insights, lit "250",
           drop (51 + length (lit "Total Countries : 250")) readme_insights))
    (Some (take 78 readme_insights, lit "5,038",
           drop (78 + length (lit "Total States/Regions/Municipalities : 5,038"))
                readme_insights))
    (Some (take 127 readme_insights, lit "151,024",
           drop (127 + length (lit "Total Cities/Towns/Districts : 151,024"))
                readme_insights)));
    found_line.
Defined.

(** C3 as stated fails: a README that contains the five lines, and above
    them a sentence that the pattern of the regions matches, gives the
    number of that sentence for the regions, not the 6 of the line. *)
Lemma C3_counterexample :
  (∃ pre post, readme_two_regions = pre ++ readme_insights ++ post)
  ∧ includes (stat_line (lit "Regions") (lit "6") ++ lit " ")
      readme_two_regions = true
  ∧ regions (parseStatistics readme_two_regions) = Some (Num 9)
  ∧ parseStatistics readme_two_regions
    = mkStats (Some (Num 9)) (Some (Num 22)) (Some (Num 250))
              (Some (Num 5038)) (Some (Num 151024)).
Proof.
  split; [|repeat split; vm_compute; reflexivity].
  exists (take 57 readme_two_regions), []. vm_compute. reflexivity.
Qed.

(** A README without the line of the states: that field stays unset, the
    other four are read. *)
Example parse_readme_no_states :
  parseStatistics readme_no_states
  = mkStats (Some (Num 6)) (Some (Num 22)) (Some (Num 250)) None
            (Some (Num 151024)).
Proof. vm_compute. reflexivity. Qed.

(** * The overview rewriter *)

(** ** The three patterns *)

Lemma Matches_Seq_inv ic a b s cap s2 cap2 :
  Matches ic (Seq a b) s cap s2 cap2 →
  ∃ s1 cap1, Matches ic a s cap s1 cap1 ∧ Matches ic b s1 cap1 s2 cap2.
Proof. inversion 1; subst; eauto. Qed.

Lemma Matches_Eps_inv ic s cap s' cap' :
  Matches ic Eps s cap s' cap' → s' = s ∧ cap' = cap.
Proof. by inversion 1. Qed.

Lemma Matches_Lit_false l s cap s' cap' :
  Matches false (Lit l) s cap s' cap' → s = l ++ s' ∧ cap' = cap.
Proof.
  intros H. apply Matches_Lit in H as (Hl & -> & ->).
  rewrite lit_match_false in Hl. apply starts_with_spec in Hl as [b ->].
  by rewrite drop_app_length.
Qed.

Lemma anchor_match (c n rest : list ascii) :
  is_number n = true →
  match_here false (re_anchor c) (anchor_open c ++ n ++ lit "</div>" ++ rest)
  = Some (rest, None).
Proof.
  intros Hn. unfold match_here, re_anchor. cbn [Seqs].
  rewrite rmatch_Seq, rmatch_Lit_app, rmatch_Seq.
  apply number_first; [done|reflexivity|].
  by rewrite rmatch_Seq, rmatch_Lit_app, rmatch_Eps.
Qed.

Lemma anchor_match_inv (c s rest : list ascii) (cap : option (list ascii)) :
  match_here false (re_anchor c) s = Some (rest, cap) →
  ∃ n, s = anchor_open c ++ n ++ lit "</div>" ++ rest ∧ is_number n = true.
Proof.
  intros H. apply match_here_Matches in H. unfold re_anchor in H.
  cbn [Seqs] in H.
  apply Matches_Seq_inv in H as (s1 & c1 & H1 & H).
  apply Matches_Seq_inv in H as (s2 & c2 & H2 & H).
  apply Matches_Seq_inv in H as (s3 & c3 & H3 & H).
  apply Matches_Eps_inv in H as [-> ->].
  apply Matches_Lit_false in H1 as [-> ->].
  apply Matches_number in H2 as (n & -> & Hn & ->).
  apply Matches_Lit_false in H3 as [-> ->]. eauto.
Qed.

(** A match of an anchor does not look past its text. *)
Lemma anchor_match_local (c w rest rest' : list ascii) cap :
  match_here false (re_anchor c) (w ++ rest) = Some (rest, cap) →
  is_anchor_text c w
  ∧ match_here false (re_anchor c) (w ++ rest') = Some (rest', None).
Proof.
  intros H. apply anchor_match_inv in H as (n & Hs & Hn).
  assert (w = anchor_open c ++ n ++ lit "</div>") as ->.
  { rewrite !app_assoc in Hs. apply app_inv_tail in Hs.
    by rewrite <- !app_assoc in Hs. }
  split; [by exists n|]. rewrite <- !app_assoc. by apply anchor_match.
Qed.

Lemma last_updated_match (body rest : list ascii) :
  body ≠ [] → forallb not_lt_sign body = true →
  stops not_lt_sign rest = true →
  match_here false re_last_updated (LAST_UPDATED ++ body ++ rest)
  = Some (rest, None).
Proof.
  intros Hne Hb Hr. unfold match_here, re_last_updated.
  rewrite rmatch_Seq. fold LAST_UPDATED. rewrite rmatch_Lit_app.
  destruct body as [|c body]; [done|].
  cbn in Hb. apply andb_true_iff in Hb as [Hc Hb].
  by apply plus_cls_first.
Qed.

Lemma last_updated_match_inv (s rest : list ascii) cap :
  match_here false re_last_updated s = Some (rest, cap) →
  ∃ body, s = LAST_UPDATED ++ body ++ rest ∧ body ≠ []
          ∧ forallb not_lt_sign body = true
          ∧ stops not_lt_sign rest = true.
Proof.
  intros H. pose proof H as H0.
  apply match_here_Matches in H. unfold re_last_updated in H.
  apply Matches_Seq_inv in H as (s1 & c1 & H1 & H).
  apply Matches_Lit_false in H1 as [-> ->].
  apply Matches_plus_cls in H as (c & w & -> & Hc & Hw & ->).
  destruct (span_class not_lt_sign rest) as (run & rest0 & -> & Hrun & Hstop).
  assert (Hm : match_here false re_last_updated
                 (LAST_UPDATED ++ (c :: w ++ run) ++ rest0)
               = Some (rest0, None)).
  { apply last_updated_match; [done| |done].
    cbn. by rewrite Hc, forallb_app, Hw, Hrun. }
  fold LAST_UPDATED in H0.
  replace (LAST_UPDATED ++ (c :: w ++ run) ++ rest0)
    with (LAST_UPDATED ++ c :: w ++ run ++ rest0) in Hm
    by (cbn; by rewrite <- !app_assoc).
  rewrite Hm in H0.
  assert (Hrest : rest0 = run ++ rest0) by congruence.
  apply (f_equal length) in Hrest. rewrite length_app in Hrest.
  destruct run; [|cbn in Hrest; lia].
  exists (c :: w). cbn. split; [done|]. split; [done|]. by rewrite Hc, Hw.
Qed.

Lemma description_match_inv (s rest : list ascii) cap :
  match_here false re_description s = Some (rest, cap) →
  ∃ w, s = w ++ rest ∧ is_description_line w.
Proof.
  intros H. apply match_here_Matches in H. unfold re_description in H.
  cbn [Seqs] in H.
  apply Matches_Seq_inv in H as (s1 & c1 & H1 & H).
  apply Matches_Seq_inv in H as (s2 & c2 & H2 & H).
  apply Matches_Seq_inv in H as (s3 & c3 & H3 & H).
  apply Matches_Seq_inv in H as (s4 & c4 & H4 & H).
  apply Matches_Seq_inv in H as (s5 & c5 & H5 & H).
  apply Matches_Seq_inv in H as (s6 & c6 & H6 & H).
  apply Matches_Seq_inv in H as (s7 & c7 & H7 & H).
  apply Matches_Eps_inv in H as [-> ->].
  apply Matches_Lit_false in H1 as [-> ->].
  apply Matches_plus_cls in H2 as (x1 & w1 & -> & Hx1 & Hw1 & ->).
  apply Matches_Lit_false in H3 as [-> ->].
  apply Matches_plus_cls in H4 as (x2 & w2 & -> & Hx2 & Hw2 & ->).
  apply Matches_Lit_false in H5 as [-> ->].
  apply Matches_plus_cls in H6 as (x3 & w3 & -> & Hx3 & Hw3 & ->).
  apply Matches_Lit_false in H7 as [-> ->].
  exists (desc_head ++ (x1 :: w1) ++ lit "+ countries, " ++ (x2 :: w2)
            ++ lit "+ states, and " ++ (x3 :: w3) ++ lit "+" ++ desc_tail).
  split.
  - repeat first [rewrite <- app_assoc | rewrite <- app_comm_cons].
    reflexivity.
  - exists (x1 :: w1), (x2 :: w2), (x3 :: w3). cbn [forallb].
    rewrite Hx1, Hw1, Hx2, Hw2, Hx3, Hw3. done.
Qed.

(** ** The characters of the texts *)

Lemma forallb_impl {A} (P Q : A → bool) (l : list A) :
  (∀ x, P x = true → Q x = true) → forallb P l = true → forallb Q l = true.
Proof.
  intros H. induction l as [|x l IH]; [done|]. cbn.
  rewrite !andb_true_iff. intros [Hx Hl]. auto.
Qed.

Lemma forallb_elem {A} (P : A → bool) (l l1 l2 : list A) (x : A) :
  forallb P l = true → l = l1 ++ x :: l2 → P x = true.
Proof.
  intros H ->. rewrite forallb_app in H. cbn in H.
  apply andb_true_iff in H as [_ H]. by apply andb_true_iff in H as [H _].
Qed.

Lemma number_forall (P : ascii → bool) (b : bool) (n : list ascii) :
  (∀ c, is_digit c || chr_eqb c "," = true → P c = true) →
  number_from b n = true → forallb P n = true.
Proof.
  intros HP Hn. eapply forallb_impl; [|by eapply number_chars]. done.
Qed.

Lemma digit_or_comma_plain (c : ascii) :
  is_digit c || chr_eqb c "," = true →
  no_Lh c = true ∧ not_lt_sign c = true ∧ no_lt_L c = true
  ∧ no_lt_DQ c = true.
Proof. destruct c as [[] [] [] [] [] [] [] []]; intros H; try done. Qed.

Lemma digits_plain (P : ascii → bool) (ds : list ascii) :
  (∀ c, is_digit c || chr_eqb c "," = true → P c = true) →
  forallb is_digit ds = true → forallb P ds = true.
Proof.
  intros HP. apply forallb_impl. intros c Hc. apply HP. by rewrite Hc.
Qed.

(** An anchor text is "<d", a stretch without "<", and "</div>"; it holds
    neither "L" nor "h". *)
Lemma anchor_text_shape (c w : list ascii) :
  is_colour c → is_anchor_text c w →
  ∃ X, w = "<"%char :: "d"%char :: X ++ lit "</div>"
       ∧ forallb not_lt_sign X = true
       ∧ forallb no_Lh w = true.
Proof.
  intros Hc (n & -> & Hn).
  assert (Hn1 : forallb not_lt_sign n = true).
  { eapply number_forall; [|exact Hn]. intros ch H.
    by destruct (digit_or_comma_plain ch H) as (_ & ? & _). }
  assert (Hn2 : forallb no_Lh n = true).
  { eapply number_forall; [|exact Hn]. intros ch H.
    by destruct (digit_or_comma_plain ch H) as (? & _). }
  exists (drop 2 (anchor_open c) ++ n). split; [|split].
  - rewrite <- app_assoc.
    destruct Hc as [->|[->|[->|[->| ->]]]]; reflexivity.
  - rewrite forallb_app, Hn1, andb_true_r.
    destruct Hc as [->|[->|[->|[->| ->]]]]; reflexivity.
  - rewrite !forallb_app, Hn2.
    destruct Hc as [->|[->|[->|[->| ->]]]]; reflexivity.
Qed.

Lemma anchor_open_distinct (ci cj X Y : list ascii) :
  is_colour ci → is_colour cj →
  anchor_open ci ++ X = anchor_open cj ++ Y → ci = cj.
Proof.
  intros Hi Hj H.
  destruct Hi as [->|[->|[->|[->| ->]]]];
    destruct Hj as [->|[->|[->|[->| ->]]]]; try reflexivity;
    exfalso; apply (f_equal (take 41)) in H; vm_compute in H; discriminate.
Qed.

(** A proper end of an anchor text that begins with "<" is "</div>". *)
Lemma bracket_suffix (X w1 l : list ascii) (q0 : ascii) :
  forallb not_lt_sign X = true →
  q0 :: X ++ lit "</div>" = w1 ++ l →
  w1 ≠ [] → head l = Some "<"%char → l = lit "</div>".
Proof.
  intros HX Hw Hw1 Hl.
  destruct w1 as [|c w1]; [done|]. injection Hw as _ Hw.
  apply app_eq_app in Hw as [t [[-> ->]|[-> Ht]]].
  - destruct t as [|c' t]; [done|]. cbn in Hl. injection Hl as ->.
    rewrite !forallb_app in HX. cbn in HX.
    by rewrite andb_false_r in HX.
  - destruct t as [|t0 t]; [cbn in Ht; by subst l|].
    exfalso. cbn in Ht. injection Ht as _ Ht.
    do 5 (destruct t as [|? t];
          [cbn in Ht; subst l; cbn in Hl; discriminate|];
          cbn in Ht; injection Ht as _ Ht).
    destruct t; [|done]. cbn in Ht. subst l. done.
Qed.

(** ** Anchors keep clear of the other texts *)

Lemma starts_with_head (c0 : ascii) (p l q : list ascii) :
  starts_with (c0 :: p) (l ++ q) = true → l ≠ [] → head l = Some c0.
Proof.
  intros H Hl. destruct l as [|l0 l]; [done|].
  cbn [app starts_with] in H. apply andb_true_iff in H as [H _].
  apply chr_eqb_eq in H. by subst l0.
Qed.

(** No anchor text ends inside the beginning of a text that the rewriter
    puts in or takes out. *)
Lemma anchor_no_straddle (c w w1 l q : list ascii) :
  is_colour c → is_anchor_text c w →
  w = w1 ++ l → w1 ≠ [] → l ≠ [] →
  block_start (l ++ q) = true → False.
Proof.
  intros Hc Hw Hsplit Hw1 Hl Hb.
  destruct (anchor_text_shape c w Hc Hw) as (X & HwX & HX & Hplain).
  unfold block_start in Hb. apply orb_true_iff in Hb as [Hb|Hb];
    [apply orb_true_iff in Hb as [Hb|Hb]|].
  - assert (l = lit "</div>") as ->.
    { apply (bracket_suffix ("d"%char :: X) w1 l "<").
      - done.
      - by rewrite <- Hsplit, HwX.
      - done.
      - by apply (starts_with_head _ _ _ _ Hb). }
    done.
  - apply (starts_with_head "L" [] l q) in Hb; [|done].
    destruct l as [|l0 l]; [done|]. injection Hb as ->.
    by pose proof (forallb_elem _ _ _ _ _ Hplain Hsplit).
  - apply starts_with_spec in Hb as [b Hb].
    destruct (exists_last Hl) as (l' & y & ->).
    assert (y = ">"%char) as ->.
    { rewrite HwX in Hsplit.
      change ("<"%char :: "d"%char :: X ++ lit "</div>")
        with (("<"%char :: "d"%char :: X) ++ lit "</div>") in Hsplit.
      change (lit "</div>") with (lit "</div" ++ [">"%char]) in Hsplit.
      rewrite !app_assoc in Hsplit. by apply app_inj_tail in Hsplit as [_ ?]. }
    apply app_eq_app in Hb as [t [[Hl' ->]|[Hd ->]]].
    + assert (Hh : ∃ p1 p2, desc_head = p1 ++ "h"%char :: p2).
      { exists (take 30 desc_head), (drop 31 desc_head). reflexivity. }
      destruct Hh as (p1 & p2 & Hh). rewrite Hh in Hl'.
      rewrite Hl', <- !app_assoc in Hsplit. cbn [app] in Hsplit.
      rewrite app_assoc in Hsplit.
      by pose proof (forallb_elem _ _ _ _ _ Hplain Hsplit).
    + assert (Hgt : forallb (fun ch => negb (chr_eqb ch ">")) desc_head = true)
        by reflexivity.
      rewrite <- app_assoc in Hd. cbn [app] in Hd.
      by pose proof (forallb_elem _ _ _ _ _ Hgt Hd).
Qed.

(** A match of an anchor that starts before such a text ends before it. *)
Lemma anchor_within (c a2 z rest y : list ascii) cap :
  is_colour c → a2 ≠ [] → block_start (z ++ rest) = true →
  match_here false (re_anchor c) (a2 ++ z ++ rest) = Some (y, cap) →
  ∃ w t, a2 = w ++ t ∧ y = t ++ z ++ rest ∧ is_anchor_text c w.
Proof.
  intros Hc Ha2 Hb H. apply anchor_match_inv in H as (n & Hs & Hn).
  set (w := anchor_open c ++ n ++ lit "</div>").
  assert (Hw : is_anchor_text c w) by (by exists n).
  assert (Hs' : a2 ++ z ++ rest = w ++ y)
    by (by rewrite Hs; unfold w; rewrite <- !app_assoc).
  apply app_eq_app in Hs' as [t [[-> ->]|[Hwt Hz]]].
  - by exists w, t.
  - destruct t as [|t0 t].
    + rewrite app_nil_r in Hwt. cbn in Hz. subst y. exists w, [].
      by rewrite app_nil_r.
    + exfalso. rewrite Hz in Hb.
      by apply (anchor_no_straddle c w a2 (t0 :: t) y).
Qed.

(** No anchor starts inside a text without "<". *)
Lemma anchor_not_inside (c z z1 z2 rest : list ascii) :
  forallb not_lt_sign z = true → z = z1 ++ z2 → z2 ≠ [] →
  match_here false (re_anchor c) (z2 ++ rest) = None.
Proof.
  intros Hz -> Hz2.
  destruct (match_here false (re_anchor c) (z2 ++ rest)) as [[y cap]|] eqn:E;
    [exfalso|done].
  apply anchor_match_inv in E as (n & Hs & _).
  destruct z2 as [|z0 z2]; [done|].
  assert (z0 = "<"%char) as -> by (by injection Hs).
  rewrite forallb_app in Hz. cbn in Hz. by rewrite andb_false_r in Hz.
Qed.

(** No anchor starts inside the anchor text of another colour, nor at a
    later place than its start inside the one of its own colour. *)
Lemma anchor_not_inside_anchor (ci cj z z1 z2 rest : list ascii) :
  is_colour ci → is_colour cj → is_anchor_text cj z →
  z = z1 ++ z2 → z2 ≠ [] → (z1 ≠ [] ∨ ci ≠ cj) →
  match_here false (re_anchor ci) (z2 ++ rest) = None.
Proof.
  intros Hi Hj Hz Hsplit Hz2 Hor.
  destruct (match_here false (re_anchor ci) (z2 ++ rest)) as [[y cap]|] eqn:E;
    [exfalso|done].
  apply anchor_match_inv in E as (n & Hs & _).
  destruct z1 as [|z0 z1].
  - destruct Hor as [?|Hne]; [done|]. apply Hne.
    destruct Hz as (n' & Hz & _). cbn in Hsplit. subst z2.
    rewrite Hz, <- !app_assoc in Hs. symmetry in Hs.
    by apply anchor_open_distinct in Hs.
  - destruct (anchor_text_shape cj z Hj Hz) as (X & HzX & HX & _).
    assert (z2 = lit "</div>") as ->.
    { apply (bracket_suffix ("d"%char :: X) (z0 :: z1) z2 "<").
      - done.
      - by rewrite <- Hsplit, HzX.
      - done.
      - destruct z2 as [|c0 z2]; [done|]. cbn.
        assert (anchor_open ci = "<"%char :: drop 1 (anchor_open ci)) as Ho
          by reflexivity.
        rewrite Ho in Hs. by injection Hs as ->. }
    assert (anchor_open ci = "<"%char :: "d"%char :: drop 2 (anchor_open ci))
      as Ho by reflexivity.
    rewrite Ho in Hs. done.
Qed.

(** ** A replacement elsewhere keeps a pattern's own replacement in place *)

Lemma suffix_cases {A} (a v rest p b : list A) :
  a ++ v ++ rest = p ++ b →
  (∃ a2, a = p ++ a2 ∧ a2 ≠ [] ∧ b = a2 ++ v ++ rest)
  ∨ (∃ v1 v2, p = a ++ v1 ∧ v = v1 ++ v2 ∧ v2 ≠ [] ∧ b = v2 ++ rest)
  ∨ (∃ r1, p = a ++ v ++ r1 ∧ rest = r1 ++ b).
Proof.
  intros H. apply app_eq_app in H as [t [[-> ->]|[-> H]]].
  - destruct t as [|t0 t].
    + destruct v as [|v0 v].
      * right. right. exists []. by rewrite !app_nil_r.
      * right. left. exists [], (v0 :: v). by rewrite !app_nil_r.
    + left. by exists (t0 :: t).
  - apply app_eq_app in H as [t2 [[-> ->]|[-> ->]]].
    + destruct t2 as [|t0 t2].
      * right. right. exists []. by rewrite !app_nil_r.
      * right. left. by exists t, (t0 :: t2).
    + right. right. by exists t2.
Qed.

Section Edit.

Variables (ic : bool) (r : regex) (xx a u v rest : list ascii).

Hypothesis Hu : u ≠ [].
Hypothesis E : ∀ a1 a2, a = a1 ++ a2 → a2 ≠ [] →
  match_here ic r (a2 ++ u ++ rest) = None →
  match_here ic r (a2 ++ v ++ rest) = None.
Hypothesis B2u : ∀ u1 u2, u = u1 ++ u2 → u2 ≠ [] →
  match_here ic r (u2 ++ rest) = None.
Hypothesis B2v : ∀ v1 v2, v = v1 ++ v2 → v2 ≠ [] →
  match_here ic r (v2 ++ rest) = None.
Hypothesis Loc : ∀ x a2 y cap, a = x ++ a2 → a2 ≠ [] →
  a2 ++ u ++ rest = xx ++ y →
  match_here ic r (xx ++ y) = Some (y, cap) →
  ∃ t cap', a2 = xx ++ t
            ∧ match_here ic r (xx ++ t ++ v ++ rest)
              = Some (t ++ v ++ rest, cap').

Lemma edit_no_match :
  no_match ic r (a ++ u ++ rest) → no_match ic r (a ++ v ++ rest).
Proof.
  intros Hno p b H.
  apply suffix_cases in H
    as [(a2 & -> & Ha2 & ->)|[(v1 & v2 & -> & -> & Hv2 & ->)|(r1 & -> & ->)]].
  - apply (E p a2); [done|done|]. apply (Hno p). by rewrite <- app_assoc.
  - by apply (B2v v1 v2).
  - apply (Hno (a ++ u ++ r1)). by rewrite <- !app_assoc.
Qed.

(** If the pattern's first match is already the text [xx] (or it has no
    match), this is so after [u] was replaced by [v] too. *)
Lemma edit_keeps_fixed :
  js_replace ic r xx (a ++ u ++ rest) = a ++ u ++ rest →
  js_replace ic r xx (a ++ v ++ rest) = a ++ v ++ rest.
Proof.
  intros Hfix.
  destruct (js_replace_cases ic r xx (a ++ u ++ rest))
    as [[Hno _]|(x & w & y & Hf & Hrep)].
  { apply js_replace_no_match. by apply edit_no_match. }
  destruct Hf as (Hs & [cap Hm] & Hearly).
  assert (w = xx) as ->.
  { rewrite Hfix, Hs in Hrep. apply app_inv_head in Hrep.
    by apply app_inv_tail in Hrep. }
  apply suffix_cases in Hs
    as [(a2 & Ha & Ha2 & Hb)|[(u1 & u2 & -> & -> & Hu2 & Hb)|(r1 & -> & Hr)]].
  - destruct (Loc x a2 y cap Ha Ha2 (eq_sym Hb) Hm) as (t & cap' & -> & Hm').
    rewrite <- !app_assoc in Hb. apply app_inv_head in Hb. subst y.
    rewrite Ha. rewrite <- !app_assoc.
    apply (js_replace_first ic r xx _ x xx (t ++ v ++ rest)).
    split; [done|]. split; [by eauto|].
    intros x1 x2 -> Hx2.
    replace (x2 ++ xx ++ t ++ v ++ rest) with ((x2 ++ xx ++ t) ++ v ++ rest)
      by (by rewrite <- !app_assoc).
    apply (E x1); [by rewrite Ha, <- !app_assoc|by destruct x2|].
    rewrite <- !app_assoc. by apply (Hearly x1).
  - rewrite Hb in Hm. by rewrite (B2u u1 u2) in Hm.
  - subst rest.
    replace (a ++ v ++ r1 ++ xx ++ y) with ((a ++ v ++ r1) ++ xx ++ y)
      by (by rewrite <- !app_assoc).
    apply (js_replace_first ic r xx _ (a ++ v ++ r1) xx y).
    split; [done|]. split; [by eauto|].
    intros p1 p2 Hp Hp2.
    apply suffix_cases in Hp
      as [(a2 & -> & Ha2 & ->)|[(v1 & v2 & -> & -> & Hv2 & ->)|(r1' & -> & ->)]].
    + rewrite <- !app_assoc. apply (E p1); [done|done|].
      replace (a2 ++ u ++ r1 ++ xx ++ y) with ((a2 ++ u ++ r1) ++ xx ++ y)
        by (by rewrite <- !app_assoc).
      apply (Hearly p1); [by rewrite <- !app_assoc|by destruct a2].
    + rewrite <- !app_assoc. by apply (B2v v1 v2).
    + apply (Hearly (a ++ u ++ r1')); [by rewrite <- !app_assoc|done].
Qed.

End Edit.

(** ** The texts the rewriter writes *)

Lemma string_of_uint_digits (d : Decimal.uint) :
  forallb is_digit (lit (NilEmpty.string_of_uint d)) = true.
Proof. induction d; cbn; try done. Qed.

Lemma show_N_digits (n : N) :
  forallb is_digit (show_N n) = true ∧ show_N n ≠ [].
Proof.
  unfold show_N, NilZero.string_of_uint.
  destruct (N.to_uint n) eqn:E; try done;
    (split; [rewrite <- E; apply string_of_uint_digits|done]).
Qed.

Lemma group3_number (b : bool) (ds : list ascii) :
  forallb is_digit ds = true → ds ≠ [] →
  number_from b (group3 ds) = true.
Proof.
  revert b. induction ds as [|d ds IH]; intros b Hds Hne; [done|].
  cbn in Hds. apply andb_true_iff in Hds as [Hd Hds].
  cbn [group3].
  destruct ((length ds mod 3 =? 0) && (0 <? length ds))%nat eqn:E.
  - cbn [number_from]. rewrite Hd. cbn. apply IH; [done|].
    apply andb_true_iff in E as [_ E]. apply Nat.ltb_lt in E.
    destruct ds; [cbn in E; lia|done].
  - cbn [number_from]. rewrite Hd.
    destruct ds as [|d' ds]; [done|]. by apply IH.
Qed.

Lemma en_US_number_ok (num : jsnum) :
  stat_ok (Some num) → is_number (en_US_number num) = true.
Proof.
  destruct num as [|z]; [done|]. cbn. intros Hz.
  rewrite (proj2 (Z.ltb_ge z 0)) by lia.
  destruct (show_N_digits (Z.abs_N z)). by apply group3_number.
Qed.

Lemma anchor_text_ok {L : NumberFormat} (c : list ascii) (num : jsnum) :
  is_number (formatNumber num) = true → is_anchor_text c (anchor_text c num).
Proof. intros H. by exists (formatNumber num). Qed.

Lemma anchor_text_block (c : list ascii) (w rest : list ascii) :
  is_colour c → is_anchor_text c w → block_start (w ++ rest) = true.
Proof.
  intros Hc Hw. destruct (anchor_text_shape c w Hc Hw) as (X & -> & _).
  reflexivity.
Qed.

Lemma getCurrentDate_plain (now : Today) :
  getCurrentDate now ≠ []
  ∧ forallb no_lt_DQ (getCurrentDate now) = true.
Proof.
  unfold getCurrentDate. cbv zeta.
  destruct (show_N_digits (today_day now)) as [Hd Hdn].
  destruct (show_N_digits (today_year now)) as [Hy _].
  split; [by destruct (show_N (today_day now))|].
  assert (Hplain : ∀ ds, forallb is_digit ds = true
                         → forallb no_lt_DQ ds = true).
  { intros ds. apply digits_plain. intros c Hc.
    by destruct (digit_or_comma_plain c Hc) as (_ & _ & _ & ?). }
  rewrite !forallb_app, (Hplain _ Hd), (Hplain _ Hy).
  set (k := N.to_nat _).
  assert (forallb no_lt_DQ (nth k [lit "th"; lit "st"; lit "nd"; lit "rd"] [])
          = true) as ->.
  { do 5 (destruct k as [|k]; [reflexivity|]). by destruct k. }
  by destruct (today_month now).
Qed.

Lemma js_to_string_plain (x : jsnum) :
  forallb no_lt_L (js_to_string x) = true.
Proof.
  assert (Hplain : ∀ ds, forallb is_digit ds = true
                         → forallb no_lt_L ds = true).
  { intros ds. apply digits_plain. intros c Hc.
    by destruct (digit_or_comma_plain c Hc) as (_ & _ & ? & _). }
  destruct x as [|z]; [done|]. cbn. unfold show_Z.
  destruct (show_N_digits (Z.abs_N z)) as [Hd _].
  destruct (z <? 0); [cbn|]; by rewrite Hplain.
Qed.

(** Both the text that the description pattern matches and the text that
    replaces it begin with the same head and hold neither "<" nor "L". *)
Lemma description_line_plain (w : list ascii) :
  is_description_line w →
  (∃ w', w = desc_head ++ w') ∧ forallb no_lt_L w = true.
Proof.
  intros (d1 & d2 & d3 & -> & H1 & _ & H2 & _ & H3 & _).
  split; [by eauto|].
  assert (Hplain : ∀ ds, forallb is_digit ds = true
                         → forallb no_lt_L ds = true).
  { intros ds. apply digits_plain. intros c Hc.
    by destruct (digit_or_comma_plain c Hc) as (_ & _ & ? & _). }
  rewrite !forallb_app, (Hplain _ H1), (Hplain _ H2), (Hplain _ H3).
  reflexivity.
Qed.

Lemma description_text_plain (c s t : jsnum) :
  (∃ w', description_text c s t = desc_head ++ w')
  ∧ forallb no_lt_L (description_text c s t) = true.
Proof.
  unfold description_text. cbv zeta. split; [by eauto|].
  rewrite !forallb_app, !js_to_string_plain. reflexivity.
Qed.

(** ** Anchors under a replacement elsewhere *)

Lemma anchor_keeps_fixed (ci xx a u v rest : list ascii) :
  is_colour ci → u ≠ [] →
  block_start (u ++ rest) = true → block_start (v ++ rest) = true →
  (∀ u1 u2, u = u1 ++ u2 → u2 ≠ [] →
     match_here false (re_anchor ci) (u2 ++ rest) = None) →
  (∀ v1 v2, v = v1 ++ v2 → v2 ≠ [] →
     match_here false (re_anchor ci) (v2 ++ rest) = None) →
  js_replace false (re_anchor ci) xx (a ++ u ++ rest) = a ++ u ++ rest →
  js_replace false (re_anchor ci) xx (a ++ v ++ rest) = a ++ v ++ rest.
Proof.
  intros Hc Hu Hbu Hbv B2u B2v.
  apply (edit_keeps_fixed false (re_anchor ci) xx a u v rest); try done.
  - intros a1 a2 Ha Ha2 Hnone.
    destruct (match_here false (re_anchor ci) (a2 ++ v ++ rest))
      as [[y cap]|] eqn:Em; [exfalso|done].
    apply anchor_within in Em as (w & t & -> & -> & (n & -> & Hn)); try done.
    rewrite <- !app_assoc in Hnone. by rewrite anchor_match in Hnone.
  - intros x a2 y cap Ha Ha2 Heq Hm. rewrite <- Heq in Hm.
    apply anchor_within in Hm as (w & t & -> & Hy & (n & -> & Hn)); try done.
    rewrite Hy, <- !app_assoc in Heq.
    assert (xx = anchor_open ci ++ n ++ lit "</div>") as ->.
    { rewrite !app_assoc in Heq. apply app_inv_tail in Heq.
      apply app_inv_tail in Heq. apply app_inv_tail in Heq.
      rewrite <- !app_assoc in Heq. done. }
    exists t, None. split; [done|]. rewrite <- !app_assoc. by apply anchor_match.
Qed.

(** Replacing an anchor twice is replacing it once. *)
Lemma anchor_self_fixed (ci v s : list ascii) :
  is_colour ci → is_anchor_text ci v →
  js_replace false (re_anchor ci) v (js_replace false (re_anchor ci) v s)
  = js_replace false (re_anchor ci) v s.
Proof.
  intros Hc Hv.
  destruct (js_replace_cases false (re_anchor ci) v s)
    as [[Hno Hrep]|(a & w & rest & Hf & Hrep)]; rewrite Hrep; [done|].
  destruct Hf as (-> & [cap Hm] & Hearly).
  apply (js_replace_first false (re_anchor ci) v _ a v rest).
  split; [done|]. split.
  - destruct Hv as (n & -> & Hn). exists None. rewrite <- !app_assoc.
    by apply anchor_match.
  - intros a1 a2 -> Ha2.
    destruct (match_here false (re_anchor ci) (a2 ++ v ++ rest))
      as [[y cap']|] eqn:Em; [exfalso|done].
    apply anchor_within in Em as (w' & t & -> & -> & (n & -> & Hn)); try done.
    + specialize (Hearly a1 _ eq_refl Ha2).
      rewrite <- !app_assoc in Hearly. by rewrite anchor_match in Hearly.
    + by apply (anchor_text_block ci).
Qed.

(** ** The date line *)

Lemma date_match_iff (z : list ascii) :
  match_here false re_last_updated z = None ↔ date_starts z = false.
Proof.
  split.
  - intros Hnone. destruct (date_starts z) eqn:E; [exfalso|done].
    unfold date_starts in E. apply andb_true_iff in E as [Hl Hn].
    apply starts_with_spec in Hl as [b ->].
    change (length LAST_UPDATED) with 14%nat in *.
    rewrite (drop_app_length' LAST_UPDATED b 14) in Hn by done.
    destruct b as [|c b]; [done|]. cbn in Hn.
    rewrite negb_involutive in Hn.
    destruct (span_class not_lt_sign b) as (run & rest & -> & Hrun & Hstop).
    change (LAST_UPDATED ++ c :: run ++ rest)
      with (LAST_UPDATED ++ (c :: run) ++ rest) in Hnone.
    rewrite (last_updated_match (c :: run) rest) in Hnone; try done.
    cbn. by rewrite Hn, Hrun.
  - intros E.
    destruct (match_here false re_last_updated z) as [[rest cap]|] eqn:Em;
      [exfalso|done].
    apply last_updated_match_inv in Em as (body & -> & Hne & Hb & _).
    unfold date_starts in E. rewrite starts_with_app in E.
    rewrite (drop_app_length' LAST_UPDATED _ 14) in E by done.
    destruct body as [|c body]; [done|]. cbn in Hb, E.
    apply andb_true_iff in Hb as [Hc _]. by rewrite Hc in E.
Qed.

Lemma starts_with_take (p z : list ascii) (k : nat) :
  (length p ≤ k)%nat → starts_with p (take k z) = starts_with p z.
Proof.
  revert z k. induction p as [|a p IH]; intros z k Hk; [done|].
  destruct z as [|b z]; [by rewrite take_nil|].
  destruct k as [|k]; [cbn in Hk; lia|]. cbn [take starts_with].
  rewrite IH; [done|]. cbn in Hk. lia.
Qed.

(** Whether the date pattern matches depends on fifteen characters. *)
Lemma date_starts_window (z : list ascii) :
  date_starts z = date_starts (take 15 z).
Proof.
  unfold date_starts.
  rewrite starts_with_take
    by (change (length LAST_UPDATED) with 14%nat; lia).
  f_equal. f_equal.
  rewrite (skipn_firstn_comm 14 15 z). change (15 - 14)%nat with 1%nat.
  by destruct (drop 14 z).
Qed.

Lemma date_window_eq (a2 h X Y : list ascii) :
  (15 ≤ length (a2 ++ h))%nat →
  date_starts (a2 ++ h ++ X) = date_starts (a2 ++ h ++ Y).
Proof.
  intros Hlen. rewrite (date_starts_window (a2 ++ h ++ X)).
  rewrite (date_starts_window (a2 ++ h ++ Y)).
  rewrite !(app_assoc a2 h).
  by rewrite (take_app_le (a2 ++ h) X 15 Hlen), (take_app_le (a2 ++ h) Y 15 Hlen).
Qed.

Lemma date_not_inside (z z1 z2 rest : list ascii) :
  forallb no_lt_L z = true → z = z1 ++ z2 → z2 ≠ [] →
  match_here false re_last_updated (z2 ++ rest) = None.
Proof.
  intros Hz -> Hz2. apply date_match_iff. unfold date_starts.
  destruct z2 as [|c z2]; [done|].
  rewrite forallb_app in Hz. cbn in Hz.
  apply andb_true_iff in Hz as [_ Hz]. apply andb_true_iff in Hz as [Hc _].
  unfold no_lt_L in Hc. apply andb_true_iff in Hc as [_ Hc].
  apply negb_true_iff, chr_eqb_neq in Hc.
  cbn [app starts_with LAST_UPDATED lit list_ascii_of_string].
  destruct (chr_eqb "L" c) eqn:E; [|done].
  apply chr_eqb_eq in E. by subst c.
Qed.

(** Replacing the date line twice is replacing it once. *)
Lemma date_self_fixed (date s : list ascii) :
  date ≠ [] → forallb not_lt_sign date = true →
  js_replace false re_last_updated (LAST_UPDATED ++ date)
    (js_replace false re_last_updated (LAST_UPDATED ++ date) s)
  = js_replace false re_last_updated (LAST_UPDATED ++ date) s.
Proof.
  intros Hne Hd.
  destruct (js_replace_cases false re_last_updated (LAST_UPDATED ++ date) s)
    as [[Hno Hrep]|(a & w & rest & Hf & Hrep)]; rewrite Hrep; [done|].
  destruct Hf as (-> & [cap Hm] & Hearly).
  pose proof Hm as Hm0.
  apply last_updated_match_inv in Hm as (body & Hw & Hb & Hbody & Hstop).
  assert (w = LAST_UPDATED ++ body) as ->.
  { rewrite !app_assoc in Hw. by apply app_inv_tail in Hw. }
  apply (js_replace_first false re_last_updated _ _ a (LAST_UPDATED ++ date) rest).
  split; [done|]. split.
  - exists None. rewrite <- !app_assoc. by apply last_updated_match.
  - intros a1 a2 -> Ha2. apply date_match_iff.
    specialize (Hearly a1 a2 eq_refl Ha2). apply date_match_iff in Hearly.
    rewrite <- Hearly. rewrite <- !app_assoc.
    apply date_window_eq. rewrite length_app.
    change (length LAST_UPDATED) with 14%nat. destruct a2; [done|]. cbn. lia.
Qed.

Lemma no_lt_L_stops (c : ascii) (z : list ascii) :
  no_lt_L c = true → stops not_lt_sign (c :: z) = false.
Proof.
  unfold no_lt_L, not_lt_sign. cbn. intros H.
  apply andb_true_iff in H as [H _]. by rewrite H.
Qed.

Lemma forallb_head {A} (P : A → bool) (x : A) (l : list A) :
  forallb P (x :: l) = true → P x = true.
Proof. cbn. by intros [? _]%andb_true_iff. Qed.

Lemma desc_head_quote (z w : list ascii) :
  z = desc_head ++ w → ∃ p1 p2, z = p1 ++ DQ :: p2.
Proof.
  intros ->. exists (take 13 desc_head), (drop 14 desc_head ++ w).
  reflexivity.
Qed.

(** The date line stays in place when the description is replaced. *)
Lemma date_keeps_fixed_desc (date a u v rest : list ascii) :
  date ≠ [] → forallb no_lt_DQ date = true →
  (∃ u', u = desc_head ++ u') → forallb no_lt_L u = true →
  (∃ v', v = desc_head ++ v') → forallb no_lt_L v = true →
  js_replace false re_last_updated (LAST_UPDATED ++ date) (a ++ u ++ rest)
  = a ++ u ++ rest →
  js_replace false re_last_updated (LAST_UPDATED ++ date) (a ++ v ++ rest)
  = a ++ v ++ rest.
Proof.
  intros Hdne Hdate [u' Hu'] Hu [v' Hv'] Hv.
  assert (Hxx : forallb no_lt_DQ (LAST_UPDATED ++ date) = true)
    by (by rewrite forallb_app, Hdate).
  assert (Hdate' : forallb not_lt_sign date = true).
  { eapply forallb_impl; [|exact Hdate]. intros c Hc. unfold no_lt_DQ in Hc.
    by apply andb_true_iff in Hc as [? _]. }
  assert (Hune : u ≠ []) by (by subst u).
  assert (Hstop_u : ∀ z, stops not_lt_sign (u ++ z) = false).
  { intros z. rewrite Hu' in Hu |- *.
    change (desc_head ++ u') with ("d"%char :: drop 1 desc_head ++ u').
    reflexivity. }
  apply (edit_keeps_fixed false re_last_updated _ a u v rest); try done.
  - intros a1 a2 Ha Ha2 Hnone. apply date_match_iff.
    apply date_match_iff in Hnone. rewrite <- Hnone.
    rewrite Hu', Hv', <- !app_assoc. apply date_window_eq.
    rewrite length_app. change (length desc_head) with 50%nat. lia.
  - intros u1 u2. by apply date_not_inside.
  - intros v1 v2. by apply date_not_inside.
  - intros x a2 y cap Ha Ha2 Heq Hm.
    apply last_updated_match_inv in Hm as (body & _ & _ & _ & Hstop).
    apply app_eq_app in Heq as [l [[-> ->]|[Hxl Hul]]].
    + exists l, None. split; [done|]. rewrite <- !app_assoc.
      apply last_updated_match; [done|done|].
      destruct l as [|l0 l];
        [cbn [app] in Hstop; by rewrite Hstop_u in Hstop|]. exact Hstop.
    + exfalso. apply app_eq_app in Hul as [l2 [[-> ->]|[-> ->]]].
      * destruct l2 as [|c l2].
        -- rewrite app_nil_r in Hu'.
           destruct (desc_head_quote _ _ Hu') as (p1 & p2 & ->).
           rewrite Hxl, !forallb_app in Hxx. cbn in Hxx.
           by rewrite !andb_false_r in Hxx.
        -- rewrite forallb_app in Hu. apply andb_true_iff in Hu as [_ Hu].
           apply forallb_head in Hu.
           cbn [app] in Hstop. by rewrite (no_lt_L_stops c) in Hstop.
      * destruct (desc_head_quote _ _ Hu') as (p1 & p2 & ->).
        rewrite Hxl, !forallb_app in Hxx. cbn in Hxx.
        by rewrite !andb_false_r in Hxx.
Qed.

Lemma colours_ok :
  is_colour (lit "blue") ∧ is_colour (lit "green") ∧ is_colour (lit "purple")
  ∧ is_colour (lit "orange") ∧ is_colour (lit "red").
Proof. unfold is_colour. tauto. Qed.

Ltac colour_facts :=
  destruct colours_ok as (Hblue & Hgreen & Hpurple & Horange & Hred).

Section Rewrite.
Context {L : NumberFormat}.

(** ** The steps of the rewriter *)

Lemma rewriteOverview_steps (stats : StatRecord) (now : Today)
    (content : list ascii) :
  rewriteOverview stats now content =
  if any_stat stats
  then (update_description stats (date_step now (anchors_step stats content)),
        true)
  else (content, false).
Proof.
  unfold rewriteOverview, any_stat, anchors_step, date_step.
  destruct stats as [[r|] [sr|] [c|] [s|] [t|]]; reflexivity.
Qed.

Lemma anchor_step_self (c : list ascii) (v : option jsnum) (s : list ascii) :
  is_colour c → prints_number v →
  anchor_step c v (anchor_step c v s) = anchor_step c v s.
Proof.
  intros Hc Hv. destruct v as [num|]; [|done]. cbn [anchor_step].
  apply anchor_self_fixed; [done|]. by apply anchor_text_ok.
Qed.

Lemma first_match_anchor_text (c s a w rest : list ascii) :
  first_match false (re_anchor c) s a w rest → is_anchor_text c w.
Proof.
  intros (_ & [cap Hm] & _).
  by destruct (anchor_match_local c w rest rest cap Hm).
Qed.

Lemma anchor_step_keeps (ci cj : list ascii) (vi vj : option jsnum)
    (s : list ascii) :
  is_colour ci → is_colour cj → ci ≠ cj → prints_number vi → prints_number vj →
  anchor_step ci vi s = s →
  anchor_step ci vi (anchor_step cj vj s) = anchor_step cj vj s.
Proof.
  intros Hi Hj Hne Hvi Hvj Hfix.
  destruct vj as [numj|]; [|done]. destruct vi as [numi|]; [|done].
  cbn [anchor_step] in *.
  destruct (js_replace_cases false (re_anchor cj) (anchor_text cj numj) s)
    as [[_ ->]|(a & u & rest & Hf & ->)]; [done|].
  pose proof (first_match_anchor_text _ _ _ _ _ Hf) as Hu.
  pose proof (anchor_text_ok cj numj Hvj) as Hv.
  destruct Hf as (-> & _ & _).
  apply (anchor_keeps_fixed ci _ a u _ rest); try done.
  - destruct Hu as (n & -> & _). intros H. by apply (f_equal length) in H.
  - by apply (anchor_text_block cj).
  - intros u1 u2 Hs Hu2.
    apply (anchor_not_inside_anchor ci cj u u1 u2); auto.
  - intros v1 v2 Hs Hv2.
    apply (anchor_not_inside_anchor ci cj (anchor_text cj numj) v1 v2); auto.
Qed.

Lemma not_lt_of_no_lt_DQ (l : list ascii) :
  forallb no_lt_DQ l = true → forallb not_lt_sign l = true.
Proof.
  apply forallb_impl. intros c Hc. unfold no_lt_DQ in Hc.
  by apply andb_true_iff in Hc as [? _].
Qed.

Lemma not_lt_of_no_lt_L (l : list ascii) :
  forallb no_lt_L l = true → forallb not_lt_sign l = true.
Proof.
  apply forallb_impl. intros c Hc. unfold no_lt_L in Hc.
  by apply andb_true_iff in Hc as [? _].
Qed.

Lemma date_step_self (now : Today) (s : list ascii) :
  date_step now (date_step now s) = date_step now s.
Proof.
  destruct (getCurrentDate_plain now) as [Hne Hd].
  apply date_self_fixed; [done|]. by apply not_lt_of_no_lt_DQ.
Qed.

Lemma date_step_keeps_anchor (ci : list ascii) (vi : option jsnum)
    (now : Today) (s : list ascii) :
  is_colour ci → prints_number vi →
  anchor_step ci vi s = s →
  anchor_step ci vi (date_step now s) = date_step now s.
Proof.
  intros Hi Hvi Hfix. destruct vi as [numi|]; [|done].
  cbn [anchor_step] in *. unfold date_step.
  destruct (getCurrentDate_plain now) as [Hne Hd].
  apply not_lt_of_no_lt_DQ in Hd.
  destruct (js_replace_cases false re_last_updated
              (LAST_UPDATED ++ getCurrentDate now) s)
    as [[_ ->]|(a & u & rest & Hf & ->)]; [done|].
  destruct Hf as (-> & [cap Hm] & _).
  apply last_updated_match_inv in Hm as (body & Hw & Hb & Hbody & Hstop).
  assert (u = LAST_UPDATED ++ body) as ->.
  { rewrite !app_assoc in Hw. by apply app_inv_tail in Hw. }
  apply (anchor_keeps_fixed ci _ a (LAST_UPDATED ++ body) _ rest); try done.
  - intros u1 u2. apply anchor_not_inside. by rewrite forallb_app, Hbody.
  - intros v1 v2. apply anchor_not_inside. by rewrite forallb_app, Hd.
Qed.

Lemma first_match_description (s a w rest : list ascii) :
  first_match false re_description s a w rest → is_description_line w.
Proof.
  intros (_ & [cap Hm] & _).
  apply description_match_inv in Hm as (w' & Hw & Hd).
  apply app_inv_tail in Hw. by subst w'.
Qed.

Lemma desc_block (z rest : list ascii) :
  (∃ z', z = desc_head ++ z') → block_start (z ++ rest) = true.
Proof.
  intros [z' ->]. unfold block_start.
  by rewrite <- app_assoc, starts_with_app, orb_true_r.
Qed.

Lemma desc_step_keeps_anchor (ci : list ascii) (vi : option jsnum)
    (stats : StatRecord) (s : list ascii) :
  is_colour ci → prints_number vi →
  anchor_step ci vi s = s →
  anchor_step ci vi (update_description stats s) = update_description stats s.
Proof.
  intros Hi Hvi Hfix. destruct vi as [numi|]; [|done].
  cbn [anchor_step] in *. unfold update_description.
  destruct (countries stats) as [c|]; [|done].
  destruct (states stats) as [st|]; [|done].
  destruct (cities stats) as [t|]; [|done].
  destruct (js_replace_cases false re_description (description_text c st t) s)
    as [[_ ->]|(a & u & rest & Hf & ->)]; [done|].
  pose proof (first_match_description _ _ _ _ Hf) as Hu.
  destruct Hf as (-> & _ & _).
  destruct (description_line_plain u Hu) as [Hu1 Hu2].
  destruct (description_text_plain c st t) as [Hv1 Hv2].
  apply (anchor_keeps_fixed ci _ a u _ rest); [done| | | | | |done].
  - destruct Hu1 as [u' ->]. done.
  - by apply desc_block.
  - by apply desc_block.
  - intros u1 u2. apply anchor_not_inside. by apply not_lt_of_no_lt_L.
  - intros v1 v2. apply anchor_not_inside. by apply not_lt_of_no_lt_L.
Qed.

Lemma desc_step_keeps_date (now : Today) (stats : StatRecord)
    (s : list ascii) :
  date_step now s = s →
  date_step now (update_description stats s) = update_description stats s.
Proof.
  intros Hfix. unfold update_description, date_step in *.
  destruct (countries stats) as [c|]; [|done].
  destruct (states stats) as [st|]; [|done].
  destruct (cities stats) as [t|]; [|done].
  destruct (js_replace_cases false re_description (description_text c st t) s)
    as [[_ ->]|(a & u & rest & Hf & ->)]; [done|].
  pose proof (first_match_description _ _ _ _ Hf) as Hu.
  destruct Hf as (-> & _ & _).
  destruct (description_line_plain u Hu) as [Hu1 Hu2].
  destruct (description_text_plain c st t) as [Hv1 Hv2].
  destruct (getCurrentDate_plain now) as [Hne Hd].
  by apply (date_keeps_fixed_desc _ a u _ rest).
Qed.

(** ** Running the rewriter on its own output *)


Lemma anchors_step_keeps (c : list ascii) (v : option jsnum)
    (stats : StatRecord) (now : Today) (s : list ascii) :
  is_colour c → prints_number v →
  anchor_step c v s = s →
  anchor_step c v (update_description stats (date_step now s))
  = update_description stats (date_step now s).
Proof.
  intros Hc Hv Hfix.
  apply desc_step_keeps_anchor; [done..|].
  by apply date_step_keeps_anchor.
Qed.

Lemma rewrite_fixes_anchors (stats : StatRecord) (now : Today)
    (content : list ascii) :
  prints_numbers stats →
  let out := update_description stats (date_step now (anchors_step stats content)) in
  anchors_step stats out = out.
Proof.
  intros (Hr & Hsr & Hc & Hs & Ht). cbv zeta.
  colour_facts.
  set (c1 := anchor_step (lit "blue") (regions stats) content).
  set (c2 := anchor_step (lit "green") (subregions stats) c1).
  set (c3 := anchor_step (lit "purple") (countries stats) c2).
  set (c4 := anchor_step (lit "orange") (states stats) c3).
  set (c5 := anchor_step (lit "red") (cities stats) c4).
  assert (anchors_step stats content = c5) as -> by reflexivity.
  assert (anchor_step (lit "blue") (regions stats) c5 = c5) as F1.
  { do 4 (apply anchor_step_keeps; [done|done|discriminate|done|done|]).
    by apply anchor_step_self. }
  assert (anchor_step (lit "green") (subregions stats) c5 = c5) as F2.
  { do 3 (apply anchor_step_keeps; [done|done|discriminate|done|done|]).
    by apply anchor_step_self. }
  assert (anchor_step (lit "purple") (countries stats) c5 = c5) as F3.
  { do 2 (apply anchor_step_keeps; [done|done|discriminate|done|done|]).
    by apply anchor_step_self. }
  assert (anchor_step (lit "orange") (states stats) c5 = c5) as F4.
  { apply anchor_step_keeps; [done|done|discriminate|done|done|].
    by apply anchor_step_self. }
  assert (anchor_step (lit "red") (cities stats) c5 = c5) as F5.
  { by apply anchor_step_self. }
  unfold anchors_step.
  rewrite (anchors_step_keeps _ _ stats now c5 Hblue Hr F1).
  rewrite (anchors_step_keeps _ _ stats now c5 Hgreen Hsr F2).
  rewrite (anchors_step_keeps _ _ stats now c5 Hpurple Hc F3).
  rewrite (anchors_step_keeps _ _ stats now c5 Horange Hs F4).
  by rewrite (anchors_step_keeps _ _ stats now c5 Hred Ht F5).
Qed.

Lemma rewrite_fixes_date (stats : StatRecord) (now : Today) (s : list ascii) :
  let out := update_description stats (date_step now s) in
  date_step now out = out.
Proof.
  cbv zeta. apply desc_step_keeps_date, date_step_self.
Qed.

Lemma update_description_settled (stats : StatRecord) (s : list ascii) :
  countries stats = None ∨ states stats = None ∨ cities stats = None
  ∨ js_match false re_description s = None →
  update_description stats s = s.
Proof.
  unfold update_description. intros H.
  destruct (countries stats) as [c|]; [|done].
  destruct (states stats) as [st|]; [|done].
  destruct (cities stats) as [t|]; [|done].
  destruct H as [H|[H|[H|H]]]; try done.
  unfold js_replace. by rewrite H.
Qed.

(** C2, amended: for every overview text, every date and every StatRecord
    whose fields, where set, are printed by the locale of the process as
    number texts of the anchor patterns (digits in groups separated by
    commas, as en-US prints the non-negative integers), running the
    rewrite on the output of a first run gives that output again, text and
    flag, provided the description line is not rewritten (one of the
    countries, states and cities is unset) or the output of the first run
    has no text left that matches the description pattern. *)
Theorem C2_rewrite_twice (stats : StatRecord) (now : Today)
    (content : list ascii) :
  prints_numbers stats →
  let once := rewriteOverview stats now content in
  (countries stats = None ∨ states stats = None ∨ cities stats = None
   ∨ js_match false re_description once.1 = None) →
  rewriteOverview stats now once.1 = once.
Proof.
  intros Hok once Hdesc. subst once.
  rewrite (rewriteOverview_steps stats now content) in *.
  destruct (any_stat stats) eqn:Hany; cbn [fst] in *;
    rewrite rewriteOverview_steps, Hany; [|done].
  f_equal.
  rewrite (rewrite_fixes_anchors stats now content Hok).
  rewrite (rewrite_fixes_date stats now).
  by apply update_description_settled.
Qed.

End Rewrite.

Lemma C2_witness :
  let now := mkToday 21 September 2025 in
  let once := rewriteOverview (L := en_US) stats_insights now overview_page in
  prints_numbers (L := en_US) stats_insights
  ∧ rewriteOverview (L := en_US) stats_insights now once.1 = once.
Proof.
  cbv zeta.
  assert (H : prints_numbers (L := en_US) stats_insights)
    by (repeat split; vm_compute; reflexivity).
  split; [exact H|].
  apply (C2_rewrite_twice (L := en_US)); [exact H|].
  right. right. right. vm_compute. reflexivity.
Defined.

(** C2 as stated fails, in two ways.  On a page that holds the description
    line twice the first run rewrites the first of them and the second run
    the other.  And where the locale groups the digits with full stops,
    the anchor that the first run writes is no longer one the anchor
    pattern matches, so the second run rewrites the next anchor of that
    colour. *)
Lemma C2_counterexample :
  let now := mkToday 21 September 2025 in
  let once :=
    rewriteOverview (L := en_US) stats_insights now overview_two_descriptions in
  let once_de :=
    rewriteOverview (L := de_DE) stats_states_only now overview_two_orange in
  (rewriteOverview (L := en_US) stats_insights now once.1).1 ≠ once.1
  ∧ (rewriteOverview (L := de_DE) stats_states_only now once_de.1).1
    ≠ once_de.1.
Proof.
  cbv zeta. split.
  - intros H. apply (f_equal (js_match false re_description)) in H.
    vm_compute in H. discriminate H.
  - intros H. apply (f_equal (includes (lit ">7<"))) in H.
    vm_compute in H. discriminate H.
Qed.

(** ** The description line when it is not rewritten *)

Section Kept.
Context {L : NumberFormat}.

Lemma anchor_local_none (c a2 w rest X : list ascii) :
  is_colour c → is_anchor_text c w → a2 ≠ [] →
  match_here false (re_anchor c) (a2 ++ w ++ rest) = None →
  match_here false (re_anchor c) (a2 ++ w ++ rest ++ X) = None.
Proof.
  intros Hc Hw Ha2 Hnone.
  destruct (match_here false (re_anchor c) (a2 ++ w ++ rest ++ X))
    as [[y cap]|] eqn:Hm; [|done].
  apply anchor_within in Hm as (w' & t & -> & -> & Hw'); try done.
  - destruct Hw' as (n & -> & Hn).
    rewrite <- !app_assoc, anchor_match in Hnone; done.
  - by apply (anchor_text_block c).
Qed.

Lemma anchor_step_frame (c : list ascii) (v : option jsnum)
    (pre D post : list ascii) :
  is_colour c → (∃ D', D = desc_head ++ D') → forallb no_lt_L D = true →
  ∃ post', anchor_step c v (pre ++ D ++ post)
           = anchor_step c v pre ++ D ++ post'.
Proof.
  intros Hc HD1 HD2. destruct v as [num|]; [|by exists post].
  cbn [anchor_step]. set (xx := anchor_text c num).
  destruct (js_replace_cases false (re_anchor c) xx pre)
    as [[Hno ->]|(a & w & rest & Hf & ->)].
  - destruct (js_replace_cases false (re_anchor c) xx (pre ++ D ++ post))
      as [[_ ->]|(a & w & rest & Hf & ->)]; [by exists post|].
    destruct Hf as (Heq & [cap Hm] & _).
    apply suffix_cases in Heq
      as [(a2 & -> & Ha2 & Hb)|[(v1 & v2 & -> & -> & Hv2 & Hb)|(r1 & -> & ->)]].
    + exfalso. rewrite Hb in Hm.
      apply anchor_within in Hm as (w' & t & -> & _ & Hw');
        [|done|done|by apply desc_block].
      destruct Hw' as (n & -> & Hn).
      specialize (Hno a ((anchor_open c ++ n ++ lit "</div>") ++ t) eq_refl).
      rewrite <- !app_assoc, anchor_match in Hno; done.
    + exfalso. rewrite Hb in Hm.
      rewrite (anchor_not_inside c (v1 ++ v2) v1 v2 post) in Hm; try done.
      by apply not_lt_of_no_lt_L.
    + exists (r1 ++ xx ++ rest). by rewrite <- !app_assoc.
  - exists post.
    pose proof (first_match_anchor_text _ _ _ _ _ Hf) as Hw.
    destruct Hf as (-> & [cap Hm] & Hbefore).
    rewrite <- !app_assoc.
    rewrite (js_replace_first false (re_anchor c) xx _ a w
               (rest ++ D ++ post)); [done|].
    split; [done|]. split.
    + exists None. by apply (anchor_match_local c w rest _ cap).
    + intros a1 a2 Ha Ha2.
      apply (anchor_local_none c a2 w rest (D ++ post)); eauto.
Qed.

Lemma anchors_step_frame (stats : StatRecord) (pre D post : list ascii) :
  (∃ D', D = desc_head ++ D') → forallb no_lt_L D = true →
  ∃ post', anchors_step stats (pre ++ D ++ post)
           = anchors_step stats pre ++ D ++ post'.
Proof.
  intros HD1 HD2. colour_facts. unfold anchors_step.
  destruct (anchor_step_frame (lit "blue") (regions stats) pre D post
              Hblue HD1 HD2) as [p1 ->].
  destruct (anchor_step_frame (lit "green") (subregions stats)
              (anchor_step (lit "blue") (regions stats) pre) D p1
              Hgreen HD1 HD2) as [p2 ->].
  destruct (anchor_step_frame (lit "purple") (countries stats)
              (anchor_step (lit "green") (subregions stats)
                 (anchor_step (lit "blue") (regions stats) pre))
              D p2 Hpurple HD1 HD2) as [p3 ->].
  destruct (anchor_step_frame (lit "orange") (states stats)
              (anchor_step (lit "purple") (countries stats)
                 (anchor_step (lit "green") (subregions stats)
                    (anchor_step (lit "blue") (regions stats) pre)))
              D p3 Horange HD1 HD2) as [p4 ->].
  apply (anchor_step_frame (lit "red") (cities stats)); done.
Qed.

Lemma LAST_UPDATED_plain : forallb not_lt_sign LAST_UPDATED = true.
Proof. reflexivity. Qed.

(** A text that begins with the words of the date line and runs into the
    description line holds all the words before that line. *)
Lemma date_words_before (a2 X : list ascii) :
  a2 ≠ [] →
  starts_with LAST_UPDATED (a2 ++ desc_head ++ X) = true →
  ∃ b, a2 = LAST_UPDATED ++ b.
Proof.
  intros Ha2 Hs. apply starts_with_spec in Hs as [b Hs].
  apply app_eq_app in Hs as [l [[-> _]|[HL Hd]]]; [by exists l|].
  destruct l as [|l0 l];
    [exists []; rewrite app_nil_r in HL; by rewrite app_nil_r|]. exfalso.
  assert (Hlen : (length a2 + length (l0 :: l) = 14)%nat).
  { rewrite <- length_app, <- HL. reflexivity. }
  assert (Hl : l0 :: l = drop (length a2) LAST_UPDATED).
  { by rewrite HL, drop_app_length. }
  assert (Hst : starts_with (drop (length a2) LAST_UPDATED) (desc_head ++ X)
                = true).
  { apply starts_with_spec. exists b. by rewrite <- Hl. }
  assert (Hk : (0 < length a2 < 14)%nat).
  { destruct a2; [done|]. cbn [length] in *. lia. }
  clear - Hst Hk. revert Hst Hk. generalize (length a2) as k. intros k.
  do 14 (destruct k as [|k];
         [intros Hst Hk; first [lia | vm_compute in Hst; discriminate]|]).
  intros _ Hk. lia.
Qed.

(** *** The date labels before the line *)

Lemma has_lt_app (a b : list ascii) : has_lt (a ++ b) = has_lt a || has_lt b.
Proof. unfold has_lt. rewrite forallb_app. by destruct (forallb _ a). Qed.

Lemma starts_with_before_lt (p x y : list ascii) :
  forallb not_lt_sign p = true →
  starts_with p (x ++ "<"%char :: y) = starts_with p x.
Proof.
  revert x. induction p as [|a p IH]; intros x Hp; [done|].
  cbn in Hp. apply andb_true_iff in Hp as [Ha Hp].
  destruct x as [|b x]; cbn [app starts_with].
  - unfold not_lt_sign in Ha. apply negb_true_iff in Ha. by rewrite Ha.
  - by rewrite IH.
Qed.

Lemma date_closed_skip (u rest : list ascii) :
  forallb no_Lh u = true → date_closed (u ++ rest) = date_closed rest.
Proof.
  induction u as [|c u IH]; intros Hu; [done|].
  cbn in Hu. apply andb_true_iff in Hu as [Hc Hu].
  cbn [app date_closed].
  assert (starts_with LAST_UPDATED (c :: u ++ rest) = false) as ->.
  { cbn [starts_with LAST_UPDATED lit list_ascii_of_string].
    destruct (chr_eqb "L" c) eqn:E; [|done].
    apply chr_eqb_eq in E. by subst c. }
  by apply IH.
Qed.

Lemma date_closed_into (fmt Y : list ascii) :
  date_closed Y = true → date_closed (fmt ++ lit "</div>" ++ Y) = true.
Proof.
  intros HY. induction fmt as [|c f IH].
  - change ([] ++ lit "</div>" ++ Y) with (lit "</div>" ++ Y).
    by rewrite (date_closed_skip (lit "</div>") Y).
  - cbn [app date_closed].
    destruct (starts_with LAST_UPDATED (c :: f ++ lit "</div>" ++ Y)) eqn:Hs;
      [|done].
    apply starts_with_spec in Hs as [b Hb].
    assert (Hlt : has_lt (LAST_UPDATED ++ b) = true).
    { rewrite <- Hb.
      change (c :: f ++ lit "</div>" ++ Y) with ((c :: f) ++ lit "</div>" ++ Y).
      rewrite !has_lt_app. change (has_lt (lit "</div>")) with true.
      by rewrite orb_true_r. }
    rewrite has_lt_app in Hlt. change (has_lt LAST_UPDATED) with false in Hlt.
    cbn [orb] in Hlt.
    rewrite Hb, (drop_app_length' LAST_UPDATED b 14) by done.
    destruct b as [|x b]; [done|].
    by destruct (not_lt_sign x).
Qed.

(** Replacing a text that begins with "<" by another one. *)
Lemma date_closed_edit (a u v rest : list ascii) :
  (∃ u', u = "<"%char :: u') → (∃ v', v = "<"%char :: v') →
  (date_closed (u ++ rest) = true → date_closed (v ++ rest) = true) →
  date_closed (a ++ u ++ rest) = true → date_closed (a ++ v ++ rest) = true.
Proof.
  intros [u' ->] [v' ->] Huv. induction a as [|c a IH]; [exact Huv|].
  cbn [date_closed app] in IH |- *.
  change (c :: a ++ "<"%char :: u' ++ rest)
    with ((c :: a) ++ "<"%char :: u' ++ rest).
  change (c :: a ++ "<"%char :: v' ++ rest)
    with ((c :: a) ++ "<"%char :: v' ++ rest).
  rewrite !starts_with_before_lt by reflexivity.
  destruct (starts_with LAST_UPDATED (c :: a)) eqn:Hs; [|exact IH].
  apply starts_with_spec in Hs as [b Hb]. rewrite Hb, <- !app_assoc.
  rewrite !(drop_app_length' LAST_UPDATED _ 14) by done.
  destruct b as [|x b]; cbn [app];
    [change (not_lt_sign "<"%char) with false; exact IH|].
  destruct (not_lt_sign x); [|exact IH].
  intros _. change (x :: b ++ "<"%char :: v' ++ rest)
    with ((x :: b) ++ ["<"%char] ++ v' ++ rest).
  rewrite !has_lt_app. change (has_lt ["<"%char]) with true.
  by rewrite orb_true_r.
Qed.

Lemma anchor_open_no_Lh (c : list ascii) :
  is_colour c → forallb no_Lh (anchor_open c) = true.
Proof. intros [->|[->|[->|[->| ->]]]]; reflexivity. Qed.

Lemma anchor_step_closed (c : list ascii) (v : option jsnum)
    (pre : list ascii) :
  is_colour c → date_closed pre = true →
  date_closed (anchor_step c v pre) = true.
Proof.
  intros Hc Hpre. destruct v as [num|]; [|done]. cbn [anchor_step].
  destruct (js_replace_cases false (re_anchor c) (anchor_text c num) pre)
    as [[_ ->]|(a & w & rest & Hf & ->)]; [done|].
  pose proof (first_match_anchor_text _ _ _ _ _ Hf) as Hw.
  destruct Hf as (-> & _ & _).
  destruct (anchor_text_shape c w Hc Hw) as (X & HX & _ & HnoL).
  revert Hpre. apply date_closed_edit.
  - rewrite HX. by eexists.
  - unfold anchor_text, anchor_open. by eexists.
  - rewrite (date_closed_skip w rest HnoL). intros Hrest.
    unfold anchor_text. rewrite <- !app_assoc.
    rewrite (date_closed_skip (anchor_open c)) by (by apply anchor_open_no_Lh).
    by apply date_closed_into.
Qed.

Lemma anchors_step_closed (stats : StatRecord) (pre : list ascii) :
  date_closed pre = true → date_closed (anchors_step stats pre) = true.
Proof.
  intros Hpre. colour_facts. unfold anchors_step.
  do 5 (apply anchor_step_closed; [done|]). done.
Qed.

End Kept.

(** What [date_closed] says of the matches of the date pattern: either
    the first label with a date text behind it stands in [P] with its "<",
    or the pattern matches nowhere in [P], whatever follows [P]. *)
Lemma date_scan (P : list ascii) :
  date_closed P = true →
  (∃ a body r,
      P = a ++ LAST_UPDATED ++ body ++ "<"%char :: r
      ∧ body ≠ [] ∧ forallb not_lt_sign body = true
      ∧ ∀ X, (∀ a2, a2 ≠ [] → starts_with LAST_UPDATED (a2 ++ X) = true
                    → starts_with LAST_UPDATED a2 = true) →
             ∀ a1 a2, a = a1 ++ a2 → a2 ≠ [] →
               date_starts (a2 ++ LAST_UPDATED ++ body ++ "<"%char :: r ++ X)
               = false)
  ∨ (∀ X, (∀ a2, a2 ≠ [] → starts_with LAST_UPDATED (a2 ++ X) = true
                 → starts_with LAST_UPDATED a2 = true) →
          ∀ a1 a2, P = a1 ++ a2 → a2 ≠ [] → date_starts (a2 ++ X) = false).
Proof.
  induction P as [|c P IH]; intros HP.
  { right. intros X _ a1 a2 H Ha2.
    symmetry in H. apply app_eq_nil in H as [_ ->]. done. }
  cbn [date_closed] in HP.
  destruct (starts_with LAST_UPDATED (c :: P)) eqn:Hs.
  - pose proof Hs as Hs'. apply starts_with_spec in Hs' as [b Hb].
    rewrite Hb, (drop_app_length' LAST_UPDATED b 14) in HP by done.
    destruct b as [|x b]; [done|].
    destruct (not_lt_sign x) eqn:Hx.
    + left. destruct (span_class not_lt_sign (x :: b))
        as (run & rest & Hrun & Hr & Hstop).
      unfold has_lt in HP. apply negb_true_iff in HP.
      destruct rest as [|r0 rest].
      { rewrite app_nil_r in Hrun. subst run. by rewrite Hr in HP. }
      cbn in Hstop. apply negb_true_iff in Hstop.
      unfold not_lt_sign in Hstop. apply negb_false_iff, chr_eqb_eq in Hstop.
      subst r0. exists [], run, rest. rewrite Hb, Hrun. cbn [app].
      split; [done|]. split.
      { destruct run; [|done]. cbn [app] in Hrun. injection Hrun as -> _.
        done. }
      split; [done|]. intros X _ a1 a2 H Ha2.
      symmetry in H. apply app_eq_nil in H as [_ ->]. done.
    + assert (Hhere : ∀ X, date_starts ((c :: P) ++ X) = false).
      { intros X. unfold date_starts. rewrite Hb, <- app_assoc.
        rewrite (drop_app_length' LAST_UPDATED _ 14) by done.
        cbn [app stops]. rewrite Hx. by rewrite andb_false_r. }
      destruct (IH HP) as [(a & body & r & HPeq & Hne & Hbody & Hbefore)|Hnone].
      * left. exists (c :: a), body, r. rewrite HPeq.
        split; [done|]. split; [done|]. split; [done|].
        intros X HX a1 a2 Ha Ha2. destruct a1 as [|c1 a1].
        -- cbn [app] in Ha. subst a2. specialize (Hhere X).
           rewrite HPeq in Hhere. etrans; [|exact Hhere]. f_equal. cbn [app].
           by rewrite <- !app_assoc.
        -- cbn [app] in Ha. injection Ha as _ Ha.
           by apply (Hbefore X HX a1 a2).
      * right. intros X HX a1 a2 Ha Ha2. destruct a1 as [|c1 a1].
        -- cbn [app] in Ha. subst a2. apply Hhere.
        -- cbn [app] in Ha. injection Ha as _ Ha.
           by apply (Hnone X HX a1 a2).
  - assert (Hhere : ∀ X, (∀ a2, a2 ≠ [] →
                starts_with LAST_UPDATED (a2 ++ X) = true →
                starts_with LAST_UPDATED a2 = true) →
              date_starts ((c :: P) ++ X) = false).
    { intros X HX. unfold date_starts.
      destruct (starts_with LAST_UPDATED ((c :: P) ++ X)) eqn:E; [|done].
      apply HX in E; [|done]. by rewrite E in Hs. }
    destruct (IH HP) as [(a & body & r & HPeq & Hne & Hbody & Hbefore)|Hnone].
    * left. exists (c :: a), body, r. rewrite HPeq.
      split; [done|]. split; [done|]. split; [done|].
      intros X HX a1 a2 Ha Ha2. destruct a1 as [|c1 a1].
      -- cbn [app] in Ha. subst a2. specialize (Hhere X HX).
         rewrite HPeq in Hhere. etrans; [|exact Hhere]. f_equal. cbn [app].
         by rewrite <- !app_assoc.
      -- cbn [app] in Ha. injection Ha as _ Ha.
         by apply (Hbefore X HX a1 a2).
    * right. intros X HX a1 a2 Ha Ha2. destruct a1 as [|c1 a1].
      -- cbn [app] in Ha. subst a2. by apply Hhere.
      -- cbn [app] in Ha. injection Ha as _ Ha.
         by apply (Hnone X HX a1 a2).
Qed.

Lemma date_step_frame (now : Today) (P D post : list ascii) :
  date_closed P = true →
  (∃ D', D = desc_head ++ D') → forallb no_lt_L D = true →
  ∃ post', date_step now (P ++ D ++ post) = date_step now P ++ D ++ post'.
Proof.
  intros HP [D' HD1] HD2. unfold date_step.
  set (xx := LAST_UPDATED ++ getCurrentDate now).
  assert (Hnil : ∀ a2 : list ascii, a2 ≠ [] →
            starts_with LAST_UPDATED (a2 ++ []) = true →
            starts_with LAST_UPDATED a2 = true).
  { intros a2 _. by rewrite app_nil_r. }
  assert (Hdesc : ∀ a2 : list ascii, a2 ≠ [] →
            starts_with LAST_UPDATED (a2 ++ D ++ post) = true →
            starts_with LAST_UPDATED a2 = true).
  { intros a2 Ha2 H. rewrite HD1, <- app_assoc in H.
    apply date_words_before in H as [b ->]; [|done].
    apply starts_with_app. }
  destruct (date_scan P HP)
    as [(a & body & r & -> & Hne & Hbody & Hbefore)|Hnone].
  - exists post.
    rewrite (js_replace_first false re_last_updated xx
               (a ++ LAST_UPDATED ++ body ++ "<"%char :: r)
               a (LAST_UPDATED ++ body) ("<"%char :: r)).
    2:{ split; [by rewrite <- !app_assoc|]. split.
        - exists None. rewrite <- !app_assoc. by apply last_updated_match.
        - intros a1 a2 Ha Ha2. apply date_match_iff.
          specialize (Hbefore [] Hnil a1 a2 Ha Ha2).
          rewrite app_nil_r in Hbefore. by rewrite <- !app_assoc. }
    rewrite (js_replace_first false re_last_updated xx _
               a (LAST_UPDATED ++ body) ("<"%char :: r ++ D ++ post)).
    2:{ split; [by rewrite <- !app_assoc|]. split.
        - exists None. rewrite <- !app_assoc. by apply last_updated_match.
        - intros a1 a2 Ha Ha2. apply date_match_iff.
          specialize (Hbefore (D ++ post) Hdesc a1 a2 Ha Ha2).
          by rewrite <- !app_assoc. }
    by rewrite <- !app_assoc.
  - rewrite (js_replace_no_match false re_last_updated xx P).
    2:{ intros a1 a2 Ha. destruct a2 as [|c0 a2]; [done|].
        apply date_match_iff.
        specialize (Hnone [] Hnil a1 (c0 :: a2) Ha).
        rewrite app_nil_r in Hnone. by apply Hnone. }
    destruct (js_replace_cases false re_last_updated xx (P ++ D ++ post))
      as [[_ ->]|(a & w & rest & Hf & ->)]; [by exists post|].
    destruct Hf as (Heq & [cap Hm] & _).
    apply suffix_cases in Heq
      as [(a2 & -> & Ha2 & Hb)|[(v1 & v2 & -> & -> & Hv2 & Hb)|(r1 & -> & ->)]].
    + exfalso. rewrite Hb in Hm.
      specialize (Hnone (D ++ post) Hdesc a a2 eq_refl Ha2).
      apply date_match_iff in Hnone. by rewrite Hnone in Hm.
    + exfalso. rewrite Hb in Hm.
      by rewrite (date_not_inside (v1 ++ v2) v1 v2 post) in Hm.
    + exists (r1 ++ xx ++ rest). by rewrite <- !app_assoc.
Qed.

(** C10, amended: when one of the countries, states and cities is unset,
    a description line of the overview text (a text that begins as the
    description line does and holds neither "<" nor "L", as the line that
    the description pattern reads and the line that the rewriter writes
    both do) is still there after the run, byte for byte, right after the
    text before it, which comes out as from a run on that text alone;
    only the text after the line may differ otherwise.  This holds
    whenever a match of the date pattern that begins before the line ends
    before it: the first "Last Updated: " before the line that has a date
    text behind it also has a "<" behind it before the line. *)
Theorem C10_description_kept {L : NumberFormat} (stats : StatRecord)
    (now : Today) (pre D post : list ascii) :
  countries stats = None ∨ states stats = None ∨ cities stats = None →
  (∃ D', D = desc_head ++ D') → forallb no_lt_L D = true →
  date_closed pre = true →
  ∃ post', (rewriteOverview stats now (pre ++ D ++ post)).1
           = (rewriteOverview stats now pre).1 ++ D ++ post'.
Proof.
  intros Hunset HD1 HD2 Hpre. rewrite !rewriteOverview_steps.
  destruct (any_stat stats) eqn:Hany; cbn [fst]; [|by exists post].
  rewrite !update_description_settled by tauto.
  destruct (anchors_step_frame stats pre D post HD1 HD2) as [p1 ->].
  apply date_step_frame; [|done|done]. by apply anchors_step_closed.
Qed.

Lemma C10_witness :
  let now := mkToday 21 September 2025 in
  let D := description_text (Num 250) (Num 5099) (Num 151300) in
  (countries stats_no_states = None ∨ states stats_no_states = None
   ∨ cities stats_no_states = None)
  ∧ date_closed page_front_dated = true
  ∧ ∃ post',
      (rewriteOverview (L := en_US) stats_no_states now
         (page_front_dated ++ D ++ page_body)).1
      = (rewriteOverview (L := en_US) stats_no_states now page_front_dated).1
          ++ D ++ post'.
Proof.
  cbv zeta. split; [right; left; reflexivity|]. split; [reflexivity|].
  apply (C10_description_kept (L := en_US)).
  - right. left. reflexivity.
  - by eexists.
  - reflexivity.
  - reflexivity.
Defined.

(** C10 as stated fails: with the countries, states and cities unset, a
    run that rewrites the regions anchor and the date line takes the
    description line away when the words of the date line stand before
    it with no tag in between. *)
Lemma C10_counterexample :
  let now := mkToday 21 September 2025 in
  let out := (rewriteOverview (L := en_US) stats_regions_only now
                overview_date_first).1 in
  countries stats_regions_only = None
  ∧ includes page_description overview_date_first = true
  ∧ includes page_description out = false
  ∧ includes (lit "description") out = false.
Proof. vm_compute. done. Qed.


Lemma page_description_line : is_description_line page_description.
Proof.
  exists (lit "250"), (lit "5000"), (lit "150000").
  repeat split; done.
Qed.

(** ** What the extractor hands to the rewriter *)

Lemma Matches_value_tail ic s cap s' cap' :
  Matches ic re_value_tail s cap s' cap' →
  ∃ num, cap' = Some num ∧ is_number num = true.
Proof.
  intros H. unfold re_value_tail in H. cbn [Seqs] in H.
  apply Matches_Seq_inv in H as (s1 & c1 & _ & H).
  apply Matches_Seq_inv in H as (s2 & c2 & _ & H).
  apply Matches_Seq_inv in H as (s3 & c3 & _ & H).
  apply Matches_Seq_inv in H as (s4 & c4 & HG & H).
  apply Matches_Eps_inv in H as [-> ->].
  inversion HG as [| | | | | | | | | |? ? ? s5 c5 Hn| |]; subst.
  apply Matches_number in Hn as (num & -> & Hnum & _).
  exists num. split; [|done]. f_equal.
  rewrite length_app.
  replace (length num + length s4 - length s4)%nat with (length num) by lia.
  by rewrite take_app_length.
Qed.

Ltac to_value_tail H :=
  repeat match type of H with
         | Matches _ (Seq ?a _) _ _ _ _ =>
             lazymatch a with
             | re_value_tail => fail
             | _ => apply Matches_Seq_inv in H as (? & ? & _ & H)
             end
         end;
  apply Matches_Seq_inv in H as (? & ? & H & HE);
  apply Matches_Eps_inv in HE as [_ ->];
  by apply Matches_value_tail in H.

Lemma patterns_capture_number :
  captures_number pat_regions ∧ captures_number pat_subregions
  ∧ captures_number pat_countries ∧ captures_number pat_states
  ∧ captures_number pat_cities.
Proof.
  repeat split; intros s rest cap H; apply match_here_Matches in H.
  - unfold pat_regions in H. cbn [Seqs] in H. to_value_tail H.
  - unfold pat_subregions in H. cbn [Seqs] in H. to_value_tail H.
  - unfold pat_countries in H. cbn [Seqs] in H. to_value_tail H.
  - unfold pat_states in H. cbn [Seqs] in H. to_value_tail H.
  - unfold pat_cities in H. cbn [Seqs] in H. to_value_tail H.
Qed.

Lemma number_value_nonneg (num : list ascii) : 0 ≤ number_value num.
Proof.
  unfold number_value.
  assert (∀ acc, 0 ≤ acc → 0 ≤ fold_left
            (fun acc c => if is_digit c
                          then acc * 10 + (Z.of_N (code c) - 48) else acc)
            num acc) as Hgen.
  { induction num as [|c num IH]; intros acc Hacc; [done|].
    cbn [fold_left]. apply IH. destruct (is_digit c) eqn:Hc; [|done].
    unfold is_digit, in_range in Hc.
    apply andb_true_iff in Hc as [Hlo _]. apply N.leb_le in Hlo. lia. }
  by apply Hgen.
Qed.

Lemma stat_of_ok (pat : regex) (readme : list ascii) :
  captures_number pat → stat_ok (stat_of pat readme).
Proof.
  intros Hpat. unfold stat_of, js_match.
  destruct (search_from_cases true pat 0 readme)
    as [[_ ->]|(a & w & rest & cap & _ & Hm & ->)]; [done|].
  cbn [m_group]. apply Hpat in Hm as (num & -> & Hnum).
  cbn [default]. rewrite parseInt_number by done. cbn [stat_ok].
  apply number_value_nonneg.
Qed.

(** X9.  No field of the record of [parseStatistics] is ever [NaN], whatever
    the README: a capture handed to [parseInt] begins with a digit. *)
Lemma parseStatistics_never_NaN (readme : list ascii) :
  let stats := parseStatistics readme in
  regions stats ≠ Some NaN ∧ subregions stats ≠ Some NaN
  ∧ countries stats ≠ Some NaN ∧ states stats ≠ Some NaN
  ∧ cities stats ≠ Some NaN.
Proof.
  destruct patterns_capture_number as (H1 & H2 & H3 & H4 & H5).
  cbv zeta. unfold parseStatistics.
  cbn [regions subregions countries states cities].
  pose proof (stat_of_ok _ readme H1) as K1.
  pose proof (stat_of_ok _ readme H2) as K2.
  pose proof (stat_of_ok _ readme H3) as K3.
  pose proof (stat_of_ok _ readme H4) as K4.
  pose proof (stat_of_ok _ readme H5) as K5.
  split; [by intros E; rewrite E in K1|].
  split; [by intros E; rewrite E in K2|].
  split; [by intros E; rewrite E in K3|].
  split; [by intros E; rewrite E in K4|].
  by intros E; rewrite E in K5.
Qed.

(** * Further properties of [parseReleaseBody] *)

(** ** Trimming *)

Lemma trim_start_nil_iff (s : list ascii) :
  trim_start s = [] ↔ forallb is_space s = true.
Proof.
  induction s as [|c s IH]; [done|]. cbn.
  destruct (is_space c); [exact IH|]. split; intros; done.
Qed.

Lemma trim_start_head (s : list ascii) (c : ascii) (t : list ascii) :
  trim_start s = c :: t → is_space c = false.
Proof.
  induction s as [|x s IH]; [done|]. cbn.
  destruct (is_space x) eqn:Hx; [exact IH|]. by intros [= <- _].
Qed.

Lemma trim_start_fixed (c : ascii) (t : list ascii) :
  is_space c = false → trim_start (c :: t) = c :: t.
Proof. intros H. cbn. by rewrite H. Qed.

Lemma trim_start_idem (s : list ascii) : trim_start (trim_start s) = trim_start s.
Proof.
  destruct (trim_start s) as [|c t] eqn:E; [done|].
  apply trim_start_fixed. by eapply trim_start_head.
Qed.

Lemma trim_end_snoc_space (s : list ascii) (c : ascii) :
  is_space c = true → trim_end (s ++ [c]) = trim_end s.
Proof.
  intros H. unfold trim_end. rewrite rev_app_distr. cbn. by rewrite H.
Qed.

Lemma trim_end_snoc_keep (s : list ascii) (c : ascii) :
  is_space c = false → trim_end (s ++ [c]) = s ++ [c].
Proof.
  intros H. unfold trim_end. rewrite rev_app_distr. cbn. rewrite H.
  cbn. by rewrite rev_involutive.
Qed.

(** [trim_end] keeps a first character that is no white space. *)
Lemma trim_end_cons_keep (c : ascii) (s : list ascii) :
  is_space c = false → trim_end (c :: s) = c :: trim_end s.
Proof.
  intros Hc. induction s as [|x s IH] using rev_ind.
  - unfold trim_end. cbn. by rewrite Hc.
  - change (c :: s ++ [x]) with ((c :: s) ++ [x]).
    destruct (is_space x) eqn:Hx.
    + by rewrite !trim_end_snoc_space.
    + by rewrite !trim_end_snoc_keep.
Qed.

Lemma trim_end_nil_iff (s : list ascii) :
  trim_end s = [] ↔ forallb is_space s = true.
Proof.
  unfold trim_end. split.
  - intros H. apply (f_equal (@rev ascii)) in H. rewrite rev_involutive in H.
    cbn in H. apply trim_start_nil_iff in H.
    rewrite forallb_forall in H |- *. intros x Hx. apply H.
    by apply in_rev in Hx.
  - intros H. assert (trim_start (rev s) = []) as ->; [|done].
    apply trim_start_nil_iff. rewrite forallb_forall in H |- *.
    intros x Hx. apply H. by apply in_rev.
Qed.

(** What [trim] returns is empty or has no white space at either end. *)
Lemma trim_ends (s : list ascii) :
  trim s = [] ∨
  ∃ c t d, trim s = c :: t ∧ is_space c = false
           ∧ last (trim s) = Some d ∧ is_space d = false.
Proof.
  unfold trim. destruct (trim_start s) as [|c t] eqn:E; [by left|]. right.
  pose proof (trim_start_head s c t E) as Hc.
  exists c, (trim_end t).
  destruct (trim_start (rev (c :: t))) as [|d u] eqn:E2.
  - exfalso. apply trim_start_nil_iff in E2.
    rewrite forallb_forall in E2. specialize (E2 c).
    rewrite E2 in Hc; [done|]. apply in_rev. rewrite rev_involutive. by left.
  - exists d. split; [by apply trim_end_cons_keep|]. split; [done|].
    split; [|by eapply trim_start_head].
    unfold trim_end. rewrite E2. cbn [rev]. by rewrite last_snoc.
Qed.

Lemma trim_fixed (s : list ascii) (c d : ascii) :
  head s = Some c → is_space c = false →
  last s = Some d → is_space d = false →
  trim s = s.
Proof.
  intros Hc1 Hc2 Hd1 Hd2. unfold trim.
  destruct s as [|x s]; [done|]. injection Hc1 as ->.
  rewrite trim_start_fixed by done.
  destruct (exists_last (l := c :: s)) as (s' & y & Hs); [done|].
  rewrite Hs in Hd1 |- *. rewrite last_snoc in Hd1. injection Hd1 as ->.
  by apply trim_end_snoc_keep.
Qed.

Lemma trim_idem (s : list ascii) : trim (trim s) = trim s.
Proof.
  destruct (trim_ends s) as [E|(c & t & d & E & Hc & Hl & Hd)].
  - by rewrite E.
  - apply (trim_fixed _ c d); [by rewrite E|done..].
Qed.

(** ** The items of the three arrays *)

Lemma split_on_no_sep (sep : ascii) (s l : list ascii) :
  l ∈ split_on sep s → sep ∉ l.
Proof.
  revert l. induction s as [|c s IH]; intros l Hl; cbn in Hl.
  - apply list_elem_of_singleton in Hl as ->. apply not_elem_of_nil.
  - destruct (chr_eqb c sep) eqn:Hc.
    + apply elem_of_cons in Hl as [->|Hl]; [apply not_elem_of_nil|by apply IH].
    + apply chr_eqb_neq in Hc.
      destruct (split_on sep s) as [|h t] eqn:E.
      * apply list_elem_of_singleton in Hl as ->.
        intros H. apply list_elem_of_singleton in H. done.
      * apply elem_of_cons in Hl as [->|Hl].
        -- intros H. apply elem_of_cons in H as [H|H]; [done|].
           revert H. apply IH. by left.
        -- apply IH. by right.
Qed.

Lemma trim_elem (s : list ascii) (x : ascii) : x ∈ trim s → x ∈ s.
Proof.
  intros H. destruct (trim_infix s) as (w1 & w2 & Hs). rewrite Hs.
  rewrite !elem_of_app. tauto.
Qed.

Lemma body_lines_elem (b line : list ascii) :
  line ∈ body_lines b →
  ∃ raw, raw ∈ split_on NL b ∧ line = trim raw ∧ line ≠ [].
Proof.
  unfold body_lines. intros H.
  apply list_elem_of_filter in H as [Hne H].
  apply list_elem_of_fmap in H as (raw & -> & Hraw).
  exists raw. split; [done|]. split; [done|].
  by destruct (trim raw).
Qed.

Lemma kept_items_inv (b item : list ascii) :
  item ∈ kept_items b →
  ∃ line, line ∈ body_lines b ∧ is_bullet line = true
          ∧ item = bullet_item line ∧ is_skipped item = false.
Proof.
  unfold kept_items. intros H.
  apply list_elem_of_filter in H as [Hs H].
  apply list_elem_of_fmap in H as (line & -> & H).
  apply list_elem_of_filter in H as [Hb H]. eauto.
Qed.

(** A bullet line is its marker, a space and a text that ends as the line
    does. *)
Lemma bullet_line_shape (raw : list ascii) :
  trim raw ≠ [] → is_bullet (trim raw) = true →
  ∃ m r d, trim raw = m :: " "%char :: r ∧ last r = Some d
           ∧ is_space d = false.
Proof.
  intros Hne Hb.
  destruct (trim_ends raw) as [E|(c & t & d & E & Hc & Hl & Hd)]; [done|].
  unfold is_bullet in Hb. apply orb_true_iff in Hb.
  assert (∃ m r, trim raw = m :: " "%char :: r) as (m & r & Hm).
  { destruct Hb as [Hb|Hb]; apply starts_with_spec in Hb as [r Hr];
      rewrite Hr; cbn; eauto. }
  exists m, r, d. split; [done|]. rewrite Hm in Hl.
  destruct r as [|x r]; [cbn in Hl; by injection Hl as <-|].
  split; [|done]. exact Hl.
Qed.

Lemma last_elem (s : list ascii) (d : ascii) : last s = Some d → d ∈ s.
Proof.
  intros H. destruct (exists_last (l := s)) as (s' & y & ->).
  { by destruct s. }
  rewrite last_snoc in H. injection H as ->. apply elem_of_app. right.
  by left.
Qed.

Lemma trim_nonempty (r : list ascii) (d : ascii) :
  d ∈ r → is_space d = false → trim r ≠ [].
Proof.
  intros Hin Hd E.
  destruct (trim_ends r) as [_|(c & t & ? & E' & _)]; [|by rewrite E in E'].
  unfold trim in E. apply trim_end_nil_iff in E.
  destruct (trim_start r) as [|c t] eqn:Es.
  - apply trim_start_nil_iff in Es. rewrite forallb_forall in Es.
    rewrite Es in Hd; [done|]. by apply list_elem_of_In.
  - apply trim_start_head in Es. cbn in E. by rewrite Es in E.
Qed.

(** X1.  Every item the parser files is a non-empty text on one line, without
    white space at its ends. *)
Theorem parsed_items_clean (body : option (list ascii)) (item : list ascii) :
  let p := parseReleaseBody body in
  item ∈ features p ++ improvements p ++ fixes p →
  item ≠ [] ∧ trim item = item ∧ NL ∉ item.
Proof.
  cbv zeta. intros Hin.
  assert (∃ b, body = Some b ∧ item ∈ kept_items b) as (b & -> & Hk).
  { destruct body as [b|]; [|by apply elem_of_nil in Hin].
    exists b. split; [done|]. rewrite parseReleaseBody_spec in Hin.
    cbn [features improvements fixes] in Hin.
    rewrite !elem_of_app, !list_elem_of_filter in Hin. tauto. }
  apply kept_items_inv in Hk as (line & Hline & Hb & -> & _).
  apply body_lines_elem in Hline as (raw & Hraw & -> & Hne).
  destruct (bullet_line_shape raw Hne Hb) as (m & r & d & Hm & Hl & Hd).
  unfold bullet_item, substring_from. rewrite Hm. cbn [drop].
  split; [|split].
  - apply (trim_nonempty r d); [by apply last_elem|done].
  - apply trim_idem.
  - intros H. apply trim_elem in H.
    apply (split_on_no_sep NL b raw Hraw). apply trim_elem. rewrite Hm.
    by do 2 right.
Qed.

Lemma parsed_items_clean_witness :
  let item := lit "Added new endpoint" in
  item ≠ [] ∧ trim item = item ∧ NL ∉ item.
Proof.
  cbv zeta. apply (parsed_items_clean (Some example_body)).
  vm_compute. by left.
Defined.

(** ** Line ends *)

Lemma is_space_CR : is_space CR = true.
Proof. reflexivity. Qed.

Lemma trim_start_snoc (y : list ascii) (c : ascii) :
  is_space c = true →
  trim_start (y ++ [c]) = [] ∧ trim_start y = []
  ∨ trim_start (y ++ [c]) = trim_start y ++ [c] ∧ trim_start y ≠ [].
Proof.
  intros Hc. induction y as [|x y IH]; cbn.
  - rewrite Hc. by left.
  - destruct (is_space x); [exact IH|]. by right.
Qed.

Lemma trim_snoc_space (y : list ascii) (c : ascii) :
  is_space c = true → trim (y ++ [c]) = trim y.
Proof.
  intros Hc. unfold trim.
  destruct (trim_start_snoc y c Hc) as [[-> ->]|[-> _]]; [done|].
  by apply trim_end_snoc_space.
Qed.

(** Line by line, the text with the longer line ends has the same lines,
    some with a carriage return at the end. *)
Lemma split_on_crlf (s : list ascii) :
  Forall2 (fun x y => x = y ∨ x = y ++ [CR])
          (split_on NL (crlf s)) (split_on NL s).
Proof.
  induction s as [|c s IH]; cbn [crlf split_on].
  - constructor; [by left|constructor].
  - destruct (chr_eqb c NL) eqn:Hc.
    + cbn [split_on]. change (chr_eqb CR NL) with false. cbv iota.
      rewrite chr_eqb_refl. constructor; [by right|exact IH].
    + cbn [split_on]. rewrite Hc.
      destruct IH as [|x y xs ys Hxy IH]; [constructor; [by left|constructor]|].
      constructor; [|exact IH].
      destruct Hxy as [->| ->]; [by left|by right].
Qed.

Lemma body_lines_crlf (s : list ascii) : body_lines (crlf s) = body_lines s.
Proof.
  unfold body_lines. f_equal.
  induction (split_on_crlf s) as [|x y xs ys Hxy _ IH]; [done|].
  cbn [map]. rewrite IH. f_equal.
  destruct Hxy as [->| ->]; [done|]. apply trim_snoc_space, is_space_CR.
Qed.

Lemma starts_with_crlf (p s : list ascii) :
  forallb not_line_end p = true →
  starts_with p (crlf s) = starts_with p s.
Proof.
  revert s. induction p as [|x p IH]; intros s Hp; [by destruct s|].
  cbn in Hp. apply andb_true_iff in Hp as [Hx Hp].
  unfold not_line_end in Hx. apply andb_true_iff in Hx as [Hx1 Hx2].
  apply negb_true_iff in Hx1, Hx2.
  destruct s as [|c s]; [done|]. cbn [crlf].
  destruct (chr_eqb c NL) eqn:Hc.
  - apply chr_eqb_eq in Hc as ->. cbn [starts_with]. by rewrite Hx1, Hx2.
  - cbn [starts_with]. by rewrite IH.
Qed.

Lemma includes_crlf (p s : list ascii) :
  forallb not_line_end p = true →
  includes p (crlf s) = includes p s.
Proof.
  intros Hp. induction s as [|c s IH]; [done|].
  cbn [includes]. rewrite <- IH, <- (starts_with_crlf p (c :: s) Hp).
  cbn [crlf]. destruct (chr_eqb c NL) eqn:Hc; cbn [includes]; [|done].
  destruct p as [|x p]; [done|].
  cbn in Hp. apply andb_true_iff in Hp as [Hx Hp].
  unfold not_line_end in Hx. apply andb_true_iff in Hx as [Hx1 Hx2].
  apply negb_true_iff in Hx1, Hx2.
  cbn [starts_with]. by rewrite Hx1, Hx2.
Qed.

Lemma lower_char_NL (c : ascii) : chr_eqb (lower_char c) NL = chr_eqb c NL.
Proof. by destruct c as [[] [] [] [] [] [] [] []]. Qed.

Lemma toLowerCase_crlf (s : list ascii) :
  toLowerCase (crlf s) = crlf (toLowerCase s).
Proof.
  induction s as [|c s IH]; [done|]. cbn [crlf toLowerCase map].
  rewrite lower_char_NL. destruct (chr_eqb c NL) eqn:Hc.
  - apply chr_eqb_eq in Hc as ->. cbn [map]. f_equal. f_equal. exact IH.
  - cbn [map]. f_equal. exact IH.
Qed.

(** X2.  Release notes with carriage returns before their line feeds are
    parsed as the notes without them: the same items in the same arrays,
    the same flag. *)
Theorem parse_ignores_carriage_returns (b : list ascii) :
  parseReleaseBody (Some (crlf b)) = parseReleaseBody (Some b).
Proof.
  rewrite !parseReleaseBody_spec. unfold kept_items, detect_breaking.
  rewrite body_lines_crlf, toLowerCase_crlf.
  by rewrite !includes_crlf.
Qed.

(** * Further properties of the changelog script *)

Lemma NoDup_fmap_eq {A B} (f : A → B) (l : list A) (x y : A) :
  NoDup (map f l) → x ∈ l → y ∈ l → f x = f y → x = y.
Proof.
  induction l as [|z l IH]; intros Hnd Hx Hy Hf; [by apply elem_of_nil in Hx|].
  cbn in Hnd. apply NoDup_cons in Hnd as [Hz Hnd].
  apply elem_of_cons in Hx as [->|Hx]; apply elem_of_cons in Hy as [->|Hy].
  - done.
  - exfalso. apply Hz. rewrite Hf. apply list_elem_of_fmap. eauto.
  - exfalso. apply Hz. rewrite <- Hf. apply list_elem_of_fmap. eauto.
  - by apply IH.
Qed.

Lemma NoDup_fmap_filter {A B} (f : A → B) (P : A → Prop)
    `{∀ x, Decision (P x)} (l : list A) :
  NoDup (map f l) → NoDup (map f (filter P l)).
Proof.
  induction l as [|z l IH]; intros Hnd; [done|].
  cbn in Hnd. apply NoDup_cons in Hnd as [Hz Hnd].
  rewrite filter_cons. case_decide; [|by apply IH].
  cbn. apply NoDup_cons. split; [|by apply IH].
  intros Hin. apply Hz. apply list_elem_of_fmap in Hin as (y & -> & Hy).
  apply list_elem_of_filter in Hy as [_ Hy].
  apply list_elem_of_fmap. eauto.
Qed.

Section ChangelogMore.

Variable date_value : list ascii → Z.
Variable getFullYear : Z → Z.
Variable toLocaleDateString : Z → list ascii.

(** ** Notes without bullets *)

Lemma kept_items_no_bullet (b : list ascii) :
  (∀ line, line ∈ body_lines b → is_bullet line = false) →
  kept_items b = [].
Proof.
  intros H. unfold kept_items.
  assert (filter (fun l => is_bullet l = true) (body_lines b) = []) as ->.
  { induction (body_lines b) as [|l ls IH]; [done|].
    rewrite filter_cons. rewrite (H l) by left.
    case_decide; [done|]. apply IH. intros l' Hl'. apply H. by right. }
  done.
Qed.

(** X4.  A release whose notes have no bullet line and none of the two
    keywords is shown as the opening and the closing tag alone: whatever
    prose the notes hold is left out. *)
Theorem prose_only_release_is_empty (r : Release) (b : list ascii) :
  body r = Some b →
  (∀ line, line ∈ body_lines b → is_bullet line = false) →
  detect_breaking b = false →
  generateUpdateComponent date_value toLocaleDateString r =
    lit "<Update label=" ++ [DQ] ++ tag_name r ++ [DQ]
      ++ lit " description=" ++ [DQ] ++ lit "Released "
      ++ formatDate date_value toLocaleDateString (published_at r)
      ++ [DQ] ++ lit ">" ++ [NL] ++ lit "</Update>" ++ [NL].
Proof.
  intros Hb Hlines Hbr. unfold generateUpdateComponent. cbv zeta.
  rewrite Hb, parseReleaseBody_spec, (kept_items_no_bullet b Hlines), Hbr.
  cbn [features improvements fixes breaking filter list_filter].
  rewrite !emit_section_spec. unfold emit_warning, slice0, section_text.
  cbn [take]. rewrite !app_nil_r.
  by rewrite <- !app_assoc.
Qed.

(** ** The order of the listing *)

Lemma changelog_layout (releases : list Release) :
  generateChangelogContent date_value getFullYear toLocaleDateString releases =
    frontMatter
      ++ concat
           (map (fun y =>
                   lit "## " ++ show_Z y ++ [NL] ++ [NL]
                     ++ concat
                          (map (fun r =>
                                  generateUpdateComponent date_value
                                    toLocaleDateString r ++ [NL])
                               (year_releases date_value
                                  (group_by_year date_value getFullYear
                                     releases) y)))
                (sorted_years
                   (group_by_year date_value getFullYear releases)))
      ++ footer.
Proof.
  unfold generateChangelogContent. cbv zeta.
  rewrite fold_left_append, <- app_assoc. do 3 f_equal.
  apply map_ext. intros y. unfold year_section. cbv zeta.
  rewrite fold_left_append. by rewrite <- ?app_assoc.
Qed.

Lemma sorted_years_perm (rs rs' : list Release) :
  rs ≡ₚ rs' →
  sorted_years (group_by_year date_value getFullYear rs')
  = sorted_years (group_by_year date_value getFullYear rs).
Proof.
  intros Hp.
  pose proof (sorted_years_strict
                (group_by_year date_value getFullYear rs)) as S1.
  pose proof (sorted_years_strict
                (group_by_year date_value getFullYear rs')) as S2.
  apply (StronglySorted_unique_strong (fun a b : Z => b < a)); try done.
  - intros x1 x2 _ _ H1 H2. lia.
  - apply NoDup_Permutation.
    + unfold sorted_years. rewrite js_sort_perm, object_keys_perm.
      apply NoDup_fst_map_to_list.
    + unfold sorted_years. rewrite js_sort_perm, object_keys_perm.
      apply NoDup_fst_map_to_list.
    + intros y. rewrite !sorted_years_elem, !group_by_year_is_Some.
      split; intros (r & Hr & Hy); exists r; split; try done.
      * by rewrite Hp.
      * by rewrite <- Hp.
Qed.

Lemma year_releases_perm (rs rs' : list Release) (y : Z) :
  rs ≡ₚ rs' →
  NoDup (map (fun r : Release => date_value (published_at r)) rs) →
  year_releases date_value (group_by_year date_value getFullYear rs') y
  = year_releases date_value (group_by_year date_value getFullYear rs) y.
Proof.
  intros Hp Hnd. unfold year_releases. rewrite !group_by_year_lookup.
  apply (StronglySorted_unique_strong
           (fun a b : Release =>
              date_value (published_at b) ≤ date_value (published_at a))).
  - intros x1 x2 H1 H2 Ha Hb.
    rewrite js_sort_perm in H1, H2.
    apply list_elem_of_filter in H1 as [_ H1].
    apply list_elem_of_filter in H2 as [_ H2].
    apply (NoDup_fmap_eq (fun r : Release => date_value (published_at r)) rs);
      [done| |done|lia].
    by rewrite Hp.
  - apply (js_sort_sorted (fun r : Release => date_value (published_at r))).
  - apply (js_sort_sorted (fun r : Release => date_value (published_at r))).
  - rewrite !js_sort_perm. by rewrite Hp.
Qed.

(** X5.  The changelog does not depend on the order in which the releases are
    listed, as long as no two of them have the same publish time. *)
Theorem changelog_order_independent (rs rs' : list Release) :
  rs ≡ₚ rs' →
  NoDup (map (fun r : Release => date_value (published_at r)) rs) →
  generateChangelogContent date_value getFullYear toLocaleDateString rs'
  = generateChangelogContent date_value getFullYear toLocaleDateString rs.
Proof.
  intros Hp Hnd. rewrite !changelog_layout.
  rewrite (sorted_years_perm rs rs' Hp). do 3 f_equal.
  apply map_ext. intros y. by rewrite (year_releases_perm rs rs' y Hp Hnd).
Qed.

(** ** Runs of the driver *)

(** X6.  A run that finds no changelog file writes the new one and nothing
    else: no backup file appears, and every other path is as it was. *)
Theorem sync_without_changelog (releases : list Release)
    (fs : gmap string (list ascii)) :
  fs !! CHANGELOG_PATH = None →
  let run := syncChangelog date_value getFullYear toLocaleDateString
               (Fetched releases) fs in
  run.2 = 0
  ∧ run.1 !! CHANGELOG_PATH =
      Some (generateChangelogContent date_value getFullYear
              toLocaleDateString releases)
  ∧ (∀ path, path ≠ CHANGELOG_PATH → run.1 !! path = fs !! path).
Proof.
  intros Hnone. cbv zeta. unfold syncChangelog. rewrite Hnone. cbn [fst snd].
  split; [done|]. split; [apply lookup_insert_eq|].
  intros path Hp. by rewrite lookup_insert_ne.
Qed.

(** X7.  After two runs in a row on the same releases the backup is a copy of
    the generated changelog: what the changelog held before the first run
    is in neither file. *)
Theorem sync_twice_backup (releases : list Release)
    (fs : gmap string (list ascii)) :
  let sync := syncChangelog date_value getFullYear toLocaleDateString
                (Fetched releases) in
  let content := generateChangelogContent date_value getFullYear
                   toLocaleDateString releases in
  let fs2 := (sync (sync fs).1).1 in
  fs2 !! CHANGELOG_PATH = Some content
  ∧ fs2 !! BACKUP_PATH = Some content
  ∧ (∀ path, path ≠ CHANGELOG_PATH → path ≠ BACKUP_PATH →
       fs2 !! path = fs !! path).
Proof.
  cbv zeta. unfold syncChangelog. cbn [fst]. fold BACKUP_PATH.
  assert (Hne : CHANGELOG_PATH ≠ BACKUP_PATH) by done.
  set (content := generateChangelogContent _ _ _ releases).
  set (fs0 := match fs !! CHANGELOG_PATH with
              | Some old => <[BACKUP_PATH := old]> fs
              | None => fs
              end).
  rewrite !(lookup_insert_eq fs0).
  split; [apply lookup_insert_eq|]. split.
  - rewrite lookup_insert_ne by done. apply lookup_insert_eq.
  - intros path H1 H2. rewrite !lookup_insert_ne by done.
    unfold fs0. destruct (fs !! CHANGELOG_PATH); [|done].
    by rewrite lookup_insert_ne.
Qed.

End ChangelogMore.

Lemma prose_only_release_is_empty_witness :
  generateUpdateComponent sample_date_value sample_toLocaleDateString release_b
  = lit "<Update label=" ++ [DQ] ++ lit "v3.0" ++ [DQ]
      ++ lit " description=" ++ [DQ] ++ lit "Released "
      ++ lit "20250120" ++ [DQ] ++ lit ">" ++ [NL] ++ lit "</Update>" ++ [NL].
Proof.
  apply (prose_only_release_is_empty sample_date_value
           sample_toLocaleDateString release_b
           (lit "Maintenance release, see the repository.")).
  - reflexivity.
  - intros line Hl. vm_compute in Hl.
    apply list_elem_of_singleton in Hl as ->. reflexivity.
  - vm_compute. reflexivity.
Defined.

Lemma changelog_order_independent_witness :
  generateChangelogContent sample_date_value sample_getFullYear
    sample_toLocaleDateString [release_b; release_a]
  = generateChangelogContent sample_date_value sample_getFullYear
      sample_toLocaleDateString [release_a; release_b].
Proof.
  apply changelog_order_independent.
  - apply perm_swap.
  - vm_compute. apply NoDup_cons. split; [|apply NoDup_singleton].
    intros H. apply list_elem_of_singleton in H. discriminate H.
Defined.

Lemma sync_without_changelog_witness :
  let run := syncChangelog sample_date_value sample_getFullYear
               sample_toLocaleDateString (Fetched [release_a]) ∅ in
  run.2 = 0
  ∧ run.1 !! CHANGELOG_PATH =
      Some (generateChangelogContent sample_date_value sample_getFullYear
              sample_toLocaleDateString [release_a])
  ∧ (∀ path, path ≠ CHANGELOG_PATH →
       run.1 !! path = (∅ : gmap string (list ascii)) !! path).
Proof.
  cbv zeta. apply sync_without_changelog. apply lookup_empty.
Defined.

(** * Numbers and dates of the statistics script *)

(** ** Printing a number and reading it back *)

Ltac digit_step :=
  cbv beta;
  match goal with
  | |- context [Z.of_N (code ?c)] =>
      let v := eval vm_compute in (Z.of_N (code c)) in
      change (Z.of_N (code c)) with v;
      change (is_digit c) with true
  end;
  cbv iota.

Lemma digits_value_acc (d : Decimal.uint) (acc : positive) :
  fold_left (fun a c => if is_digit c then a * 10 + (Z.of_N (code c) - 48)
                        else a)
            (lit (NilEmpty.string_of_uint d)) (Z.pos acc)
  = Z.pos (Pos.of_uint_acc d acc).
Proof.
  revert acc.
  induction d as [|d IH|d IH|d IH|d IH|d IH|d IH|d IH|d IH|d IH|d IH];
    intros acc; [done|..];
    cbn [NilEmpty.string_of_uint lit list_ascii_of_string fold_left
         Pos.of_uint_acc];
    rewrite <- IH; f_equal; digit_step; lia.
Qed.

Lemma digits_value (d : Decimal.uint) :
  fold_left (fun a c => if is_digit c then a * 10 + (Z.of_N (code c) - 48)
                        else a)
            (lit (NilEmpty.string_of_uint d)) 0
  = Z.of_N (Pos.of_uint d).
Proof.
  induction d as [|d IH|d IH|d IH|d IH|d IH|d IH|d IH|d IH|d IH|d IH];
    [done|exact IH|..];
    cbn [NilEmpty.string_of_uint lit list_ascii_of_string fold_left
         Pos.of_uint Z.of_N];
    rewrite <- digits_value_acc; f_equal; digit_step; lia.
Qed.

Lemma number_value_show_N (n : N) : number_value (show_N n) = Z.of_N n.
Proof.
  unfold number_value, show_N.
  rewrite <- (DecimalN.Unsigned.of_to n) at 2. unfold N.of_uint.
  destruct (N.to_uint n) eqn:E; try (rewrite <- digits_value; reflexivity).
Qed.

Lemma value_skips_separators (ds : list ascii) (acc : Z) :
  fold_left (fun a c => if is_digit c then a * 10 + (Z.of_N (code c) - 48)
                        else a) (group3 ds) acc
  = fold_left (fun a c => if is_digit c then a * 10 + (Z.of_N (code c) - 48)
                          else a) ds acc.
Proof.
  revert acc. induction ds as [|d ds IH]; intros acc; [done|].
  cbn [group3].
  destruct ((length ds mod 3 =? 0) && (0 <? length ds))%nat;
    cbn [fold_left]; [|apply IH].
  change (is_digit ",") with false. cbv iota. apply IH.
Qed.

(** X11.  Where the locale of the process is en-US, a non-negative integer
    below 2^53 that [formatNumber] prints, with its thousands separators,
    is a number text of the statistics patterns, and reading it as the
    extractor reads its capture (separators removed, then [parseInt])
    gives the number back. *)
Theorem formatNumber_read_back (z : Z) :
  0 ≤ z < 2 ^ 53 →
  is_number (formatNumber (L := en_US) (Num z)) = true
  ∧ parseInt (remove_commas (formatNumber (L := en_US) (Num z))) = Num z.
Proof.
  intros Hz.
  assert (Hn : is_number (en_US_number (Num z)) = true)
    by (apply en_US_number_ok; cbn; lia).
  change (formatNumber (L := en_US) (Num z)) with (en_US_number (Num z)).
  split; [done|]. rewrite parseInt_number by done. f_equal.
  unfold en_US_number. rewrite (proj2 (Z.ltb_ge z 0)) by lia.
  unfold number_value. rewrite value_skips_separators.
  fold (number_value (show_N (Z.abs_N z))).
  rewrite number_value_show_N. lia.
Qed.

Lemma formatNumber_read_back_witness :
  is_number (formatNumber (L := en_US) (Num 151024)) = true
  ∧ parseInt (remove_commas (formatNumber (L := en_US) (Num 151024)))
    = Num 151024.
Proof. apply formatNumber_read_back. lia. Defined.

(** ** The date of the day *)

(** X12.  On every day of a month the date reads as in English: 1st, 2nd, 3rd,
    4th to 20th, 21st, 22nd, 23rd, 24th to 30th, 31st, then the name of
    the month and the year. *)
Theorem getCurrentDate_ordinal (now : Today) :
  (1 ≤ today_day now ≤ 31)%N →
  let d := today_day now in
  let suffix :=
    if ((d =? 1) || (d =? 21) || (d =? 31))%N then lit "st"
    else if ((d =? 2) || (d =? 22))%N then lit "nd"
    else if ((d =? 3) || (d =? 23))%N then lit "rd"
    else lit "th" in
  getCurrentDate now =
    show_N d ++ suffix ++ lit " " ++ month_name (today_month now)
      ++ lit " " ++ show_N (today_year now).
Proof.
  destruct now as [d m y]. cbn [today_day today_month today_year].
  intros Hd. cbv zeta. unfold getCurrentDate.
  cbn [today_day today_month today_year]. do 2 f_equal.
  assert (∃ n, d = N.of_nat n ∧ (1 ≤ n ≤ 31)%nat) as (n & -> & Hn).
  { exists (N.to_nat d). rewrite N2Nat.id. split; [done|lia]. }
  clear Hd.
  do 32 (destruct n as [|n]; [first [lia | vm_compute; reflexivity]|]).
  lia.
Qed.

Lemma getCurrentDate_ordinal_witness :
  getCurrentDate (mkToday 21 September 2025) = lit "21st September 2025"
  ∧ getCurrentDate (mkToday 12 May 2024) = lit "12th May 2024".
Proof.
  split.
  - apply (getCurrentDate_ordinal (mkToday 21 September 2025)). cbn. lia.
  - apply (getCurrentDate_ordinal (mkToday 12 May 2024)). cbn. lia.
Defined.

(** * Further properties of the overview rewriter *)

(** ** A page without the anchors *)

Lemma includes_app_l (p a b : list ascii) :
  includes p (a ++ b) = false → includes p a = false.
Proof.
  rewrite !includes_false. intros H (x & y & ->). apply H.
  exists x, (y ++ b). by rewrite <- !app_assoc.
Qed.

Lemma includes_prefix (p q x y z : list ascii) :
  includes p (x ++ y) = false → y = (p ++ q) ++ z → False.
Proof.
  intros H ->. apply includes_false in H. apply H.
  exists x, (q ++ z). by rewrite <- !app_assoc.
Qed.

Lemma anchor_step_absent {L : NumberFormat} (c : list ascii)
    (v : option jsnum) (s : list ascii) :
  includes (lit "<div") s = false → anchor_step c v s = s.
Proof.
  intros H. destruct v as [num|]; [|done]. cbn [anchor_step].
  apply js_replace_no_match. intros a b -> .
  destruct (match_here false (re_anchor c) b) as [[rest cap]|] eqn:Hm; [|done].
  exfalso. apply anchor_match_inv in Hm as (n & -> & _).
  apply (includes_prefix (lit "<div")
           (drop 4 (anchor_open c)) a _ (n ++ lit "</div>" ++ rest) H).
  reflexivity.
Qed.

Lemma date_step_absent (now : Today) (s : list ascii) :
  includes LAST_UPDATED s = false → date_step now s = s.
Proof.
  intros H. unfold date_step. apply js_replace_no_match. intros a b ->.
  destruct (match_here false re_last_updated b) as [[rest cap]|] eqn:Hm; [|done].
  exfalso. apply last_updated_match_inv in Hm as (body & -> & _).
  apply (includes_prefix LAST_UPDATED [] a _ (body ++ rest) H).
  by rewrite app_nil_r.
Qed.

Lemma update_description_absent (stats : StatRecord) (s : list ascii) :
  includes (lit "description: ") s = false → update_description stats s = s.
Proof.
  intros H. unfold update_description.
  destruct (countries stats) as [c|]; [|done].
  destruct (states stats) as [st|]; [|done].
  destruct (cities stats) as [t|]; [|done].
  apply js_replace_no_match. intros a b ->.
  destruct (match_here false re_description b) as [[rest cap]|] eqn:Hm; [|done].
  exfalso. apply description_match_inv in Hm as (w & -> & Hw).
  destruct (description_line_plain w Hw) as [[w' ->] _].
  apply (includes_prefix (lit "description: ")
           (drop 13 desc_head ++ w') a _ rest H).
  by rewrite <- !app_assoc.
Qed.

(** X13.  On a page that has none of the anchors (no "<div", no "Last Updated: ",
    no "description: ") the rewriter keeps the text as it is, and still
    reports an update as soon as one statistic is set. *)
Theorem rewrite_without_anchors {L : NumberFormat} (stats : StatRecord)
    (now : Today) (content : list ascii) :
  includes (lit "<div") content = false →
  includes LAST_UPDATED content = false →
  includes (lit "description: ") content = false →
  rewriteOverview stats now content = (content, any_stat stats).
Proof.
  intros Hdiv Hdate Hdesc. rewrite rewriteOverview_steps.
  destruct (any_stat stats); [|done]. f_equal.
  unfold anchors_step.
  rewrite (anchor_step_absent (lit "blue")) by done.
  rewrite (anchor_step_absent (lit "green")) by done.
  rewrite (anchor_step_absent (lit "purple")) by done.
  rewrite (anchor_step_absent (lit "orange")) by done.
  rewrite (anchor_step_absent (lit "red")) by done.
  rewrite date_step_absent by done. by apply update_description_absent.
Qed.

Lemma rewrite_without_anchors_witness :
  let page := lit "# Database" ++ [NL] ++ lit "Figures are being revised." in
  rewriteOverview (L := en_US) stats_insights (mkToday 21 September 2025) page
  = (page, true).
Proof.
  cbv zeta. apply (rewrite_without_anchors (L := en_US) stats_insights);
    reflexivity.
Defined.

(** ** What each replacement does to its anchor *)

Lemma anchor_first_match (c a n rest : list ascii) :
  is_colour c → is_number n = true →
  includes (anchor_open c) a = false →
  first_match false (re_anchor c)
    (a ++ (anchor_open c ++ n ++ lit "</div>") ++ rest)
    a (anchor_open c ++ n ++ lit "</div>") rest.
Proof.
  intros Hc Hn Ha. split; [done|]. split.
  - exists None. rewrite <- !app_assoc. by apply anchor_match.
  - intros a1 a2 -> Ha2.
    destruct (match_here false (re_anchor c)
                (a2 ++ (anchor_open c ++ n ++ lit "</div>") ++ rest))
      as [[y cap]|] eqn:Hm; [|done].
    exfalso. apply anchor_within in Hm as (w & t & -> & _ & Hw); try done.
    destruct Hw as (n' & -> & _).
    apply (includes_prefix (anchor_open c) (n' ++ lit "</div>") a1 _ t Ha).
    by rewrite <- !app_assoc.
Qed.

(** X14.  The replacement of a statistic changes the number of the first anchor
    of its colour and nothing else: the tags around the number and the
    text before and after the anchor are kept as they are. *)
Theorem update_stat_first_anchor {L : NumberFormat} (c a n rest : list ascii)
    (num : jsnum) (b : bool) :
  is_colour c → is_number n = true →
  includes (anchor_open c) a = false →
  update_stat c (Some num) (a ++ anchor_open c ++ n ++ lit "</div>" ++ rest, b)
  = (a ++ anchor_open c ++ formatNumber num ++ lit "</div>" ++ rest, true).
Proof.
  intros Hc Hn Ha. unfold update_stat. cbn [fst]. f_equal.
  pose proof (anchor_first_match c a n rest Hc Hn Ha) as Hf.
  rewrite <- !app_assoc in Hf.
  rewrite (js_replace_first false (re_anchor c) _ _ a
             (anchor_open c ++ n ++ lit "</div>") rest).
  - unfold anchor_text. by rewrite <- !app_assoc.
  - exact Hf.
Qed.

Lemma update_stat_first_anchor_witness :
  update_stat (L := en_US) (lit "orange") (Some (Num 5099))
    (lit "<td>" ++ anchor_open (lit "orange") ++ lit "5,038" ++ lit "</div>"
       ++ lit "</td>", false)
  = (lit "<td>" ++ anchor_open (lit "orange")
       ++ formatNumber (L := en_US) (Num 5099)
       ++ lit "</div>" ++ lit "</td>", true).
Proof.
  apply (update_stat_first_anchor (L := en_US)).
  - unfold is_colour. tauto.
  - reflexivity.
  - reflexivity.
Defined.

Lemma date_words_self (a2 X : list ascii) :
  a2 ≠ [] →
  starts_with LAST_UPDATED (a2 ++ LAST_UPDATED ++ X) = true →
  ∃ b, a2 = LAST_UPDATED ++ b.
Proof.
  intros Ha2 Hs. apply starts_with_spec in Hs as [b Hs].
  apply app_eq_app in Hs as [l [[-> _]|[HL Hd]]]; [by exists l|].
  destruct l as [|l0 l];
    [exists []; rewrite app_nil_r in HL; by rewrite app_nil_r|]. exfalso.
  assert (Hlen : (length a2 + length (l0 :: l) = 14)%nat).
  { rewrite <- length_app, <- HL. reflexivity. }
  assert (Hl : l0 :: l = drop (length a2) LAST_UPDATED).
  { by rewrite HL, drop_app_length. }
  assert (Hst : starts_with (drop (length a2) LAST_UPDATED) (LAST_UPDATED ++ X)
                = true).
  { apply starts_with_spec. exists b. by rewrite <- Hl. }
  assert (Hk : (0 < length a2 < 14)%nat).
  { destruct a2; [done|]. cbn [length] in *. lia. }
  clear - Hst Hk. revert Hst Hk. generalize (length a2) as k. intros k.
  do 14 (destruct k as [|k];
         [intros Hst Hk; first [lia | vm_compute in Hst; discriminate]|]).
  intros _ Hk. lia.
Qed.

(** X15.  The replacement of the date takes the first "Last Updated: " and all
    that follows it up to the next "<" (or the end of the text), line
    breaks included, and puts the date of the day there. *)
Theorem date_line_rewritten (now : Today) (a body rest : list ascii) :
  includes LAST_UPDATED a = false →
  body ≠ [] → forallb not_lt_sign body = true →
  stops not_lt_sign rest = true →
  date_step now (a ++ LAST_UPDATED ++ body ++ rest)
  = a ++ LAST_UPDATED ++ getCurrentDate now ++ rest.
Proof.
  intros Ha Hne Hbody Hrest. unfold date_step.
  rewrite (js_replace_first false re_last_updated _ _ a
             (LAST_UPDATED ++ body) rest).
  - by rewrite <- !app_assoc.
  - split; [by rewrite <- !app_assoc|]. split.
    + exists None. rewrite <- !app_assoc. by apply last_updated_match.
    + intros a1 a2 -> Ha2.
      destruct (match_here false re_last_updated
                  (a2 ++ (LAST_UPDATED ++ body) ++ rest))
        as [[y cap]|] eqn:Hm; [|done].
      exfalso. apply last_updated_match_inv in Hm as (body' & Hs & _).
      assert (Hst : starts_with LAST_UPDATED
                      (a2 ++ LAST_UPDATED ++ body ++ rest) = true).
      { apply starts_with_spec. exists (body' ++ y).
        by rewrite <- Hs, <- !app_assoc. }
      apply date_words_self in Hst as [b' ->]; [|done].
      apply (includes_prefix LAST_UPDATED [] a1 _ b' Ha).
      by rewrite app_nil_r.
Qed.

Lemma date_line_rewritten_witness :
  date_step (mkToday 21 September 2025)
    (lit "<p>" ++ LAST_UPDATED ++ lit "1st May 2020" ++ lit "</p>")
  = lit "<p>" ++ LAST_UPDATED ++ lit "21st September 2025" ++ lit "</p>".
Proof.
  apply (date_line_rewritten (mkToday 21 September 2025) (lit "<p>")
           (lit "1st May 2020") (lit "</p>")); reflexivity || done.
Defined.

(** ** The description line *)

Lemma description_match (d1 d2 d3 rest : list ascii) :
  forallb is_digit d1 = true → d1 ≠ [] →
  forallb is_digit d2 = true → d2 ≠ [] →
  forallb is_digit d3 = true → d3 ≠ [] →
  match_here false re_description (description_line d1 d2 d3 ++ rest)
  = Some (rest, None).
Proof.
  intros H1 N1 H2 N2 H3 N3.
  unfold match_here, re_description, description_line. cbn [Seqs].
  rewrite <- !app_assoc.
  rewrite rmatch_Seq, rmatch_Lit_app, rmatch_Seq.
  apply digits_first; [done|done|reflexivity|].
  rewrite rmatch_Seq, rmatch_Lit_app, rmatch_Seq.
  apply digits_first; [done|done|reflexivity|].
  rewrite rmatch_Seq, rmatch_Lit_app, rmatch_Seq.
  apply digits_first; [done|done|reflexivity|].
  rewrite rmatch_Seq.
  rewrite (app_assoc (lit "+") desc_tail rest).
  by rewrite rmatch_Lit_app, rmatch_Eps.
Qed.

Lemma desc_words_self (a2 X : list ascii) :
  a2 ≠ [] →
  starts_with desc_head (a2 ++ desc_head ++ X) = true →
  ∃ b, a2 = desc_head ++ b.
Proof.
  intros Ha2 Hs. apply starts_with_spec in Hs as [b Hs].
  apply app_eq_app in Hs as [l [[-> _]|[HL Hd]]]; [by exists l|].
  destruct l as [|l0 l];
    [exists []; rewrite app_nil_r in HL; by rewrite app_nil_r|]. exfalso.
  assert (Hlen : (length a2 + length (l0 :: l) = 50)%nat).
  { rewrite <- length_app, <- HL. reflexivity. }
  assert (Hl : l0 :: l = drop (length a2) desc_head).
  { by rewrite HL, drop_app_length. }
  assert (Hst : starts_with (drop (length a2) desc_head) (desc_head ++ X)
                = true).
  { apply starts_with_spec. exists b. by rewrite <- Hl. }
  assert (Hk : (0 < length a2 < 50)%nat).
  { destruct a2; [done|]. cbn [length] in *. lia. }
  clear - Hst Hk. revert Hst Hk. generalize (length a2) as k. intros k.
  do 50 (destruct k as [|k];
         [intros Hst Hk; first [lia | vm_compute in Hst; discriminate]|]).
  intros _ Hk. lia.
Qed.

Lemma description_first_match (a w rest : list ascii) :
  includes desc_head a = false →
  (∃ w', w = desc_head ++ w') →
  (∃ cap, match_here false re_description (w ++ rest) = Some (rest, cap)) →
  first_match false re_description (a ++ w ++ rest) a w rest.
Proof.
  intros Ha [w' ->] Hm. split; [done|]. split; [done|].
  intros a1 a2 -> Ha2.
  destruct (match_here false re_description
              (a2 ++ (desc_head ++ w') ++ rest))
    as [[y cap]|] eqn:E; [|done].
  exfalso. apply description_match_inv in E as (w2 & Hs & Hw2).
  destruct (description_line_plain w2 Hw2) as [[w2' ->] _].
  assert (Hst : starts_with desc_head (a2 ++ desc_head ++ w' ++ rest) = true).
  { apply starts_with_spec. exists (w2' ++ y).
    rewrite <- !app_assoc in Hs. exact Hs. }
  apply desc_words_self in Hst as [b' ->]; [|done].
  apply (includes_prefix desc_head [] a1 _ b' Ha). by rewrite app_nil_r.
Qed.

Lemma thousands_of_rounded (s : Z) : s / 500 * 500 / 1000 = s / 1000.
Proof.
  replace 1000 with (500 * 2) by lia.
  rewrite <- !Z.div_div by lia. by rewrite Z.div_mul by lia.
Qed.

(** X16.  With the countries, states and cities set to integers that a double
    holds exactly (below 2^53), the first description line of the page is
    rewritten: the countries rounded down to a multiple of 50, the states
    and the cities as whole thousands, rounded down, with a "k" behind the
    number. *)
Theorem description_rewritten (stats : StatRecord) (c s t : Z)
    (a d1 d2 d3 rest : list ascii) :
  countries stats = Some (Num c) →
  states stats = Some (Num s) →
  cities stats = Some (Num t) →
  0 ≤ c < 2 ^ 53 → 0 ≤ s < 2 ^ 53 → 0 ≤ t < 2 ^ 53 →
  forallb is_digit d1 = true → d1 ≠ [] →
  forallb is_digit d2 = true → d2 ≠ [] →
  forallb is_digit d3 = true → d3 ≠ [] →
  includes desc_head a = false →
  update_description stats (a ++ description_line d1 d2 d3 ++ rest)
  = a ++ desc_head ++ show_Z (c / 50 * 50) ++ lit "+ countries, "
      ++ show_Z (s / 1000) ++ lit "k+ states, and "
      ++ show_Z (t / 1000) ++ lit "k+" ++ desc_tail ++ rest.
Proof.
  intros Hc Hs Ht _ _ _ H1 N1 H2 N2 H3 N3 Ha.
  unfold update_description. rewrite Hc, Hs, Ht.
  rewrite (js_replace_first false re_description _ _ a
             (description_line d1 d2 d3) rest).
  - unfold description_text, js_floor_div, js_mul, js_to_string. cbv zeta.
    rewrite thousands_of_rounded, Z.div_mul by lia.
    by rewrite <- !app_assoc.
  - apply description_first_match; [done| |].
    + unfold description_line. eauto.
    + exists None. by apply description_match.
Qed.

Lemma description_rewritten_witness :
  update_description stats_insights
    (page_front ++ description_line (lit "250") (lit "5000") (lit "150000")
       ++ page_body)
  = page_front ++ desc_head ++ lit "250" ++ lit "+ countries, "
      ++ lit "5" ++ lit "k+ states, and "
      ++ lit "151" ++ lit "k+" ++ desc_tail ++ page_body.
Proof.
  apply (description_rewritten stats_insights 250 5099 151300);
    first [reflexivity | done | lia].
Defined.

(** ** The description line after its replacement *)

Lemma span_unique (p : ascii → bool) (d d' r r' : list ascii) :
  forallb p d = true → forallb p d' = true →
  stops p r = true → stops p r' = true →
  d ++ r = d' ++ r' → d = d' ∧ r = r'.
Proof.
  revert d'. induction d as [|c d IH]; intros d' Hd Hd' Hr Hr' E.
  - destruct d' as [|c' d']; [done|]. cbn in E. subst r.
    cbn in Hd', Hr. apply andb_true_iff in Hd' as [Hc _].
    by rewrite Hc in Hr.
  - cbn in Hd. apply andb_true_iff in Hd as [Hc Hd].
    destruct d' as [|c' d'].
    + cbn in E. subst r'. cbn in Hr'. by rewrite Hc in Hr'.
    + cbn in Hd'. apply andb_true_iff in Hd' as [_ Hd'].
      injection E as -> E. destruct (IH d' Hd Hd' Hr Hr' E) as [-> ->]. done.
Qed.

Lemma js_to_string_chars (P : ascii → bool) (x : jsnum) :
  P "N"%char = true → P "a"%char = true → P "-"%char = true →
  (∀ c, is_digit c = true → P c = true) →
  forallb P (js_to_string x) = true.
Proof.
  intros HN Ha Hm Hd. destruct x as [|z]; cbn [js_to_string].
  - cbn. by rewrite HN, Ha.
  - assert (Hds : ∀ n, forallb P (show_N n) = true).
    { intros n. destruct (show_N_digits n) as [H _].
      eapply forallb_impl; [|exact H]. exact Hd. }
    unfold show_Z. destruct (z <? 0); [|apply Hds].
    cbn [lit list_ascii_of_string app forallb]. by rewrite Hm, Hds.
Qed.

(** What [String] prints for a number is a run of digits or begins with a
    character that is no digit. *)
Lemma js_to_string_span (x : jsnum) (r : list ascii) :
  stops is_digit r = true →
  ∃ d r', js_to_string x ++ r = d ++ r' ∧ forallb is_digit d = true
          ∧ stops is_digit r' = true
          ∧ (d = [] ∨ r' = r).
Proof.
  intros Hr. destruct x as [|z]; cbn [js_to_string].
  - exists [], (lit "NaN" ++ r). repeat split; by left.
  - unfold show_Z. destruct (z <? 0).
    + exists [], (lit "-" ++ show_N (Z.abs_N z) ++ r).
      rewrite <- app_assoc. repeat split; by left.
    + destruct (show_N_digits (Z.abs_N z)) as [H _].
      exists (show_N (Z.abs_N z)), r. repeat split; try done. by right.
Qed.

Lemma description_text_head_no_match (c s t : jsnum) (rest : list ascii) :
  match_here false re_description (description_text c s t ++ rest) = None.
Proof.
  destruct (match_here false re_description (description_text c s t ++ rest))
    as [[y cap]|] eqn:E; [|done].
  exfalso. apply description_match_inv in E as (w & Hs & Hw).
  destruct Hw as (d1 & d2 & d3 & -> & H1 & N1 & H2 & N2 & _).
  unfold description_text in Hs. cbv zeta in Hs.
  rewrite <- !app_assoc in Hs. apply app_inv_head in Hs.
  set (C := js_mul (js_floor_div c 50) 50) in Hs.
  set (S := js_floor_div (js_mul (js_floor_div s 500) 500) 1000) in Hs.
  destruct (js_to_string_span C
              (lit "+ countries, " ++ js_to_string S ++ lit "k+ states, and "
                 ++ js_to_string (js_floor_div (js_mul (js_floor_div t 1000) 1000) 1000)
                 ++ lit "k+" ++ desc_tail ++ rest) eq_refl)
    as (dC & rC & EC & HdC & HrC & HC).
  rewrite EC in Hs.
  apply (span_unique is_digit) in Hs as [-> Hr1];
    [|done|done|done|reflexivity].
  destruct HC as [->| ->]; [done|].
  change (lit "+ countries, " ++ ?x) with
    ((lit "+ countries, ") ++ x) in Hr1.
  apply app_inv_head in Hr1.
  destruct (js_to_string_span S
              (lit "k+ states, and "
                 ++ js_to_string (js_floor_div (js_mul (js_floor_div t 1000) 1000) 1000)
                 ++ lit "k+" ++ desc_tail ++ rest) eq_refl)
    as (dS & rS & ES & HdS & HrS & HS).
  rewrite ES in Hr1.
  apply (span_unique is_digit) in Hr1 as [-> Hr2];
    [|done|done|done|reflexivity].
  destruct HS as [->| ->]; [done|]. discriminate Hr2.
Qed.

Lemma unique_occurrence (c : ascii) (x y x' y' : list ascii) :
  x ++ c :: y = x' ++ c :: y' → c ∉ x' → c ∉ y' → x = x'.
Proof.
  intros E Hx' Hy'. apply app_eq_app in E as [l [[-> E]|[-> E]]].
  - destruct l as [|l0 l]; [by rewrite app_nil_r|]. exfalso.
    injection E as <- ->. apply Hy'. apply elem_of_app. right. by left.
  - destruct l as [|l0 l]; [by rewrite app_nil_r|]. exfalso.
    injection E as -> _. apply Hx'. apply elem_of_app. right. by left.
Qed.

Lemma forallb_not_elem (c : ascii) (l : list ascii) :
  forallb (fun x => negb (chr_eqb x c)) l = true → c ∉ l.
Proof.
  intros H Hin. rewrite forallb_forall in H.
  apply list_elem_of_In in Hin. specialize (H c Hin).
  by rewrite chr_eqb_refl in H.
Qed.

(** The written description line has its one colon where the pattern
    wants it and ends in characters the pattern cannot begin with: the
    pattern matches at no place inside the line. *)
Lemma description_text_inner_no_match (c s t : jsnum)
    (z1 z2 rest : list ascii) :
  description_text c s t = z1 ++ z2 → z1 ≠ [] → z2 ≠ [] →
  match_here false re_description (z2 ++ rest) = None.
Proof.
  intros Hv Hz1 Hz2.
  destruct (match_here false re_description (z2 ++ rest))
    as [[y cap]|] eqn:E; [|done].
  exfalso. apply description_match_inv in E as (w & Hs & Hw).
  destruct (description_line_plain w Hw) as [[w' ->] _].
  set (tl := js_to_string (js_mul (js_floor_div c 50) 50)
               ++ lit "+ countries, "
               ++ js_to_string (js_floor_div (js_mul (js_floor_div s 500) 500) 1000)
               ++ lit "k+ states, and "
               ++ js_to_string (js_floor_div (js_mul (js_floor_div t 1000) 1000) 1000)
               ++ lit "k+" ++ take 16 desc_tail).
  assert (Htl : description_text c s t = desc_head ++ tl ++ drop 16 desc_tail).
  { unfold description_text, tl. cbv zeta. by rewrite <- !app_assoc. }
  assert (Hcolon : forallb (fun x => negb (chr_eqb x ":")) tl = true).
  { unfold tl. rewrite !forallb_app.
    rewrite !(js_to_string_chars (fun x => negb (chr_eqb x ":"))); try done;
      intros x Hx; by destruct x as [[] [] [] [] [] [] [] []]. }
  clearbody tl.
  change (desc_head ++ w') with
    ((take 11 desc_head ++ [":"%char]) ++ drop 12 desc_head ++ w') in Hs.
  rewrite <- app_assoc in Hs.
  apply app_eq_app in Hs as [l [[Hz Hr]|[Hz Hr]]].
  - (* the colon lies in [z2] *)
    rewrite Hz, Htl in Hv.
    change (desc_head ++ ?x) with
      (take 11 desc_head ++ ":"%char :: drop 12 desc_head ++ x) in Hv.
    rewrite <- !app_assoc in Hv. cbn [app] in Hv.
    rewrite (app_assoc z1) in Hv.
    symmetry in Hv. apply unique_occurrence in Hv.
    + apply (f_equal length) in Hv. rewrite length_app in Hv.
      destruct z1; [done|]. cbn [length] in Hv. clear - Hv. lia.
    + by apply forallb_not_elem.
    + apply forallb_not_elem. by rewrite !forallb_app, Hcolon.
  - (* [z2] ends before the colon: an end of the line that begins as the
       pattern does *)
    assert (Hd : head z2 = Some "d"%char).
    { destruct z2 as [|z0 z2]; [done|]. by injection Hz as <- _. }
    assert (Hlen : (length z2 ≤ 12)%nat).
    { apply (f_equal length) in Hz.
      change (length (take 11 desc_head ++ [":"%char])) with 12%nat in Hz.
      rewrite length_app in Hz. clear - Hz. lia. }
    assert (Hin : "d"%char ∈ drop 16 desc_tail);
      [|revert Hin; apply forallb_not_elem; reflexivity].
    rewrite Htl, !app_assoc in Hv.
    apply app_eq_app in Hv as [l2 [[Hv1 Hv2]|[Hv1 Hv2]]].
    + assert (l2 = []) as ->.
      { apply (f_equal length) in Hv2. rewrite length_app in Hv2.
        change (length (drop 16 desc_tail)) with 12%nat in Hv2.
        destruct l2; [done|]. cbn [length] in Hv2. clear - Hv2 Hlen. lia. }
      cbn [app] in Hv2. subst z2. discriminate Hd.
    + rewrite Hv2. apply elem_of_app. right.
      destruct z2 as [|z0 z2]; [done|]. injection Hd as ->. by left.
Qed.

Lemma js_match_None_no_match (ic : bool) (r : regex) (s : list ascii) :
  js_match ic r s = None → no_match ic r s.
Proof.
  unfold js_match. intros H.
  destruct (search_from_cases ic r 0 s)
    as [[Hno _]|(a & w & rest & cap & _ & _ & E)]; [done|].
  by rewrite E in H.
Qed.

(** X17.  Once the description line is rewritten no later run rewrites it
    again, whatever the statistics are by then: the line that is written
    ("5k+ states") is not a line that the pattern reads ("5000+ states"). *)
Theorem description_rewritten_once (stats stats' : StatRecord)
    (c s t : jsnum) (a D rest : list ascii) :
  countries stats = Some c → states stats = Some s → cities stats = Some t →
  is_description_line D →
  includes desc_head a = false →
  js_match false re_description rest = None →
  let once := update_description stats (a ++ D ++ rest) in
  once = a ++ description_text c s t ++ rest
  ∧ update_description stats' once = once.
Proof.
  intros Hc Hs Ht HD Ha Hrest. cbv zeta.
  assert (Honce : update_description stats (a ++ D ++ rest)
                  = a ++ description_text c s t ++ rest).
  { unfold update_description. rewrite Hc, Hs, Ht.
    apply (js_replace_first false re_description _ _ a D rest).
    apply description_first_match; [done|by apply description_line_plain|].
    destruct HD as (d1 & d2 & d3 & -> & H1 & N1 & H2 & N2 & H3 & N3).
    exists None. by apply (description_match d1 d2 d3). }
  rewrite Honce. split; [done|].
  unfold update_description.
  destruct (countries stats') as [c'|]; [|done].
  destruct (states stats') as [s'|]; [|done].
  destruct (cities stats') as [t'|]; [|done].
  apply js_replace_no_match. intros x y Hxy.
  apply suffix_cases in Hxy
    as [(a2 & -> & Ha2 & ->)|[(v1 & v2 & -> & Hv & Hv2 & ->)|(r1 & -> & ->)]].
  - destruct (match_here false re_description
                (a2 ++ description_text c s t ++ rest))
      as [[y cap]|] eqn:E; [|done].
    exfalso. apply description_match_inv in E as (w & Hw1 & Hw).
    destruct (description_line_plain w Hw) as [[w' ->] _].
    destruct (description_text_plain c s t) as [[v' Hv'] _].
    assert (Hst : starts_with desc_head (a2 ++ desc_head ++ v' ++ rest) = true).
    { apply starts_with_spec. exists (w' ++ y).
      rewrite Hv' in Hw1. by rewrite <- !app_assoc in Hw1. }
    apply desc_words_self in Hst as [b' ->]; [|done].
    apply (includes_prefix desc_head [] x _ b' Ha). by rewrite app_nil_r.
  - destruct v1 as [|v0 v1].
    + cbn [app] in Hv. subst v2. apply description_text_head_no_match.
    + by apply (description_text_inner_no_match c s t (v0 :: v1) v2).
  - by apply (js_match_None_no_match _ _ _ Hrest r1 y).
Qed.

Lemma description_rewritten_once_witness :
  let once := update_description stats_insights overview_page in
  once = page_front
           ++ description_text (Num 250) (Num 5099) (Num 151300) ++ page_body
  ∧ update_description
      (mkStats None None (Some (Num 300)) (Some (Num 7000)) (Some (Num 200000)))
      once = once.
Proof.
  apply (description_rewritten_once stats_insights _
           (Num 250) (Num 5099) (Num 151300) page_front page_description
           page_body); try reflexivity.
  exact page_description_line.
Defined.

(** ** The driver *)

Lemma foundStats_any (stats : StatRecord) :
  (foundStats stats =? 0)%nat = negb (any_stat stats).
Proof. by destruct stats as [[r|] [sr|] [c|] [s|] [t|]]. Qed.

(** X19.  When the README gives at least one statistic, the run ends with code 1
    and writes nothing if the overview file cannot be read; else it writes
    the file, changed or not, and ends with code 0.  [updateOverviewFile]
    never reports [false] then: the driver's branch for a run without
    updates is never taken. *)
Theorem main_with_statistics {L : NumberFormat} (readme : list ascii)
    (now : Today) (fs : gmap string (list ascii)) :
  any_stat (parseStatistics readme) = true →
  let stats := parseStatistics readme in
  main (Fetched readme) now fs =
    match fs !! OVERVIEW_FILE with
    | None => (fs, 1)
    | Some content =>
        (<[OVERVIEW_FILE := (rewriteOverview stats now content).1]> fs, 0)
    end
  ∧ (∀ fs' updated,
       updateOverviewFile stats now fs = Some (fs', updated) → updated = true).
Proof.
  intros Hany. cbv zeta. unfold main.
  rewrite foundStats_any, Hany. cbn [negb]. unfold updateOverviewFile.
  destruct (fs !! OVERVIEW_FILE) as [content|]; [|by split].
  rewrite rewriteOverview_steps, Hany. cbn [fst]. split; [done|].
  by intros fs' updated [= _ <-].
Qed.

Lemma main_with_statistics_witness :
  let now := mkToday 21 September 2025 in
  main (L := en_US) (Fetched readme_insights) now ∅ = (∅, 1).
Proof.
  cbv zeta.
  destruct (main_with_statistics (L := en_US) readme_insights
              (mkToday 21 September 2025) ∅)
    as [H _]; [vm_compute; reflexivity|].
  rewrite H. by rewrite lookup_empty.
Defined.

(** * The rewriter on a page of the expected shape *)

Section Chain.

Variables (r : regex) (sep_ok blk_ok : list ascii → Prop).

Hypothesis Hsep : ∀ s a1 a2 z,
  sep_ok s → s = a1 ++ a2 → a2 ≠ [] → block_start z = true →
  match_here false r (a2 ++ z) = None.
Hypothesis Hblk : ∀ b b1 b2 rest,
  blk_ok b → b = b1 ++ b2 → b2 ≠ [] →
  match_here false r (b2 ++ rest) = None.
Hypothesis Hstart : ∀ b q, blk_ok b → block_start (b ++ q) = true.

(** No match of the pattern begins in a chain that a block follows. *)
Lemma chain_no_match (pre tail : list ascii) :
  chain sep_ok blk_ok pre → block_start tail = true →
  ∀ a1 a2, pre = a1 ++ a2 → a2 ≠ [] →
  match_here false r (a2 ++ tail) = None.
Proof.
  intros Hc Ht. induction Hc as [s Hs|s b x Hs Hb Hx IH]; intros a1 a2 E Ha2.
  - by apply (Hsep s a1 a2).
  - apply suffix_cases in E
      as [(s2 & -> & Hs2 & ->)|[(b1 & b2 & -> & -> & Hb2 & ->)|(r1 & -> & ->)]].
    + rewrite <- !app_assoc.
      apply (Hsep (a1 ++ s2) a1 s2); [done|done|done|].
      by apply Hstart.
    + rewrite <- app_assoc. by apply (Hblk (b1 ++ b2) b1 b2).
    + by apply (IH r1 a2).
Qed.

(** The replacement goes through a chain to the block after it. *)
Lemma replace_through (xx pre w post : list ascii) :
  chain sep_ok blk_ok pre →
  block_start (w ++ post) = true →
  (∃ cap, match_here false r (w ++ post) = Some (post, cap)) →
  js_replace false r xx (pre ++ w ++ post) = pre ++ xx ++ post.
Proof.
  intros Hc Hw Hm. apply (js_replace_first false r xx _ pre w post).
  split; [done|]. split; [done|].
  intros a1 a2 E Ha2. by apply (chain_no_match pre (w ++ post) Hc Hw a1 a2).
Qed.

End Chain.

(** ** The patterns on separators and blocks *)

Lemma quiet_parts (s : list ascii) :
  quiet s = true →
  includes STAT_OPEN s = false ∧ includes LAST_UPDATED s = false
  ∧ includes desc_head s = false.
Proof.
  unfold quiet. intros H.
  apply andb_true_iff in H as [H H3]. apply andb_true_iff in H as [H1 H2].
  apply negb_true_iff in H1, H2, H3. done.
Qed.

Lemma other_block_start (c b q : list ascii) :
  other_block c b → block_start (b ++ q) = true.
Proof.
  intros [(c' & Hc' & _ & Hb)|[Hb _]].
  - by apply (anchor_text_block c').
  - by apply desc_block.
Qed.

Lemma page_block_start (b q : list ascii) :
  page_block b → block_start (b ++ q) = true.
Proof.
  intros [(c' & Hc' & Hb)|[Hb _]].
  - by apply (anchor_text_block c').
  - by apply desc_block.
Qed.

Lemma anchor_sep (c s a1 a2 z : list ascii) :
  is_colour c →
  quiet s = true → s = a1 ++ a2 → a2 ≠ [] → block_start z = true →
  match_here false (re_anchor c) (a2 ++ z) = None.
Proof.
  intros Hc Hq -> Ha2 Hz.
  destruct (quiet_parts _ Hq) as (Hopen & _ & _).
  destruct (match_here false (re_anchor c) (a2 ++ z)) as [[y cap]|] eqn:E;
    [|done].
  exfalso. rewrite <- (app_nil_r z) in E, Hz.
  apply anchor_within in E as (w & t & -> & _ & (n & -> & _)); try done.
  apply (includes_prefix STAT_OPEN
           (c ++ lit "-600" ++ [DQ] ++ lit ">" ++ n ++ lit "</div>")
           a1 _ t Hopen).
  unfold anchor_open, STAT_OPEN. by rewrite <- !app_assoc.
Qed.

Lemma anchor_blk (c b b1 b2 rest : list ascii) :
  is_colour c →
  other_block c b → b = b1 ++ b2 → b2 ≠ [] →
  match_here false (re_anchor c) (b2 ++ rest) = None.
Proof.
  intros Hc [(c' & Hc' & Hne & Hb)|[_ Hb]] E Hb2.
  - apply (anchor_not_inside_anchor c c' b b1 b2); auto.
  - apply (anchor_not_inside c b b1 b2); [|done|done].
    by apply not_lt_of_no_lt_L.
Qed.

Lemma date_within (a2 z : list ascii) :
  a2 ≠ [] → block_start z = true →
  starts_with LAST_UPDATED (a2 ++ z) = true →
  ∃ b, a2 = LAST_UPDATED ++ b.
Proof.
  intros Ha2 Hz Hs. unfold block_start in Hz.
  apply orb_true_iff in Hz as [Hz|Hz].
  - assert (∃ z0 z', z = z0 :: z'
              ∧ (z0 = "<"%char ∨ z0 = "L"%char)) as (z0 & z' & -> & Hz0).
    { apply orb_true_iff in Hz as [Hz|Hz];
        apply starts_with_spec in Hz as [z' ->]; cbn; eauto. }
    apply starts_with_spec in Hs as [b Hs].
    apply app_eq_app in Hs as [l [[-> _]|[HL Hd]]]; [by exists l|].
    destruct l as [|l0 l];
      [exists []; rewrite app_nil_r in HL; by rewrite app_nil_r|]. exfalso.
    injection Hd as Hl0 _. subst l0.
    destruct a2 as [|x a2]; [done|].
    assert (Hin : z0 ∈ drop 1 LAST_UPDATED).
    { rewrite HL. cbn [app drop]. apply elem_of_app. right. by left. }
    destruct Hz0 as [-> | ->]; revert Hin; apply forallb_not_elem; reflexivity.
  - apply starts_with_spec in Hz as [z' ->].
    by apply (date_words_before a2 z').
Qed.

Lemma date_sep (s a1 a2 z : list ascii) :
  quiet s = true → s = a1 ++ a2 → a2 ≠ [] → block_start z = true →
  match_here false re_last_updated (a2 ++ z) = None.
Proof.
  intros Hq -> Ha2 Hz.
  destruct (quiet_parts _ Hq) as (_ & Hdate & _).
  destruct (match_here false re_last_updated (a2 ++ z)) as [[y cap]|] eqn:E;
    [|done].
  exfalso. apply last_updated_match_inv in E as (body & Hs & _).
  assert (Hst : starts_with LAST_UPDATED (a2 ++ z) = true).
  { apply starts_with_spec. by exists (body ++ y). }
  apply date_within in Hst as [b ->]; [|done|done].
  apply (includes_prefix LAST_UPDATED [] a1 _ b Hdate). by rewrite app_nil_r.
Qed.

Lemma page_block_no_L (b : list ascii) :
  page_block b → forallb (fun x => negb (chr_eqb x "L")) b = true.
Proof.
  intros [(c' & Hc' & Hb)|[_ Hb]].
  - destruct (anchor_text_shape c' b Hc' Hb) as (_ & _ & _ & H).
    eapply forallb_impl; [|exact H]. intros x Hx. unfold no_Lh in Hx.
    by apply andb_true_iff in Hx as [? _].
  - eapply forallb_impl; [|exact Hb]. intros x Hx. unfold no_lt_L in Hx.
    by apply andb_true_iff in Hx as [_ ?].
Qed.

Lemma date_blk (b b1 b2 rest : list ascii) :
  page_block b → b = b1 ++ b2 → b2 ≠ [] →
  match_here false re_last_updated (b2 ++ rest) = None.
Proof.
  intros Hb -> Hb2.
  pose proof (page_block_no_L _ Hb) as HL.
  rewrite forallb_app in HL. apply andb_true_iff in HL as [_ HL].
  destruct (match_here false re_last_updated (b2 ++ rest))
    as [[y cap]|] eqn:E; [|done].
  exfalso. apply last_updated_match_inv in E as (body & Hs & _).
  destruct b2 as [|x b2]; [done|].
  change LAST_UPDATED with ("L"%char :: drop 1 LAST_UPDATED) in Hs.
  cbn [app] in Hs. injection Hs as -> _. cbn in HL. done.
Qed.

Lemma anchor_step_through {L : NumberFormat} (c pre n post : list ascii)
    (num : jsnum) :
  is_colour c →
  chain (fun s => quiet s = true) (other_block c) pre →
  is_number n = true →
  anchor_step c (Some num) (pre ++ stat_anchor c n ++ post)
  = pre ++ anchor_text c num ++ post.
Proof.
  intros Hc Hpre Hn. cbn [anchor_step].
  apply (replace_through (re_anchor c) (fun s => quiet s = true)
           (other_block c)).
  - intros s a1 a2 z. by apply anchor_sep.
  - intros b b1 b2 rest. by apply anchor_blk.
  - intros b q. apply other_block_start.
  - done.
  - apply (anchor_text_block c); [done|]. by exists n.
  - exists None. unfold stat_anchor. rewrite <- !app_assoc.
    by apply anchor_match.
Qed.

Lemma date_step_through (now : Today) (pre body rest : list ascii) :
  chain (fun s => quiet s = true) page_block pre →
  body ≠ [] → forallb not_lt_sign body = true →
  stops not_lt_sign rest = true →
  date_step now (pre ++ (LAST_UPDATED ++ body) ++ rest)
  = pre ++ (LAST_UPDATED ++ getCurrentDate now) ++ rest.
Proof.
  intros Hpre Hne Hbody Hrest. unfold date_step.
  apply (replace_through re_last_updated (fun s => quiet s = true) page_block).
  - intros s a1 a2 z. by apply date_sep.
  - intros b b1 b2 rest'. by apply date_blk.
  - intros b q. apply page_block_start.
  - done.
  - reflexivity.
  - exists None. rewrite <- !app_assoc. by apply last_updated_match.
Qed.

Lemma description_block (d : list ascii) :
  is_description_line d →
  (∃ b', d = desc_head ++ b') ∧ forallb no_lt_L d = true.
Proof. apply description_line_plain. Qed.

Ltac through_anchor pre w post :=
  match goal with
  | |- context [anchor_step ?c ?v ?content] =>
      replace content with (pre ++ w ++ post) by (by rewrite <- !app_assoc);
      rewrite anchor_step_through
  end.

(** X18.  On a page of the expected shape (the description line, the five
    anchors, the date line, and between them texts that hold the beginning
    of none of these) one run with five statistics that the locale prints
    as number texts of the anchor patterns (as en-US prints every
    non-negative integer) gives the same page with the five numbers, the
    date and the description replaced, and every text between them as it
    was. *)
Theorem overview_page_rewritten {L : NumberFormat} (r sr c s t : Z)
    (now : Today)
    (s0 s1 s2 s3 s4 s5 s6 n1 n2 n3 n4 n5 d1 d2 d3 body rest : list ascii) :
  Forall (fun z => is_number (formatNumber (Num z)) = true) [r; sr; c; s; t] →
  Forall (fun x => quiet x = true) [s0; s1; s2; s3; s4; s5; s6] →
  Forall (fun n => is_number n = true) [n1; n2; n3; n4; n5] →
  Forall (fun d => forallb is_digit d = true ∧ d ≠ []) [d1; d2; d3] →
  body ≠ [] → forallb not_lt_sign body = true →
  stops not_lt_sign rest = true →
  rewriteOverview
    (mkStats (Some (Num r)) (Some (Num sr)) (Some (Num c)) (Some (Num s))
             (Some (Num t))) now
    (s0 ++ description_line d1 d2 d3
        ++ s1 ++ stat_anchor (lit "blue") n1
        ++ s2 ++ stat_anchor (lit "green") n2
        ++ s3 ++ stat_anchor (lit "purple") n3
        ++ s4 ++ stat_anchor (lit "orange") n4
        ++ s5 ++ stat_anchor (lit "red") n5
        ++ s6 ++ LAST_UPDATED ++ body ++ rest)
  = (s0 ++ description_text (Num c) (Num s) (Num t)
        ++ s1 ++ stat_anchor (lit "blue") (formatNumber (Num r))
        ++ s2 ++ stat_anchor (lit "green") (formatNumber (Num sr))
        ++ s3 ++ stat_anchor (lit "purple") (formatNumber (Num c))
        ++ s4 ++ stat_anchor (lit "orange") (formatNumber (Num s))
        ++ s5 ++ stat_anchor (lit "red") (formatNumber (Num t))
        ++ s6 ++ LAST_UPDATED ++ getCurrentDate now ++ rest,
     true).
Proof.
  intros Hz Hq Hn Hd Hbne Hbody Hrest.
  apply Forall_cons in Hz as [Zr Hz]. apply Forall_cons in Hz as [Zsr Hz].
  apply Forall_cons in Hz as [Zc Hz]. apply Forall_cons in Hz as [Zs Hz].
  apply Forall_cons in Hz as [Zt _].
  apply Forall_cons in Hq as [Q0 Hq]. apply Forall_cons in Hq as [Q1 Hq].
  apply Forall_cons in Hq as [Q2 Hq]. apply Forall_cons in Hq as [Q3 Hq].
  apply Forall_cons in Hq as [Q4 Hq]. apply Forall_cons in Hq as [Q5 Hq].
  apply Forall_cons in Hq as [Q6 _].
  apply Forall_cons in Hn as [N1 Hn]. apply Forall_cons in Hn as [N2 Hn].
  apply Forall_cons in Hn as [N3 Hn]. apply Forall_cons in Hn as [N4 Hn].
  apply Forall_cons in Hn as [N5 _].
  apply Forall_cons in Hd as [[D1 E1] Hd].
  apply Forall_cons in Hd as [[D2 E2] Hd].
  apply Forall_cons in Hd as [[D3 E3] _].
  colour_facts.
  set (D := description_line d1 d2 d3).
  assert (HD : is_description_line D).
  { exists d1, d2, d3. unfold D, description_line. tauto. }
  pose proof (description_block D HD) as HDb.
  set (B := anchor_text (lit "blue") (Num r)).
  set (G := anchor_text (lit "green") (Num sr)).
  set (P := anchor_text (lit "purple") (Num c)).
  set (O := anchor_text (lit "orange") (Num s)).
  set (R := anchor_text (lit "red") (Num t)).
  assert (HB : is_anchor_text (lit "blue") B) by (by apply anchor_text_ok).
  assert (HG : is_anchor_text (lit "green") G) by (by apply anchor_text_ok).
  assert (HP : is_anchor_text (lit "purple") P) by (by apply anchor_text_ok).
  assert (HO : is_anchor_text (lit "orange") O) by (by apply anchor_text_ok).
  assert (HR : is_anchor_text (lit "red") R) by (by apply anchor_text_ok).
  assert (Hother : ∀ c c' b, is_colour c' → c' ≠ c → is_anchor_text c' b →
                             other_block c b).
  { intros c0 c' b ? ? ?. left. by exists c'. }
  assert (HotherD : ∀ c, other_block c D) by (intros c0; by right).
  assert (Hpage : ∀ c' b, is_colour c' → is_anchor_text c' b → page_block b).
  { intros c' b ? ?. left. by exists c'. }
  rewrite rewriteOverview_steps. change (any_stat _) with true. cbv iota.
  f_equal. unfold anchors_step.
  cbn [regions subregions countries states cities].
  through_anchor (s0 ++ D ++ s1) (stat_anchor (lit "blue") n1)
    (s2 ++ stat_anchor (lit "green") n2
        ++ s3 ++ stat_anchor (lit "purple") n3
        ++ s4 ++ stat_anchor (lit "orange") n4
        ++ s5 ++ stat_anchor (lit "red") n5
        ++ s6 ++ LAST_UPDATED ++ body ++ rest);
    [|done|by repeat (constructor; auto)|done].
  through_anchor (s0 ++ D ++ s1 ++ B ++ s2) (stat_anchor (lit "green") n2)
    (s3 ++ stat_anchor (lit "purple") n3
        ++ s4 ++ stat_anchor (lit "orange") n4
        ++ s5 ++ stat_anchor (lit "red") n5
        ++ s6 ++ LAST_UPDATED ++ body ++ rest);
    [|done| |done].
  2:{ apply chain_cons; [done|done|]. apply chain_cons; [done| |by constructor].
      by apply (Hother _ (lit "blue")). }
  through_anchor (s0 ++ D ++ s1 ++ B ++ s2 ++ G ++ s3)
    (stat_anchor (lit "purple") n3)
    (s4 ++ stat_anchor (lit "orange") n4
        ++ s5 ++ stat_anchor (lit "red") n5
        ++ s6 ++ LAST_UPDATED ++ body ++ rest);
    [|done| |done].
  2:{ apply chain_cons; [done|done|].
      apply chain_cons; [done|by apply (Hother _ (lit "blue"))|].
      apply chain_cons; [done|by apply (Hother _ (lit "green"))|].
      by constructor. }
  through_anchor (s0 ++ D ++ s1 ++ B ++ s2 ++ G ++ s3 ++ P ++ s4)
    (stat_anchor (lit "orange") n4)
    (s5 ++ stat_anchor (lit "red") n5
        ++ s6 ++ LAST_UPDATED ++ body ++ rest);
    [|done| |done].
  2:{ apply chain_cons; [done|done|].
      apply chain_cons; [done|by apply (Hother _ (lit "blue"))|].
      apply chain_cons; [done|by apply (Hother _ (lit "green"))|].
      apply chain_cons; [done|by apply (Hother _ (lit "purple"))|].
      by constructor. }
  through_anchor (s0 ++ D ++ s1 ++ B ++ s2 ++ G ++ s3 ++ P ++ s4 ++ O ++ s5)
    (stat_anchor (lit "red") n5)
    (s6 ++ LAST_UPDATED ++ body ++ rest);
    [|done| |done].
  2:{ apply chain_cons; [done|done|].
      apply chain_cons; [done|by apply (Hother _ (lit "blue"))|].
      apply chain_cons; [done|by apply (Hother _ (lit "green"))|].
      apply chain_cons; [done|by apply (Hother _ (lit "purple"))|].
      apply chain_cons; [done|by apply (Hother _ (lit "orange"))|].
      by constructor. }
  replace ((s0 ++ D ++ s1 ++ B ++ s2 ++ G ++ s3 ++ P ++ s4 ++ O ++ s5)
             ++ anchor_text (lit "red") (Num t)
             ++ s6 ++ LAST_UPDATED ++ body ++ rest)
    with ((s0 ++ D ++ s1 ++ B ++ s2 ++ G ++ s3 ++ P ++ s4 ++ O ++ s5 ++ R ++ s6)
            ++ (LAST_UPDATED ++ body) ++ rest)
    by (by rewrite <- !app_assoc).
  rewrite date_step_through; [| |done..].
  2:{ apply chain_cons; [done|by right|].
      apply chain_cons; [done|by apply (Hpage (lit "blue"))|].
      apply chain_cons; [done|by apply (Hpage (lit "green"))|].
      apply chain_cons; [done|by apply (Hpage (lit "purple"))|].
      apply chain_cons; [done|by apply (Hpage (lit "orange"))|].
      apply chain_cons; [done|by apply (Hpage (lit "red"))|].
      by constructor. }
  replace ((s0 ++ D ++ s1 ++ B ++ s2 ++ G ++ s3 ++ P ++ s4 ++ O ++ s5 ++ R ++ s6)
             ++ (LAST_UPDATED ++ getCurrentDate now) ++ rest)
    with (s0 ++ description_line d1 d2 d3
             ++ (s1 ++ B ++ s2 ++ G ++ s3 ++ P ++ s4 ++ O ++ s5 ++ R ++ s6
                    ++ LAST_UPDATED ++ getCurrentDate now ++ rest))
    by (by rewrite <- !app_assoc).
  destruct (quiet_parts _ Q0) as (_ & _ & Hs0).
  unfold update_description. cbn [countries states cities].
  match goal with
  | |- js_replace _ _ _ (_ ++ _ ++ ?tl) = _ =>
      apply (js_replace_first false re_description _ _ s0
               (description_line d1 d2 d3) tl)
  end.
  apply description_first_match; [done| |].
  - unfold description_line. eauto.
  - exists None. by apply description_match.
Qed.

Lemma overview_page_rewritten_witness :
  let now := mkToday 21 September 2025 in
  let sep := lit "</div>" ++ [NL] ++ lit "<div className=" ++ [DQ]
               ++ lit "card" ++ [DQ] ++ lit ">" in
  rewriteOverview (L := en_US) stats_insights now
    (page_front ++ description_line (lit "250") (lit "5000") (lit "150000")
        ++ ([NL] ++ page_front) ++ stat_anchor (lit "blue") (lit "6")
        ++ sep ++ stat_anchor (lit "green") (lit "22")
        ++ sep ++ stat_anchor (lit "purple") (lit "250")
        ++ sep ++ stat_anchor (lit "orange") (lit "5,038")
        ++ sep ++ stat_anchor (lit "red") (lit "151,024")
        ++ lit "<p>" ++ LAST_UPDATED ++ lit "1st May 2020" ++ lit "</p>")
  = (page_front ++ description_text (Num 250) (Num 5099) (Num 151300)
        ++ ([NL] ++ page_front)
        ++ stat_anchor (lit "blue") (en_US_number (Num 6))
        ++ sep ++ stat_anchor (lit "green") (en_US_number (Num 22))
        ++ sep ++ stat_anchor (lit "purple") (en_US_number (Num 250))
        ++ sep ++ stat_anchor (lit "orange") (en_US_number (Num 5099))
        ++ sep ++ stat_anchor (lit "red") (en_US_number (Num 151300))
        ++ lit "<p>" ++ LAST_UPDATED ++ getCurrentDate now ++ lit "</p>",
     true).
Proof.
  cbv zeta.
  apply (overview_page_rewritten (L := en_US) 6 22 250 5099 151300).
  - repeat constructor.
  - repeat constructor.
  - repeat constructor.
  - repeat constructor; done.
  - done.
  - reflexivity.
  - reflexivity.
Defined.

(** * Letter case in the statistics patterns *)

Lemma toLowerCase_take (n : nat) (s : list ascii) :
  toLowerCase (take n s) = take n (toLowerCase s).
Proof. unfold toLowerCase. by rewrite <- fmap_take. Qed.

Section LowerCase.

Context {R : Type}.
Implicit Types (k : kont R).

Lemma star_loop_lower
    (body body' : list ascii → option (list ascii) → kont R → option R)
    k k' n s cap :
  (∀ s cap k k', lower_kont k k' →
     body' (toLowerCase s) (option_map toLowerCase cap) k' = body s cap k) →
  lower_kont k k' →
  star_loop body' k' n (toLowerCase s) (option_map toLowerCase cap)
  = star_loop body k n s cap.
Proof.
  intros Hb Hk. revert s cap. induction n as [|n IH]; intros s cap;
    cbn [star_loop].
  - apply Hk.
  - rewrite Hk. f_equal. apply Hb. intros s' c'.
    rewrite !toLowerCase_length.
    destruct (length s' <? length s)%nat; [apply IH|done].
Qed.

Lemma lazy_loop_lower
    (body body' : list ascii → option (list ascii) → kont R → option R)
    k k' n s cap :
  (∀ s cap k k', lower_kont k k' →
     body' (toLowerCase s) (option_map toLowerCase cap) k' = body s cap k) →
  lower_kont k k' →
  lazy_loop body' k' n (toLowerCase s) (option_map toLowerCase cap)
  = lazy_loop body k n s cap.
Proof.
  intros Hb Hk. revert s cap. induction n as [|n IH]; intros s cap;
    cbn [lazy_loop].
  - apply Hk.
  - rewrite Hk. f_equal. apply Hb. intros s' c'.
    rewrite !toLowerCase_length.
    destruct (length s' <? length s)%nat; [apply IH|done].
Qed.

Lemma line_terminator_lower (c : ascii) :
  is_line_terminator (lower_char c) = is_line_terminator c.
Proof. by destruct c as [[] [] [] [] [] [] [] []]. Qed.

(** Under the [i] flag a pattern with case-blind classes runs on the
    lower-cased text as it runs on the text. *)
Lemma rmatch_lower (r : regex) s cap k k' :
  case_blind r → lower_kont k k' →
  rmatch true r (toLowerCase s) (option_map toLowerCase cap) k'
  = rmatch true r s cap k.
Proof.
  revert s cap k k'.
  induction r as [c|p| |a IHa b IHb|a IHa|a IHa|a IHa|a IHa| ];
    intros s cap k k' Hr Hk; cbn [rmatch case_blind] in *.
  - destruct s as [|x s]; [done|]. cbn [toLowerCase map].
    unfold pat_char_eqb. rewrite canon_lower.
    destruct (chr_eqb (canon_char c) (canon_char x)); [apply Hk|done].
  - destruct s as [|x s]; [done|]. cbn [toLowerCase map]. rewrite Hr.
    destruct (p x); [apply Hk|done].
  - apply Hk.
  - destruct Hr as [Ha Hb]. apply IHa; [done|].
    intros s' c'. by apply IHb.
  - rewrite (IHa s cap k k' Hr Hk), Hk. done.
  - rewrite toLowerCase_length. apply star_loop_lower; [|done].
    intros s0 c0 k0 k0' Hk0. by apply IHa.
  - rewrite toLowerCase_length. apply lazy_loop_lower; [|done].
    intros s0 c0 k0 k0' Hk0. by apply IHa.
  - apply IHa; [done|]. intros s' c'.
    rewrite !toLowerCase_length, <- toLowerCase_take.
    apply (Hk s' (Some (take (length s - length s') s))).
  - destruct s as [|x s]; [apply Hk|]. cbn [toLowerCase map].
    rewrite line_terminator_lower.
    destruct (is_line_terminator x); [apply (Hk (x :: s))|done].
Qed.

End LowerCase.

Lemma or_else_map {A B} (g : A → B) (a b : option A) :
  option_map g (or_else a b) = or_else (option_map g a) (option_map g b).
Proof. by destruct a. Qed.

Section Natural.

Context {A B : Type} (g : A → B).

Lemma star_loop_map
    (body : list ascii → option (list ascii) → kont A → option A)
    (body' : list ascii → option (list ascii) → kont B → option B)
    (k : kont A) n s cap :
  body_ext body' →
  (∀ s cap k, body' s cap (fun s' c' => option_map g (k s' c'))
              = option_map g (body s cap k)) →
  star_loop body' (fun s' c' => option_map g (k s' c')) n s cap
  = option_map g (star_loop body k n s cap).
Proof.
  intros He Hb. revert s cap. induction n as [|n IH]; intros s cap;
    cbn [star_loop]; [done|].
  rewrite or_else_map, <- Hb. f_equal. apply He. intros s' c'.
  destruct (length s' <? length s)%nat; [apply IH|done].
Qed.

Lemma lazy_loop_map
    (body : list ascii → option (list ascii) → kont A → option A)
    (body' : list ascii → option (list ascii) → kont B → option B)
    (k : kont A) n s cap :
  body_ext body' →
  (∀ s cap k, body' s cap (fun s' c' => option_map g (k s' c'))
              = option_map g (body s cap k)) →
  lazy_loop body' (fun s' c' => option_map g (k s' c')) n s cap
  = option_map g (lazy_loop body k n s cap).
Proof.
  intros He Hb. revert s cap. induction n as [|n IH]; intros s cap;
    cbn [lazy_loop]; [done|].
  rewrite or_else_map, <- Hb. f_equal. apply He. intros s' c'.
  destruct (length s' <? length s)%nat; [apply IH|done].
Qed.

(** The matcher hands the result of its continuation through. *)
Lemma rmatch_map ic (r : regex) s cap (k : kont A) :
  rmatch ic r s cap (fun s' c' => option_map g (k s' c'))
  = option_map g (rmatch ic r s cap k).
Proof.
  revert s cap k.
  induction r as [c|p| |a IHa b IHb|a IHa|a IHa|a IHa|a IHa| ];
    intros s cap k; cbn [rmatch].
  - destruct s as [|x s]; [done|]. by destruct (pat_char_eqb ic c x).
  - destruct s as [|x s]; [done|]. by destruct (p x).
  - done.
  - rewrite <- IHa. apply rmatch_ext. intros s' c'. apply IHb.
  - by rewrite or_else_map, IHa.
  - apply star_loop_map; [|done]. intros ? ? ? ? ?. by apply rmatch_ext.
  - apply lazy_loop_map; [|done]. intros ? ? ? ? ?. by apply rmatch_ext.
  - apply (IHa s cap (fun s' _ => k s' (Some (take (length s - length s') s)))).
  - destruct s as [|x s]; [done|]. by destruct (is_line_terminator x).
Qed.

End Natural.

Lemma match_here_lower (r : regex) (s : list ascii) :
  case_blind r →
  match_here true r (toLowerCase s)
  = option_map (fun x => (toLowerCase x.1, option_map toLowerCase x.2))
      (match_here true r s).
Proof.
  intros Hr. unfold match_here.
  rewrite <- (rmatch_map
                (fun x : list ascii * option (list ascii) =>
                   (toLowerCase x.1, option_map toLowerCase x.2))
                true r s None (fun s' c' => Some (s', c'))).
  by apply (rmatch_lower r s None).
Qed.

Lemma search_from_eq (ic : bool) (r : regex) (i : nat) (s : list ascii) :
  search_from ic r i s =
  match match_here ic r s with
  | Some (s', cap) => Some (mkMatch i (take (length s - length s') s) cap)
  | None =>
      match s with
      | [] => None
      | _ :: s' => search_from ic r (S i) s'
      end
  end.
Proof. by destruct s. Qed.

Lemma search_from_lower (r : regex) (i : nat) (s : list ascii) :
  case_blind r →
  search_from true r i (toLowerCase s)
  = option_map (fun m => mkMatch (m_index m) (toLowerCase (m_text m))
                           (option_map toLowerCase (m_group m)))
      (search_from true r i s).
Proof.
  intros Hr. revert i. induction s as [|c s IH]; intros i;
    rewrite (search_from_eq true r i (toLowerCase _)),
            (search_from_eq true r i), match_here_lower by done.
  - by destruct (match_here true r []) as [[s' cap]|].
  - destruct (match_here true r (c :: s)) as [[s' cap]|];
      cbn [option_map fst snd].
    + cbn [m_index m_text m_group].
      by rewrite !toLowerCase_length, <- toLowerCase_take.
    + apply IH.
Qed.

Lemma is_space_lower (c : ascii) : is_space (lower_char c) = is_space c.
Proof. by destruct c as [[] [] [] [] [] [] [] []]. Qed.

Lemma is_digit_lower (c : ascii) : is_digit (lower_char c) = is_digit c.
Proof. by destruct c as [[] [] [] [] [] [] [] []]. Qed.

Lemma patterns_case_blind :
  case_blind pat_regions ∧ case_blind pat_subregions
  ∧ case_blind pat_countries ∧ case_blind pat_states
  ∧ case_blind pat_cities.
Proof.
  assert (Hlit : ∀ l, case_blind (Lit l)) by (intros l; by induction l).
  repeat split; try apply Hlit; try exact is_space_lower;
    try exact is_digit_lower.
Qed.

Lemma number_lower (num : list ascii) :
  is_number num = true → toLowerCase num = num.
Proof.
  intros H. apply number_chars in H.
  induction num as [|c num IH]; [done|].
  cbn in H. apply andb_true_iff in H as [Hc H].
  cbn [toLowerCase map]. fold (toLowerCase num). rewrite (IH H). f_equal.
  revert Hc. by destruct c as [[] [] [] [] [] [] [] []].
Qed.

Lemma stat_of_lower (pat : regex) (readme : list ascii) :
  case_blind pat → captures_number pat →
  stat_of pat (toLowerCase readme) = stat_of pat readme.
Proof.
  intros Hb Hc. unfold stat_of, js_match.
  rewrite search_from_lower by done.
  destruct (search_from_cases true pat 0 readme)
    as [[_ ->]|(a & w & rest & cap & _ & Hm & ->)]; [done|].
  cbn [option_map m_group]. apply Hc in Hm as (num & -> & Hnum).
  cbn [option_map default]. by rewrite number_lower.
Qed.

(** X10.  The labels are read in any letter case: the README in lower case
    gives the statistics of the README itself. *)
Theorem parseStatistics_ignores_case (readme : list ascii) :
  parseStatistics (toLowerCase readme) = parseStatistics readme.
Proof.
  destruct patterns_case_blind as (B1 & B2 & B3 & B4 & B5).
  destruct patterns_capture_number as (K1 & K2 & K3 & K4 & K5).
  unfold parseStatistics.
  rewrite (stat_of_lower pat_regions readme B1 K1).
  rewrite (stat_of_lower pat_subregions readme B2 K2).
  rewrite (stat_of_lower pat_countries readme B3 K3).
  rewrite (stat_of_lower pat_states readme B4 K4).
  rewrite (stat_of_lower pat_cities readme B5 K5).
  reflexivity.
Qed.

(** * The text of the warning *)

Lemma Matches_lazy_cls ic p s cap s' cap' :
  Matches ic (LazyStar (Cls p)) s cap s' cap' →
  ∃ w, s = w ++ s' ∧ forallb p w = true ∧ cap' = cap.
Proof.
  intros H. remember (LazyStar (Cls p)) as r eqn:Er.
  induction H as [| | | | | | | | |a s cap s1 c1 s2 c2 H1 _ Hlt H2 IH| | |];
    try discriminate.
  - by exists [].
  - injection Er as ->. inversion H1; subst.
    destruct (IH eq_refl) as (w & -> & Hw & ->).
    exists (x :: w). cbn. by rewrite andb_true_iff.
Qed.

Lemma Matches_Group_inv ic a s cap s' cap' :
  Matches ic (Group a) s cap s' cap' →
  ∃ c1, Matches ic a s cap s' c1
        ∧ cap' = Some (take (length s - length s') s).
Proof. inversion 1; subst; eauto. Qed.

Lemma Matches_Eol_inv ic s cap s' cap' :
  Matches ic Eol s cap s' cap' → s' = s ∧ cap' = cap.
Proof. by inversion 1. Qed.

Lemma breaking_capture (s rest : list ascii) (cap : option (list ascii)) :
  match_here true re_breaking s = Some (rest, cap) →
  ∃ text, cap = Some text ∧ forallb any_char text = true.
Proof.
  intros H. apply match_here_Matches in H. unfold re_breaking in H.
  cbn [Seqs] in H.
  apply Matches_Seq_inv in H as (s1 & c1 & _ & H).
  apply Matches_Seq_inv in H as (s2 & c2 & _ & H).
  apply Matches_Seq_inv in H as (s3 & c3 & HG & H).
  apply Matches_Seq_inv in H as (s4 & c4 & HE & H).
  apply Matches_Eps_inv in H as [-> ->].
  apply Matches_Eol_inv in HE as [-> ->].
  apply Matches_Group_inv in HG as (c5 & HL & ->).
  apply Matches_lazy_cls in HL as (w & -> & Hw & _).
  exists w. split; [|done]. f_equal.
  by rewrite length_app, Nat.add_sub, take_app_length.
Qed.

Lemma forallb_trim (P : ascii → bool) (s : list ascii) :
  forallb P s = true → forallb P (trim s) = true.
Proof.
  intros H. destruct (trim_infix s) as (w1 & w2 & Hs).
  rewrite Hs, !forallb_app in H.
  apply andb_true_iff in H as [_ H]. by apply andb_true_iff in H as [H _].
Qed.

(** X3.  The text shown in the warning of a release never holds a line feed or
    a carriage return: it is the fixed sentence or a part of one line of
    the notes. *)
Theorem breaking_description_one_line (body : option (list ascii)) :
  forallb any_char (breaking_description body) = true.
Proof.
  destruct body as [b|]; [|reflexivity]. unfold breaking_description, js_match.
  destruct (search_from_cases true re_breaking 0 b)
    as [[_ ->]|(a & w & rest & cap & _ & Hm & ->)]; [reflexivity|].
  cbn [m_group]. apply breaking_capture in Hm as (text & -> & Ht).
  cbn [default]. by apply forallb_trim.
Qed.

(** * The hint about the token *)

Lemma starts_with_cut (p x z : list ascii) (c : ascii) :
  forallb is_digit p = true → is_digit c = false →
  starts_with p (x ++ c :: z) = starts_with p x.
Proof.
  revert x. induction p as [|a p IH]; intros x Hp Hc; [done|].
  cbn in Hp. apply andb_true_iff in Hp as [Ha Hp].
  destruct x as [|b x]; cbn [app starts_with].
  - destruct (chr_eqb a c) eqn:E; [|done].
    apply chr_eqb_eq in E as ->. by rewrite Ha in Hc.
  - by rewrite IH.
Qed.

Lemma includes_skip (p z : list ascii) (c : ascii) :
  forallb is_digit p = true → p ≠ [] → is_digit c = false →
  includes p (c :: z) = includes p z.
Proof.
  intros Hp Hne Hc. cbn [includes].
  destruct p as [|a p]; [done|]. cbn in Hp.
  apply andb_true_iff in Hp as [Ha Hp]. cbn [starts_with].
  destruct (chr_eqb a c) eqn:E; [|done].
  apply chr_eqb_eq in E as ->. by rewrite Ha in Hc.
Qed.

Lemma includes_cut (p x z : list ascii) (c : ascii) :
  forallb is_digit p = true → p ≠ [] → is_digit c = false →
  includes p (x ++ c :: z) = includes p x || includes p z.
Proof.
  intros Hp Hne Hc. induction x as [|b x IH].
  - cbn [app]. rewrite includes_skip by done.
    destruct p as [|a p]; [done|]. reflexivity.
  - cbn [app includes]. rewrite IH.
    change (b :: x ++ c :: z) with ((b :: x) ++ c :: z).
    rewrite starts_with_cut by done. by rewrite orb_assoc.
Qed.

(** X8.  On a response with a status other than 200 the hint about the token
    is printed exactly when "401" stands in the digits of the status or
    anywhere in the body of the response. *)
Theorem token_hint_on_status_error (status : Z) (data : list ascii) :
  shows_token_hint (releases_error status data)
  = includes (lit "401") (show_Z status) || includes (lit "401") data.
Proof.
  unfold shows_token_hint, releases_error.
  assert (Hskip : ∀ l z, forallb (fun c => negb (is_digit c)) l = true →
            includes (lit "401") (l ++ z) = includes (lit "401") z).
  { intros l z Hl. induction l as [|c l IH]; [done|].
    cbn in Hl. apply andb_true_iff in Hl as [Hc Hl].
    apply negb_true_iff in Hc. cbn [app].
    rewrite includes_skip by done. by apply IH. }
  rewrite Hskip by reflexivity.
  change (lit " - " ++ data) with (" "%char :: lit "- " ++ data).
  rewrite includes_cut by done. f_equal.
Qed.
